(** * Epilog laser driver: a shallow embedding of cups-epilog.c

    The C program turns a bitmap and a vector command file into a PJL job
    and hands it to the engraver over LPD.  C [int]s are modelled as [Z]
    (with C's truncating division, [Z.quot]), bytes as [Z] in [0, 256),
    the output file as a [string] of 8-bit characters, and the global
    variables of the program as a record threaded through the functions. *)

From Stdlib Require Import String Ascii DecimalString.
From Stdlib Require Import ZArith List Lia Bool.
From Equations Require Import Equations.
Import ListNotations.

Local Open Scope Z_scope.

(** ** Buffers *)

(** [static char buf[102400]]: [sizeof (buf)]. *)
Definition BUF_SIZE : Z := 102400.

(** [unsigned char pack[sizeof (buf) * 5 / 4 + 1]]: [sizeof (pack)]. *)
Definition PACK_SIZE : Z := BUF_SIZE * 5 / 4 + 1.

(** Conversion of an [int] to [unsigned char]. *)
Definition uchar (v : Z) : Z := v mod 256.

Definition is_byte (v : Z) : Prop := 0 <= v < 256.

(** ** Text written by [fprintf] and [fputc] *)

Local Open Scope string_scope.

(** The escape character, ["\e"] in the C source. *)
Definition ESC : string := String "027"%char EmptyString.

(** ["\r\n"]. *)
Definition CRLF : string := String "013"%char (String "010"%char EmptyString).

(** ["\002"] and ["\003"], the LPD command bytes. *)
Definition STX : string := String "002"%char EmptyString.
Definition ETX : string := String "003"%char EmptyString.

(** ["\n"]. *)
Definition LF : string := String "010"%char EmptyString.

(** [%d]. *)
Definition fmt_d (z : Z) : string := NilZero.string_of_int (Z.to_int z).

Fixpoint zeros (n : nat) : string :=
  match n with
  | O => EmptyString
  | S k => String "0"%char (zeros k)
  end.

(** [%0wd]: the sign first, then zeros up to the width, then the digits. *)
Definition fmt_0d (w : nat) (z : Z) : string :=
  let ds := NilZero.string_of_uint (N.to_uint (Z.abs_N z)) in
  if (z <? 0)%Z then "-" ++ zeros (w - 1 - String.length ds)%nat ++ ds
  else zeros (w - String.length ds)%nat ++ ds.

(** The character [fputc] writes for an [int]. *)
Definition byte_char (v : Z) : ascii := ascii_of_N (Z.to_N (uchar v)).

Fixpoint string_of_bytes (bs : list Z) : string :=
  match bs with
  | [] => EmptyString
  | b :: bs' => String (byte_char b) (string_of_bytes bs')
  end.

Local Close Scope string_scope.

(** ** The run-length packer of [generate_raster]

    The packer works on [buf[l..r)], the active range of a scan line; the
    model carries that slice as a list, so that [l] advancing is the list
    losing its head.  [pack] is the local array with its write index [n]:
    the list holds [pack[0..n)]. *)
Module Pack.

(** [p - l] after
    [for (p = l; p < r && p < l + 128 && buf[p] == buf[l]; p++);]
    where [limit] counts down from 128 and [b] is [buf[l]]. *)
Fixpoint run_scan (b : Z) (xs : list Z) (limit : nat) : nat :=
  match limit, xs with
  | S k, x :: xs' => if x =? b then S (run_scan b xs' k) else O
  | _, _ => O
  end.

(** [p - l] after
    [for (p = l; p < r && p < l + 127 &&
          (p + 1 == r || buf[p] != buf[p + 1]); p++);]. *)
Fixpoint literal_scan (xs : list Z) (limit : nat) : nat :=
  match limit, xs with
  | S k, x :: xs' =>
      match xs' with
      | [] => 1%nat
      | y :: _ => if x =? y then O else S (literal_scan xs' k)
      end
  | _, _ => O
  end.

(** [pack[n++] = v].  A store at or past [sizeof (pack)] is outside the
    array: the C program has no defined behaviour there and the model
    stops with [None]. *)
Definition pack_put (v : Z) (pack : list Z) : option (list Z) :=
  if Z.of_nat (length pack) <? PACK_SIZE then Some (pack ++ [uchar v])
  else None.

(** [while (l < p) pack[n++] = buf[l++];] over the bytes [buf[l..p)]. *)
Fixpoint pack_copy (lits : list Z) (pack : list Z) : option (list Z) :=
  match lits with
  | [] => Some pack
  | b :: rest =>
      match pack_put b pack with
      | Some pack' => pack_copy rest pack'
      | None => None
      end
  end.

(** One turn of [while (l < r) { ... }]: the bytes left and the array. *)
Definition pack_step (xs : list Z) (pack : list Z)
  : option (list Z * list Z) :=
  match xs with
  | [] => Some ([], pack)
  | b :: _ =>
      let p := run_scan b xs 128 in
      if (2 <=? p)%nat then
        (* run length *)
        match pack_put (257 - Z.of_nat p) pack with
        | Some pack1 =>
            match pack_put b pack1 with
            | Some pack2 => Some (skipn p xs, pack2)
            | None => None
            end
        | None => None
        end
      else
        let p := literal_scan xs 127 in
        match pack_put (Z.of_nat p - 1) pack with
        | Some pack1 =>
            match pack_copy (firstn p xs) pack1 with
            | Some pack2 => Some (skipn p xs, pack2)
            | None => None
            end
        | None => None
        end
  end.

Lemma run_scan_head b rest limit :
  run_scan b (b :: rest) (S limit) = S (run_scan b rest limit).
Proof. simpl. rewrite Z.eqb_refl. reflexivity. Qed.

Lemma run_scan_le b xs limit :
  (run_scan b xs limit <= length xs)%nat /\ (run_scan b xs limit <= limit)%nat.
Proof.
  revert xs; induction limit as [|k IH]; intros [|x xs]; simpl; try lia.
  destruct (x =? b); [specialize (IH xs)|]; lia.
Qed.

Lemma literal_scan_le xs limit :
  (literal_scan xs limit <= length xs)%nat /\ (literal_scan xs limit <= limit)%nat.
Proof.
  revert xs; induction limit as [|k IH]; intros [|x xs]; simpl; try lia.
  destruct xs as [|y ys]; [simpl; lia|].
  destruct (x =? y); [simpl; lia|]. specialize (IH (y :: ys)). simpl in *. lia.
Qed.

(** When the first scan finds no run, the second one takes a byte. *)
Lemma literal_scan_pos b rest limit :
  (run_scan b (b :: rest) 128 < 2)%nat ->
  (1 <= literal_scan (b :: rest) (S limit))%nat.
Proof.
  intros H. change 128%nat with (S 127) in H. rewrite run_scan_head in H.
  destruct rest as [|y ys]; simpl; [lia|].
  simpl in H. destruct (y =? b) eqn:E; [lia|].
  rewrite Z.eqb_sym, E. lia.
Qed.

Lemma pack_step_decreases x xs pack rest pack' :
  pack_step (x :: xs) pack = Some (rest, pack') ->
  (length rest < length (x :: xs))%nat.
Proof.
  unfold pack_step.
  pose proof (run_scan_le x (x :: xs) 128) as Hrun.
  pose proof (literal_scan_le (x :: xs) 127) as Hlit.
  pose proof (literal_scan_pos x xs 126) as Hpos.
  remember (x :: xs) as ys eqn:Hys.
  assert (Hlen : (1 <= length ys)%nat) by (subst ys; simpl; lia).
  remember (run_scan x ys 128) as p eqn:Hp.
  remember (literal_scan ys 127) as q eqn:Hq.
  clear Hys Hp Hq.
  destruct (2 <=? p)%nat eqn:E.
  - apply Nat.leb_le in E.
    destruct (pack_put _ pack) as [p1|]; [|discriminate].
    destruct (pack_put x p1) as [p2|]; [|discriminate].
    intros [= <- _]. rewrite length_skipn. lia.
  - apply Nat.leb_gt in E. specialize (Hpos E).
    destruct (pack_put _ pack) as [p1|]; [|discriminate].
    destruct (pack_copy _ p1) as [p2|]; [|discriminate].
    intros [= <- _]. rewrite length_skipn. lia.
Qed.

(** [n = 0; while (l < r) { ... }]: the loop from a given array state. *)
Equations? pack_loop (xs : list Z) (pack : list Z) : option (list Z)
  by wf (length xs) lt :=
  pack_loop [] pack := Some pack;
  pack_loop (x :: xs) pack with Logic.inspect (pack_step (x :: xs) pack) := {
    | exist _ (Some (rest, pack')) _ := pack_loop rest pack';
    | exist _ None _ := None }.
Proof. eapply pack_step_decreases; eassumption. Qed.

(** The packed bytes [pack[0..n)] of an active range. *)
Definition pack_line (xs : list Z) : option (list Z) := pack_loop xs [].

(** Modelled from the spec: the decoder of the run-length scheme, which
    runs in the engraver and not in this program.  A control byte below
    128 announces that many plus one literal bytes, a control byte [c]
    above 128 announces [257 - c] copies of the next byte, and the filler
    byte 128 is skipped. *)
Inductive decoder : Type :=
| Control
| Literal (k : nat)
| Repeat (k : nat).

Fixpoint unpack_from (st : decoder) (s : list Z) : list Z :=
  match s with
  | [] => []
  | c :: s' =>
      match st with
      | Control =>
          if c <? 128 then unpack_from (Literal (Z.to_nat c)) s'
          else if c =? 128 then unpack_from Control s'
          else unpack_from (Repeat (Z.to_nat (257 - c))) s'
      | Literal O => c :: unpack_from Control s'
      | Literal (S k) => c :: unpack_from (Literal k) s'
      | Repeat k => repeat c k ++ unpack_from Control s'
      end
  end.

Definition unpack (s : list Z) : list Z := unpack_from Control s.

(** The bytes sent after the ["\e*b%dW"] command: [pack[0..n)] and then
    [0x80] until the count is a multiple of 8. *)
Definition FILLER : Z := 128.

Definition padding (n : nat) : nat := ((8 - n mod 8) mod 8)%nat.

Definition padded (pack : list Z) : list Z :=
  pack ++ repeat FILLER (padding (length pack)).

(** The two kinds of group of the scheme. *)
Inductive segment : Type :=
| Run (len : nat) (b : Z)
| Lit (bytes : list Z).

Definition seg_bytes (s : segment) : list Z :=
  match s with
  | Run len b => repeat b len
  | Lit bytes => bytes
  end.

Definition seg_code (s : segment) : list Z :=
  match s with
  | Run len b => [257 - Z.of_nat len; b]
  | Lit bytes => (Z.of_nat (length bytes) - 1) :: bytes
  end.

(** No two neighbours of the list are equal. *)
Fixpoint non_repeating (xs : list Z) : Prop :=
  match xs with
  | x :: (y :: _) as rest => x <> y /\ non_repeating rest
  | _ => True
  end.

Definition seg_ok (s : segment) : Prop :=
  match s with
  | Run len b => (2 <= len <= 128)%nat
  | Lit bytes => (1 <= length bytes <= 127)%nat /\ non_repeating bytes
  end.

Definition segs_bytes (segs : list segment) : list Z :=
  concat (map seg_bytes segs).

Definition segs_code (segs : list segment) : list Z :=
  concat (map seg_code segs).

(** The line on which the packing array is too small: 34133 times the
    bytes 1, 2, 2 and a last 1, which is 102400 bytes. *)
Definition overflow_line : list Z :=
  concat (repeat [1; 2; 2] (Z.to_nat 34133)) ++ [1].

End Pack.

(** ** The global variables *)

(** The file-scope variables of the program, one field each. *)
Record globals : Type := mkGlobals {
  focus : Z;
  flip : Z;
  height : Z;
  job_name : string;
  job_user : string;
  job_title : string;
  resolution : Z;
  raster_mode : ascii;
  raster_speed : Z;
  raster_power : Z;
  raster_repeat : Z;
  screen_size : Z;
  queue : string;
  vector_speed : Z;
  vector_power : Z;
  vector_freq : Z;
  width : Z;
  x_center : Z;
  x_repeat : Z;
  y_center : Z;
  y_repeat : Z
}.

Definition BED_HEIGHT : Z := 864.
Definition BED_WIDTH : Z := 1728.
Definition BITMAP_HEADER_NBYTES : Z := 54.
Definition HPGLX : Z := 0.
Definition HPGLY : Z := 0.
Definition POINTS_PER_INCH : Z := 72.
Definition PRINTER_MAX_WAIT : Z := 300.
Definition SECONDS_PER_MIN : Z := 60.

(** The initialisers of the variables; the three job strings are set by
    [main] before they are used. *)
Definition initial_globals (name user : string) : globals :=
  {| focus := 0;
     flip := 0;
     height := BED_HEIGHT;
     job_name := name;
     job_user := user;
     job_title := name;
     resolution := 600;
     raster_mode := "m"%char;
     raster_speed := 100;
     raster_power := 40;
     raster_repeat := 1;
     screen_size := 8;
     queue := EmptyString;
     vector_speed := 30;
     vector_power := 50;
     vector_freq := 5000;
     width := BED_WIDTH;
     x_center := 0;
     x_repeat := 1;
     y_center := 0;
     y_repeat := 1 |}.

(** [width = w; height = h;] *)
Definition set_size (w h : Z) (g : globals) : globals :=
  {| focus := focus g;
     flip := flip g;
     height := h;
     job_name := job_name g;
     job_user := job_user g;
     job_title := job_title g;
     resolution := resolution g;
     raster_mode := raster_mode g;
     raster_speed := raster_speed g;
     raster_power := raster_power g;
     raster_repeat := raster_repeat g;
     screen_size := screen_size g;
     queue := queue g;
     vector_speed := vector_speed g;
     vector_power := vector_power g;
     vector_freq := vector_freq g;
     width := w;
     x_center := x_center g;
     x_repeat := x_repeat g;
     y_center := y_center g;
     y_repeat := y_repeat g |}.

(** ** [range_checks] *)

(** [if (v > hi) v = hi; else if (v < lo) v = lo;] *)
Definition check_hi_lo (hi lo v : Z) : Z :=
  if v >? hi then hi else if v <? lo then lo else v.

(** [if (v < lo) v = lo; else if (v > hi) v = hi;] *)
Definition check_lo_hi (lo hi v : Z) : Z :=
  if v <? lo then lo else if v >? hi then hi else v.

(** [if (v < lo) v = lo;] *)
Definition check_lo (lo v : Z) : Z := if v <? lo then lo else v.

Definition range_checks (g : globals) : globals :=
  {| focus := focus g;
     flip := flip g;
     height := height g;
     job_name := job_name g;
     job_user := job_user g;
     job_title := job_title g;
     resolution := check_hi_lo 1200 75 (resolution g);
     raster_mode := raster_mode g;
     raster_speed := check_hi_lo 100 1 (raster_speed g);
     raster_power := check_hi_lo 100 0 (raster_power g);
     raster_repeat := raster_repeat g;
     screen_size := check_lo 1 (screen_size g);
     queue := queue g;
     vector_speed := check_hi_lo 100 1 (vector_speed g);
     vector_power := check_hi_lo 100 0 (vector_power g);
     vector_freq := check_lo_hi 10 5000 (vector_freq g);
     width := width g;
     x_center := x_center g;
     x_repeat := x_repeat g;
     y_center := y_center g;
     y_repeat := y_repeat g |}.

(** ** Files and control flow *)

(** A stream opened for reading: its bytes and the read position. *)
Record FILE : Type := mkFILE {
  contents : list Z;
  position : nat
}.

Definition fopen (bytes : list Z) : FILE :=
  {| contents := bytes; position := O |}.

(** [fread (buf, 1, n, f)]: the bytes obtained, at most [n], and the
    stream after them. *)
Definition fread (n : Z) (f : FILE) : list Z * FILE :=
  let got := firstn (Z.to_nat n) (skipn (position f) (contents f)) in
  (got, {| contents := contents f; position := position f + length got |}).

(** [fseek (f, offset, SEEK_SET)]; a negative offset is refused and the
    position stays. *)
Definition fseek (offset : Z) (f : FILE) : FILE :=
  if offset <? 0 then f
  else {| contents := contents f; position := Z.to_nat offset |}.

(** What the functions read and write: the global variables, the PJL
    file written so far, the lines sent to [stderr], and the bitmap. *)
Record world : Type := mkWorld {
  vars : globals;
  pjl_file : string;
  stderr : list string;
  bitmap_file : FILE
}.

(** How a function body stops before its end: a [return], a loop whose
    test can never fail, or an access outside an array. *)
Inductive stop : Type :=
| Returned (b : bool)
| Loops
| Undefined.

Inductive flow (A : Type) : Type :=
| Next (a : A)
| Stop (s : stop).
Arguments Next {A} a.
Arguments Stop {A} s.

(** Statements: a state transformer that goes on with a value or stops. *)
Definition stmt (A : Type) : Type := world -> flow A * world.

Definition ret {A} (a : A) : stmt A := fun w => (Next a, w).

Definition bind {A B} (m : stmt A) (k : A -> stmt B) : stmt B :=
  fun w =>
    match m w with
    | (Next a, w') => k a w'
    | (Stop s, w') => (Stop s, w')
    end.

Declare Scope stmt_scope.
Delimit Scope stmt_scope with stmt.
Notation "x <- m ;; k" := (bind m (fun x => k))
  (at level 61, m at next level, right associativity) : stmt_scope.
Notation "m ;; k" := (bind m (fun _ => k))
  (at level 61, right associativity) : stmt_scope.

(** [return b;] *)
Definition return_ {A} (b : bool) : stmt A := fun w => (Stop (Returned b), w).

Definition halt {A} (s : stop) : stmt A := fun w => (Stop s, w).

(** [fprintf (pjl_file, ...)] with the text already formatted. *)
Definition emit (s : string) : stmt unit :=
  fun w =>
    (Next tt,
     {| vars := vars w;
        pjl_file := (pjl_file w ++ s)%string;
        stderr := stderr w;
        bitmap_file := bitmap_file w |}).

(** [fprintf (stderr, ...)] and [perror]. *)
Definition complain (s : string) : stmt unit :=
  fun w =>
    (Next tt,
     {| vars := vars w;
        pjl_file := pjl_file w;
        stderr := stderr w ++ [s];
        bitmap_file := bitmap_file w |}).

Definition get_vars : stmt globals := fun w => (Next (vars w), w).

Definition put_vars (g : globals) : stmt unit :=
  fun w =>
    (Next tt,
     {| vars := g;
        pjl_file := pjl_file w;
        stderr := stderr w;
        bitmap_file := bitmap_file w |}).

(** [fread] and [fseek] on the bitmap. *)
Definition read_bitmap (n : Z) : stmt (list Z) :=
  fun w =>
    let (got, f) := fread n (bitmap_file w) in
    (Next got,
     {| vars := vars w;
        pjl_file := pjl_file w;
        stderr := stderr w;
        bitmap_file := f |}).

Definition seek_bitmap (offset : Z) : stmt unit :=
  fun w =>
    (Next tt,
     {| vars := vars w;
        pjl_file := pjl_file w;
        stderr := stderr w;
        bitmap_file := fseek offset (bitmap_file w) |}).

(** A loop body run for each element of a list, in order. *)
Fixpoint for_each {A} (xs : list A) (body : A -> stmt unit) : stmt unit :=
  match xs with
  | [] => ret tt
  | x :: xs' => bind (body x) (fun _ => for_each xs' body)
  end.

(** The values of [off] in
    [for (off = dim * (rep - 1); off >= 0; off -= dim)]
    when the loop can leave through its test: none when it starts below
    zero, else the multiples of [dim] from the start down to 0. *)
Definition countdown (dim rep : Z) : list Z :=
  let start := dim * (rep - 1) in
  if start <? 0 then []
  else map (fun k => start - dim * Z.of_nat k)
           (seq 0 (S (Z.to_nat (Z.quot start dim)))).

(** [for (off = dim * (rep - 1); off >= 0; off -= dim) body].  With
    [dim = 0] and a start at or above zero the test never fails.  With
    [dim < 0] and such a start [off] grows until the [int] leaves its
    range, which C leaves undefined; the model does not follow the
    program there either and gives it the same mark.  In both cases the
    model runs the body once and, if the body goes on, stops. *)
Definition for_tiles (dim rep : Z) (body : Z -> stmt unit) : stmt unit :=
  let start := dim * (rep - 1) in
  if (0 <=? start) && (dim <=? 0) then bind (body start) (fun _ => halt Loops)
  else for_each (countdown dim rep) body.

(** The same loops with a local variable of the function carried from
    turn to turn. *)
Fixpoint fold_each {A S} (xs : list A) (body : A -> S -> stmt S) (s : S)
  : stmt S :=
  match xs with
  | [] => ret s
  | x :: xs' => bind (body x s) (fun s' => fold_each xs' body s')
  end.

Definition fold_tiles {S} (dim rep : Z) (body : Z -> S -> stmt S) (s : S)
  : stmt S :=
  let start := dim * (rep - 1) in
  if (0 <=? start) && (dim <=? 0) then bind (body start s) (fun _ => halt Loops)
  else fold_each (countdown dim rep) body s.

(** ** [generate_raster]

    The lines the function prints on [stderr] when [debug] is set are
    left out; [debug] is 0 unless the program is run with [-D]. *)
Module Raster.

(** The value of a C [int] after an operation that left its range. *)
Definition int32 (z : Z) : Z := (z + 2 ^ 31) mod 2 ^ 32 - 2 ^ 31.

(** [for (i = 0; i < nbytes; i++) result += *(position + i) << (8 * i);] *)
Fixpoint big_to_little_endian_from (i : Z) (position : list Z) (result : Z)
  : Z :=
  match position with
  | [] => result
  | b :: rest =>
      big_to_little_endian_from (i + 1) rest
        (int32 (result + int32 (Z.shiftl b (8 * i))))
  end.

Definition big_to_little_endian (position : list Z) (nbytes : nat) : Z :=
  big_to_little_endian_from 0 (firstn nbytes position) 0.

(** [fread (bitmap_header, 1, n, f)]: the bytes read replace the front of
    the array, the rest of the array stays. *)
Definition overlay (got old : list Z) : list Z :=
  got ++ skipn (length got) old.

Definition is_mode (c : ascii) (g : globals) : bool :=
  Ascii.eqb (raster_mode g) c.

(** [raster_mode == 'c' || raster_mode == 'g'] *)
Definition power_levels (g : globals) : bool :=
  is_mode "c" g || is_mode "g" g.

(** [d > sizeof (buf)], an [int] against a [size_t]: a negative [d] is
    converted to a large unsigned number. *)
Definition too_wide (d : Z) : bool := (d <? 0) || (d >? BUF_SIZE).

(** One turn of [for (c = 0; c < 3; c++)] on the channel value [f]:
    the new [n], [v] and [p]. *)
Definition channel (c f : Z) (st : Z * Z * Z) : Z * Z * Z :=
  let '(n, v, p) := st in
  if f >? 240 then (n, v, Z.lor p (Z.shiftl 1 c))
  else (n + 1, v + f, p).

(** The byte [*t++ = 255 - v] of one pixel in the given pass. *)
Definition colour_pixel (pass f0 f1 f2 : Z) : Z :=
  let '(n, v, p) := channel 2 f2 (channel 1 f1 (channel 0 f0 (0, 0, 0))) in
  let '(v, p) := if n =? 0 then (255, 0) else (Z.quot v n, p) in
  let v := if p =? pass then v else 255 in
  uchar (255 - v).

(** [while (l--) { ... }] over the bytes at [f], three per turn. *)
Fixpoint colour_line (pass : Z) (f : list Z) (turns : nat) : list Z :=
  match turns, f with
  | S k, f0 :: f1 :: f2 :: f' =>
      colour_pixel pass f0 f1 f2 :: colour_line pass f' k
  | _, _ => []
  end.

(** [buf[l] = (255 - (uint8_t)buf[l])] *)
Definition grey_level (v : Z) : Z := uchar (255 - v).

(** [buf[l] = (uint8_t)buf[l] * raster_power / 255] *)
Definition power_scale (g : globals) (v : Z) : Z :=
  uchar (Z.quot (v * raster_power g) 255).

(** [for (l = 0; l < h && !buf[l]; l++);] *)
Fixpoint leading_zeros (xs : list Z) : nat :=
  match xs with
  | x :: xs' => if x =? 0 then S (leading_zeros xs') else O
  | [] => O
  end.

(** The bytes [buf[l..r)] between the first and the last byte that is not
    zero; [l] is [leading_zeros line] and [r] comes from
    [for (r = h - 1; r > l && !buf[r]; r--); r++;]. *)
Definition right_edge (line : list Z) : nat :=
  (length line - leading_zeros (rev line))%nat.

Definition active_range (line : list Z) : list Z :=
  let l := leading_zeros line in
  firstn (right_edge line - l) (skipn l line).

Definition bad_data (l d y : Z) : string :=
  ("Bad bit data from gs " ++ fmt_d l ++ "/" ++ fmt_d d ++ " (y=" ++ fmt_d y
   ++ ")" ++ LF)%string.

Local Open Scope stmt_scope.

(** The [switch (raster_mode)] of one scan line: the row is read and
    turned into the [h] bytes [buf[0..h)].  The text [perror] adds for
    [errno] is left out. *)
Definition read_line (g : globals) (h d pass y : Z) : stmt (list Z) :=
  if is_mode "c" g then
    if too_wide d then complain "Too wide" ;; return_ false
    else
      row <- read_bitmap d ;;
      let l := Z.of_nat (length row) in
      if negb (l =? d) then complain (bad_data l d y) ;; return_ false
      else if (0 <? d) && (BUF_SIZE <? 3 * d) then
        (* the [d] turns of the loop read [3 * d] bytes of [buf] *)
        halt Undefined
      else ret (firstn (Z.to_nat h) (colour_line pass row (Z.to_nat d)))
  else
    let d := Z.quot (h + 3) 4 * 4 in
    if too_wide d then
      complain (if is_mode "g" g then "Too wide" ++ LF else "Too wide")%string ;;
      return_ false
    else
      row <- read_bitmap d ;;
      let l := Z.of_nat (length row) in
      if negb (l =? d) then complain (bad_data l d y) ;; return_ false
      else if is_mode "g" g then ret (map grey_level (firstn (Z.to_nat h) row))
      else ret (firstn (Z.to_nat h) row).

(** The commands and the packed bytes of a line that has something to
    print; [dir] is the direction before the line. *)
Definition print_line (g : globals) (basex basey offx offy y : Z)
  (dir : bool) (line : list Z) : stmt unit :=
  let l := Z.of_nat (leading_zeros line) in
  let r := Z.of_nat (right_edge line) in
  emit (ESC ++ "*p" ++ fmt_d (basey + offy + y) ++ "Y") ;;
  emit (ESC ++ "*p"
        ++ fmt_d (basex + offx + (if power_levels g then l else l * 8))
        ++ "X") ;;
  emit (ESC ++ "*b" ++ fmt_d (if dir then - (r - l) else r - l) ++ "A") ;;
  let range := if dir then rev (active_range line) else active_range line in
  match Pack.pack_line range with
  | None => halt Undefined
  | Some pack =>
      let n := Z.of_nat (length pack) in
      emit (ESC ++ "*b" ++ fmt_d (Z.quot (n + 7) 8 * 8) ++ "W") ;;
      emit (string_of_bytes (Pack.padded pack))
  end.

(** The body of [for (y = height - 1; y >= 0; y--)]; the value is [dir]
    after the line. *)
Definition scan_line (g : globals) (h d basex basey offx offy pass : Z)
  (y : Z) (dir : bool) : stmt bool :=
  line <- read_line g h d pass y ;;
  let line := if power_levels g then map (power_scale g) line else line in
  if (leading_zeros line <? length line)%nat then
    print_line g basex basey offx offy y dir line ;; ret (negb dir)
  else ret dir.

(** [height - 1], ..., [0]. *)
Definition rows (height : Z) : list Z :=
  map Z.of_nat (rev (seq 0 (Z.to_nat height))).

(** [0], ..., [passes - 1]. *)
Definition pass_numbers (g : globals) : list Z :=
  map Z.of_nat (seq 0 (if is_mode "c" g then 7 else 1)).

(** The head of one turn of [while (repeat--)]: the header is read and
    [width], [height] and [base_offset] are taken from it.  The value is
    the header array and [base_offset]. *)
Definition load_header (bitmap_header : list Z) : stmt (list Z * Z) :=
  got <- read_bitmap BITMAP_HEADER_NBYTES ;;
  let bitmap_header := overlay got bitmap_header in
  g0 <- get_vars ;;
  put_vars (set_size (big_to_little_endian (skipn 18 bitmap_header) 4)
              (big_to_little_endian (skipn 22 bitmap_header) 4) g0) ;;
  ret (bitmap_header, big_to_little_endian (skipn 10 bitmap_header) 4).

(** The commands in front of the lines of a raster block. *)
Definition raster_intro (g : globals) : string :=
  (ESC ++ "*r0F"
   ++ ESC ++ "&y" ++ fmt_d (if power_levels g then 100 else raster_power g)
   ++ "P"
   ++ ESC ++ "&z" ++ fmt_d (raster_speed g) ++ "S"
   ++ ESC ++ "*r" ++ fmt_d (height g * y_repeat g) ++ "T"
   ++ ESC ++ "*r" ++ fmt_d (width g * x_repeat g) ++ "S"
   ++ ESC ++ "*b" ++ fmt_d (if power_levels g then 7 else 2) ++ "M"
   ++ ESC ++ "&y1O"
   ++ ESC ++ "*r1A")%string.

(** The end of a raster block: ["\e*rC"] and the bytes 26 and 4. *)
Definition raster_end : string := (ESC ++ "*rC" ++ string_of_bytes [26; 4])%string.

(** The rest of the turn: the raster block for the size just read. *)
Definition raster_body (basex basey base_offset : Z) : stmt unit :=
  g <- get_vars ;;
  let h := if power_levels g then width g else Z.quot (width g + 7) 8 in
  let d := if power_levels g then Z.quot (h * 3 + 3) 4 * 4
           else Z.quot (h + 3) 4 * 4 in
  emit (raster_intro g) ;;
  for_tiles (width g) (x_repeat g) (fun offx =>
    for_tiles (height g) (y_repeat g) (fun offy =>
      for_each (pass_numbers g) (fun pass =>
        seek_bitmap base_offset ;;
        fold_each (rows (height g))
          (scan_line g h d basex basey offx offy pass) false ;;
        ret tt))) ;;
  emit raster_end.

(** One turn of [while (repeat--)]; the value is the header array. *)
Definition raster_block (basex basey : Z) (bitmap_header : list Z)
  : stmt (list Z) :=
  loaded <- load_header bitmap_header ;;
  raster_body basex basey (snd loaded) ;;
  ret (fst loaded).

(** [while (repeat--)]. *)
Fixpoint raster_blocks (repeat : nat) (basex basey : Z)
  (bitmap_header : list Z) : stmt unit :=
  match repeat with
  | O => ret tt
  | S k =>
      bitmap_header' <- raster_block basex basey bitmap_header ;;
      raster_blocks k basex basey bitmap_header'
  end.

(** [basex] and [basey] at the head of [generate_raster] and of
    [generate_vector]. *)
Definition base (center size res : Z) : Z :=
  let b := if center =? 0 then 0 else center - Z.quot size 2 in
  let b := if b <? 0 then 0 else b in
  Z.quot (b * res) POINTS_PER_INCH.

(** [generate_raster (pjl_file, bitmap_file)]; [bitmap_header] is the
    content of the local array before the first [fread], which the
    program does not set.  A negative [raster_repeat] counts down without
    reaching zero: the model follows one block. *)
Definition generate_raster (bitmap_header : list Z) : stmt bool :=
  g <- get_vars ;;
  let basex := base (x_center g) (width g) (resolution g) in
  let basey := base (y_center g) (height g) (resolution g) in
  (if raster_repeat g <? 0 then
     raster_block basex basey bitmap_header ;; halt Loops
   else raster_blocks (Z.to_nat (raster_repeat g)) basex basey bitmap_header) ;;
  ret true.

End Raster.

(** ** [generate_vector] *)
Module Vector.

Definition code (c : ascii) : Z := Z.of_N (N_of_ascii c).

(** The C locale's [isalpha], [isdigit] and [isspace]. *)
Definition isalpha (c : ascii) : bool :=
  ((65 <=? code c) && (code c <=? 90)) || ((97 <=? code c) && (code c <=? 122)).

Definition isdigit (c : ascii) : bool := (48 <=? code c) && (code c <=? 57).

Definition isspace (c : ascii) : bool :=
  (code c =? 32) || ((9 <=? code c) && (code c <=? 13)).

Fixpoint skip_space (s : string) : string :=
  match s with
  | String c s' => if isspace c then skip_space s' else s
  | EmptyString => s
  end.

Fixpoint scan_digits (s : string) (acc : Z) : Z * string :=
  match s with
  | String c s' =>
      if isdigit c then scan_digits s' (10 * acc + (code c - 48)) else (acc, s)
  | EmptyString => (acc, s)
  end.

(** The conversion [%d] of [sscanf]: blanks, a sign, digits.  The value
    and the text after it, or [None] when there is no number.  Numbers
    are taken to fit an [int]: the value of a longer number, which the C
    library is free to choose, is not modelled. *)
Definition scan_int (s : string) : option (Z * string) :=
  let s := skip_space s in
  let '(negative, s) :=
    match s with
    | String "-" s' => (true, s')
    | String "+" s' => (false, s')
    | _ => (false, s)
    end in
  match s with
  | String c _ =>
      if isdigit c then
        let '(v, rest) := scan_digits s 0 in
        Some (if negative then - v else v, rest)
      else None
  | EmptyString => None
  end.

(** [sscanf (s, "%d,%d", &y, &x)]: the number of values stored, and [y]
    and [x] after the call. *)
Definition sscanf_d_d (s : string) (y x : Z) : nat * Z * Z :=
  match scan_int s with
  | None => (0%nat, y, x)
  | Some (a, rest) =>
      match rest with
      | String "," rest' =>
          match scan_int rest' with
          | Some (b, _) => (2%nat, a, b)
          | None => (1%nat, a, x)
          end
      | _ => (1%nat, a, x)
      end
  end.

(** [sscanf (s, "%d", &x)]. *)
Definition sscanf_d (s : string) (x : Z) : nat * Z :=
  match scan_int s with
  | None => (0%nat, x)
  | Some (a, _) => (1%nat, a)
  end.

(** The local variables of [generate_vector] that live across lines. *)
Record pen : Type := mkPen {
  up : bool;
  newline : bool;
  started : bool;
  sx : Z;
  sy : Z;
  lx : Z;
  ly : Z;
  power : Z
}.

Definition initial_pen : pen :=
  {| up := true; newline := true; started := false;
     sx := 0; sy := 0; lx := 0; ly := 0; power := 100 |}.

(** The three values the [P] command sends when the speed is below 100:
    [epower], [espeed] and [efreq] after the [if (epower && x < 100)]
    block.  [None] is a division by zero. *)
Definition compensate (g : globals) (x epower : Z) : option (Z * Z * Z) :=
  let espeed := vector_speed g in
  let efreq := vector_freq g in
  if negb (epower =? 0) && (x <? 100) then
    if (x =? 0) || (espeed =? 0) || (efreq =? 0) then None
    else
      let r := Z.quot 10000 x in
      let q := Z.quot 10000 espeed in
      let r := if q <? r then q else r in
      let q := Z.quot 500000 efreq in
      let r := if q <? r then q else r in
      let epower := Z.quot (50 + epower * r) 100 in
      let espeed := Z.quot (50 + espeed * r) 100 in
      let efreq := Z.quot (50 + espeed * r) 100 in
      Some (epower, espeed, efreq)
  else Some (epower, espeed, efreq).

Local Open Scope stmt_scope.

(** [case 'M'] *)
Definition move (buf : string) (x0 y0 : Z) (p : pen) : stmt pen :=
  let '(count, y, x) := sscanf_d_d buf y0 x0 in
  if (count =? 2)%nat then
    ret {| up := up p; newline := true; started := started p;
           sx := x; sy := y; lx := lx p; ly := ly p; power := power p |}
  else ret p.

(** [case 'C'] *)
Definition close (bx by_ : Z) (p : pen) : stmt pen :=
  (if negb (newline p) && negb (up p)
      && (negb (lx p =? sx p) || negb (ly p =? sy p))
   then emit ("," ++ fmt_d (bx + sx p + HPGLX) ++ "," ++ fmt_d (by_ + sy p + HPGLY))
   else ret tt) ;;
  ret p.

(** [case 'P'] *)
Definition set_power (g : globals) (buf : string) (x0 : Z) (p : pen)
  : stmt pen :=
  let '(count, x) := sscanf_d buf x0 in
  if (count =? 1)%nat && negb (x =? power p) then
    (if negb (up p) then emit ";PU" else ret tt) ;;
    let epower := Z.quot (x * vector_power g + 50) 100 in
    epower <-
      (if negb (vector_speed g =? 0) && (vector_speed g <? 100) then
         match compensate g x epower with
         | None => halt Undefined
         | Some (epower, espeed, efreq) =>
             emit (";ZS" ++ fmt_0d 3 espeed ++ ";XR" ++ fmt_0d 4 efreq ++ ";") ;;
             ret epower
         end
       else ret epower) ;;
    emit (";YP" ++ fmt_0d 3 epower ++ ";") ;;
    ret {| up := true; newline := newline p; started := true;
           sx := sx p; sy := sy p; lx := lx p; ly := ly p; power := x |}
  else ret p.

(** [case 'L'] *)
Definition line (buf : string) (bx by_ x0 y0 : Z) (p : pen) : stmt pen :=
  (if newline p then
     (if negb (up p) then emit ";" else ret tt) ;;
     emit ("PU" ++ fmt_d (bx + sx p + HPGLX) ++ "," ++ fmt_d (by_ + sy p + HPGLY))
   else ret tt) ;;
  let up1 := if newline p then true else up p in
  emit (if up1 then ";PD" else ",") ;;
  let '(count, y, x) := sscanf_d_d buf y0 x0 in
  (if (count =? 2)%nat
   then emit (fmt_d (bx + x + HPGLX) ++ "," ++ fmt_d (by_ + y + HPGLY))
   else ret tt) ;;
  ret {| up := false; newline := false; started := true;
         sx := sx p; sy := sy p; lx := x; ly := y; power := power p |}.

(** The body of [if (isalpha (buf[0]))] for one line, without the final
    test for ['X']; [passstart] comes with the pen. *)
Definition command (g : globals) (bx by_ x0 y0 : Z) (tag : ascii)
  (args : string) (st : pen * bool) : stmt (pen * bool) :=
  let '(p, passstart) := st in
  (if passstart then ret tt
   else
     emit "IN;" ;;
     emit ("XR" ++ fmt_0d 4 (vector_freq g) ++ ";") ;;
     emit ("YP" ++ fmt_0d 3 (vector_power g) ++ ";") ;;
     emit ("ZS" ++ fmt_0d 3 (vector_speed g) ++ ";")) ;;
  p' <- (if Ascii.eqb tag "M" then move args x0 y0 p
         else if Ascii.eqb tag "C" then close bx by_ p
         else if Ascii.eqb tag "P" then set_power g args x0 p
         else if Ascii.eqb tag "L" then line args bx by_ x0 y0 p
         else ret p) ;;
  ret (p', true).

(** [while (fgets (buf, sizeof (buf), vector_file))] over the lines of
    the file, left by [break] at a line that starts with ['X'].  Lines are
    taken to be shorter than the buffer. *)
Fixpoint commands (g : globals) (bx by_ x0 y0 : Z) (lines : list string)
  (st : pen * bool) : stmt (pen * bool) :=
  match lines with
  | [] => ret st
  | buf :: rest =>
      match buf with
      | String tag args =>
          if isalpha tag then
            st' <- command g bx by_ x0 y0 tag args st ;;
            if Ascii.eqb tag "X" then ret st'
            else commands g bx by_ x0 y0 rest st'
          else commands g bx by_ x0 y0 rest st
      | EmptyString => commands g bx by_ x0 y0 rest st
      end
  end.

(** [generate_vector (pjl_file, vector_file)]; [x0] and [y0] are what the
    locals [x] and [y] hold before [sscanf] stores into them, which the
    program does not set.  They stand for one indeterminate value for the
    whole run; a compiled program may find there what an earlier line
    left, which the model does not follow. *)
Definition generate_vector (x0 y0 : Z) (vector_file : list string)
  : stmt bool :=
  g <- get_vars ;;
  let basex := Raster.base (x_center g) (width g) (resolution g) in
  let basey := Raster.base (y_center g) (height g) (resolution g) in
  p <- fold_tiles (height g) (y_repeat g) (fun offy p =>
         fold_tiles (width g) (x_repeat g) (fun offx p =>
           st <- commands g (basex + offx) (basey + offy) x0 y0 vector_file
                   (p, false) ;;
           ret (fst st)) p) initial_pen ;;
  (if started p then
     (if negb (up p) then emit ";" else ret tt) ;;
     emit (ESC ++ "%0B")
   else ret tt) ;;
  emit (ESC ++ "%1BPU") ;;
  ret true.

End Vector.

(** ** [generate_pjl] *)
Module Pjl.

Local Open Scope stmt_scope.

(** A call of a function of the program: the [return] of the callee
    gives the value of the call. *)
Definition call (body : stmt bool) : stmt bool :=
  fun w =>
    match body w with
    | (Next b, w') => (Next b, w')
    | (Stop (Returned b), w') => (Next b, w')
    | (Stop s, w') => (Stop s, w')
    end.

(** The job name and the entry to PCL. *)
Definition header (g : globals) : string :=
  (ESC ++ "%-12345X@PJL JOB NAME=" ++ job_title g ++ CRLF
   ++ ESC ++ "E@PJL ENTER LANGUAGE=PCL" ++ CRLF)%string.

(** Autofocus, the two offset registrations, the resolution, the origin
    and the PCL resolution. *)
Definition page_setup (g : globals) : string :=
  (ESC ++ "&y" ++ fmt_d (focus g) ++ "A"
   ++ ESC ++ "&l0U"
   ++ ESC ++ "&l0Z"
   ++ ESC ++ "&u" ++ fmt_d (resolution g) ++ "D"
   ++ ESC ++ "*p0X"
   ++ ESC ++ "*p0Y"
   ++ ESC ++ "*t" ++ fmt_d (resolution g) ++ "R")%string.

(** What comes in front of the raster block. *)
Definition raster_intro : string := (ESC ++ "&y0C")%string.

(** The page reset in front of the vector block. *)
Definition vector_intro (g : globals) : string :=
  (ESC ++ "E@PJL ENTER LANGUAGE=PCL" ++ CRLF
   ++ ESC ++ "*r0F"
   ++ ESC ++ "*r" ++ fmt_d (height g * y_repeat g) ++ "T"
   ++ ESC ++ "*r" ++ fmt_d (width g * x_repeat g) ++ "S"
   ++ ESC ++ "*r1A"
   ++ ESC ++ "*rC"
   ++ ESC ++ "%1B")%string.

(** Reset, exit language, end of job. *)
Definition footer : string :=
  (ESC ++ "E" ++ ESC ++ "%-12345X" ++ "@PJL EOJ " ++ CRLF)%string.

(** [for (i = 0; i < 4096; i++) fputc (0, pjl_file);] *)
Definition trailer : string := string_of_bytes (repeat 0 4096).

(** [raster_power && raster_mode != 'n'] *)
Definition raster_wanted (g : globals) : bool :=
  negb (raster_power g =? 0) && negb (Raster.is_mode "n" g).

(** [vector_power] as a condition. *)
Definition vector_wanted (g : globals) : bool := negb (vector_power g =? 0).

(** [generate_pjl (bitmap_file, pjl_file, vector_file)].  The values of
    the two calls are dropped, as in the source. *)
Definition generate_pjl (bitmap_header : list Z) (x0 y0 : Z)
  (vector_file : list string) : stmt bool :=
  g <- get_vars ;;
  emit (header g) ;;
  emit (page_setup g) ;;
  (if raster_wanted g then
     emit raster_intro ;;
     _ <- call (Raster.generate_raster bitmap_header) ;;
     ret tt
   else ret tt) ;;
  g <- get_vars ;;
  (if vector_wanted g then
     emit (vector_intro g) ;;
     _ <- call (Vector.generate_vector x0 y0 vector_file) ;;
     ret tt
   else ret tt) ;;
  emit footer ;;
  emit trailer ;;
  ret true.

End Pjl.

(** ** [printer_connect] and [printer_send] *)
Module Printer.

(** One address [getaddrinfo] returned: how it prints, what [socket]
    returns for it and whether [connect] succeeds. *)
Record candidate : Type := mkCandidate {
  shown : string;
  socket_result : Z;
  connect_ok : bool
}.

(** What one round of the loop meets: an error of [getaddrinfo], or the
    list of addresses. *)
Definition resolution_result : Type := option (list candidate).

(** The connection and the terminal: the writes that reached the printer,
    the bytes the printer will answer, the lines on [stderr], and the
    seconds slept. *)
Record link : Type := mkLink {
  sent : list string;
  answers : list Z;
  errors : list string;
  slept : Z
}.

Definition log (s : string) (k : link) : link :=
  {| sent := sent k; answers := answers k;
     errors := errors k ++ [s]; slept := slept k |}.

(** [sleep (1)] *)
Definition sleep1 (k : link) : link :=
  {| sent := sent k; answers := answers k;
     errors := errors k; slept := slept k + 1 |}.

(** [write (fd, s, n)]: nothing leaves on a descriptor that is not open. *)
Definition write (fd : Z) (s : string) (k : link) : link :=
  if fd <? 0 then k
  else {| sent := sent k ++ [s]; answers := answers k;
          errors := errors k; slept := slept k |}.

(** [read (fd, &lpdres, 1)]: the value of [lpdres] after the call; it
    keeps its value when no byte comes. *)
Definition read (fd : Z) (lpdres : Z) (k : link) : Z * link :=
  if fd <? 0 then (lpdres, k)
  else
    match answers k with
    | [] => (lpdres, k)
    | b :: rest =>
        (uchar b, {| sent := sent k; answers := rest;
                     errors := errors k; slept := slept k |})
    end.

(** [for (addr = res; addr; addr = addr->ai_next)]: the descriptor after
    the loop, from the descriptor before it. *)
Fixpoint try_addresses (cs : list candidate) (socket_descriptor : Z)
  (k : link) : Z * link :=
  match cs with
  | [] => (socket_descriptor, k)
  | c :: rest =>
      let k := log ("trying to connect to " ++ shown c ++ LF) k in
      if 0 <=? socket_result c then
        if connect_ok c then (socket_result c, k)
        else try_addresses rest (-1) k
      else try_addresses rest (socket_result c) k
  end.

(** [for (i = 0; i < timeout; i++)] from turn [i] with [rounds] turns
    left; the result is the value [printer_connect] returns.  The alarm
    of the program is left out. *)
Fixpoint connect_rounds (host : string) (net : nat -> resolution_result)
  (rounds i : nat) (socket_descriptor : Z) (k : link) : Z * link :=
  match rounds with
  | O => (-1, log ("Cannot connect to " ++ host ++ LF) k)
  | S rounds' =>
      let '(socket_descriptor, k) :=
        match net i with
        | None => (socket_descriptor, k)
        | Some cs => try_addresses cs socket_descriptor k
        end in
      if 0 <=? socket_descriptor then (socket_descriptor, k)
      else connect_rounds host net rounds' (S i) socket_descriptor (sleep1 k)
  end.

Definition printer_connect (host : string) (timeout : Z)
  (net : nat -> resolution_result) (k : link) : Z * link :=
  connect_rounds host net (Z.to_nat timeout) 0 (-1) k.

(** [char *d = strchr (localhost, '.'); if (d) *d = 0;] *)
Fixpoint short_name (s : string) : string :=
  match s with
  | EmptyString => EmptyString
  | String c s' => if Ascii.eqb c "." then EmptyString else String c (short_name s')
  end.

Definition bad_response (host : string) (lpdres : Z) : string :=
  ("Bad response from " ++ host ++ ", " ++ fmt_d lpdres ++ LF)%string.

(** [fread (buf, 1, sizeof (buf), pjl_file)] until the end: the file in
    pieces of at most [sizeof (buf)] characters. *)
Fixpoint pieces (fuel : nat) (s : string) : list string :=
  match fuel with
  | O => []
  | S fuel' =>
      match s with
      | EmptyString => []
      | _ =>
          let n := Z.to_nat BUF_SIZE in
          substring 0 n s
            :: pieces fuel' (substring n (String.length s - n) s)
      end
  end.

(** [printer_disconnect]: [close], with the complaint about a descriptor
    that is not open; the text [perror] adds for [errno] is left out. *)
Definition printer_disconnect (socket_descriptor : Z) (k : link)
  : bool * link :=
  if socket_descriptor <? 0
  then (false, log "Socket descriptor given was not valid." k)
  else (true, k).

Fixpoint write_all (fd : Z) (ps : list string) (k : link) : link :=
  match ps with
  | [] => k
  | p :: ps' => write_all fd ps' (write fd p k)
  end.

(** [printer_send (host, pjl_file)].  [lpdres] is what the local variable
    holds before the first [read], which the program does not set;
    [hostname] is what [gethostname] gives.  Of the [sprintf] calls that
    build the control file, each but the first writes at
    [buf + strlen (buf) + 1]: the last of them, the announcement, is the
    one that stays there, and [buf] itself holds the [H] line. *)
Definition printer_send (g : globals) (host hostname : string) (lpdres : Z)
  (net : nat -> resolution_result) (pjl : string) (k : link) : bool * link :=
  let localhost := short_name hostname in
  let '(socket_descriptor, k) := printer_connect host PRINTER_MAX_WAIT net k in
  let k := write socket_descriptor (STX ++ queue g ++ LF) k in
  let '(lpdres, k) := read socket_descriptor lpdres k in
  if negb (lpdres =? 0) then (false, log (bad_response host lpdres) k)
  else
    let control := ("H" ++ localhost ++ LF)%string in
    let announce :=
      (STX ++ fmt_d (Z.of_nat (String.length control)) ++ " cfA"
       ++ job_name g ++ localhost ++ LF)%string in
    let k := write socket_descriptor announce k in
    let '(lpdres, k) := read socket_descriptor lpdres k in
    if negb (lpdres =? 0) then (false, log (bad_response host lpdres) k)
    else
      let k := write socket_descriptor (control ++ String "000" EmptyString) k in
      let '(lpdres, k) := read socket_descriptor lpdres k in
      if negb (lpdres =? 0) then (false, log (bad_response host lpdres) k)
      else
        let size := fmt_d (Z.of_nat (String.length pjl)) in
        let k := log ("job '" ++ job_name g ++ "': size " ++ size ++ LF) k in
        let k := write socket_descriptor
                   (ETX ++ size ++ " dfA" ++ job_name g ++ localhost ++ LF) k in
        let '(lpdres, k) := read socket_descriptor lpdres k in
        if negb (lpdres =? 0) then (false, log (bad_response host lpdres) k)
        else
          let k := write_all socket_descriptor
                     (pieces (S (String.length pjl)) pjl) k in
          (* dont wait for a response... *)
          (true, snd (printer_disconnect socket_descriptor k)).

End Printer.

(** ** The end of [main]

    From [range_checks] on; the bitmap and the vector file are what
    ghostscript left. *)
Module Main.

(** What is not set by the program when it reads it. *)
Record unset : Type := mkUnset {
  bitmap_header : list Z;
  x0 : Z;
  y0 : Z;
  lpdres : Z
}.

(** The inputs of a run. *)
Record run : Type := mkRun {
  options : globals;
  host : string;
  hostname : string;
  bitmap : list Z;
  vector : list string;
  net : nat -> Printer.resolution_result;
  printer_answers : list Z
}.

(** The value of [main], the state of the files and the connection at
    the end; [None] when [generate_pjl] does not come back. *)
Definition main (u : unset) (r : run) : option (Z * world * Printer.link) :=
  let g := range_checks (options r) in
  let w := {| vars := g; pjl_file := EmptyString; stderr := [];
              bitmap_file := fopen (bitmap r) |} in
  let k := {| Printer.sent := []; Printer.answers := printer_answers r;
              Printer.errors := []; Printer.slept := 0 |} in
  match Pjl.call (Pjl.generate_pjl (bitmap_header u) (x0 u) (y0 u) (vector r)) w
  with
  | (Next true, w') =>
      let '(ok, k') :=
        Printer.printer_send (vars w') (host r) (hostname r) (lpdres u)
          (net r) (pjl_file w') k in
      Some (if ok then 0 else 1, w',
            if ok then k'
            else Printer.log "Could not send pjl file to printer." k')
  | (Next false, w') =>
      Some (1, w', Printer.log "Generation of pjl file failed." k)
  | (Stop _, _) => None
  end.

End Main.

(** ** [ps_to_eps] *)
Module Eps.

Local Open Scope string_scope.

(** [fgets (buf, n + 1, f)] on the characters left in the file: at most
    [n] characters, up to and with the first newline; the line and what is
    left of the file. *)
Fixpoint fgets_from (n : nat) (s : string) {struct s} : string * string :=
  match n, s with
  | S k, String c s' =>
      if Ascii.eqb c "010" then (String c EmptyString, s')
      else let (l, r) := fgets_from k s' in (String c l, r)
  | _, _ => (EmptyString, s)
  end.

(** [fgets (buf, sizeof (buf), ps_file)]; [None] at the end of the file. *)
Definition fgets (s : string) : option (string * string) :=
  match s with
  | EmptyString => None
  | _ => Some (fgets_from (Z.to_nat (BUF_SIZE - 1)) s)
  end.

(** The C string at the head of a buffer: the characters in front of the
    first zero. *)
Fixpoint c_string (s : string) : string :=
  match s with
  | String c s' =>
      if Ascii.eqb c "000" then EmptyString else String c (c_string s')
  | EmptyString => EmptyString
  end.

(** The C locale's [tolower]. *)
Definition tolower (c : ascii) : ascii :=
  if (65 <=? Vector.code c)%Z && (Vector.code c <=? 90)%Z
  then ascii_of_N (N_of_ascii c + 32)
  else c.

(** [strncasecmp (a, b, n) == 0] on C strings. *)
Fixpoint strncasecmp_eq (a b : string) (n : nat) {struct n} : bool :=
  match n with
  | O => true
  | S k =>
      match a, b with
      | String x a', String y b' =>
          if Ascii.eqb (tolower x) (tolower y) then strncasecmp_eq a' b' k
          else false
      | EmptyString, EmptyString => true
      | _, _ => false
      end
  end.

(** [buf + n]. *)
Fixpoint advance (n : nat) (s : string) {struct n} : string :=
  match n, s with
  | S k, String _ s' => advance k s'
  | _, _ => s
  end.

(** [sscanf (s, "%d %d %d %d", ...) == 4], with the four values. *)
Definition sscanf_4d (s : string) : option (Z * Z * Z * Z) :=
  match Vector.scan_int s with
  | Some (a, s1) =>
      match Vector.scan_int s1 with
      | Some (b, s2) =>
          match Vector.scan_int s2 with
          | Some (c, s3) =>
              match Vector.scan_int s3 with
              | Some (d, _) => Some (a, b, c, d)
              | None => None
              end
          | None => None
          end
      | None => None
      end
  | None => None
  end.

(** The new definition of [stroke] and [showpage] that makes ghostscript
    print the vector commands. *)
Definition STROKE : string :=
  "/==={(        )cvs print}def/stroke{currentrgbcolor 0.0 "
  ++ "eq exch 0.0 eq and exch 0.0 ne and{(P)=== currentrgbcolor pop pop 100 mul "
  ++ "round  cvi = flattenpath{transform(M)=== round cvi ===(,)=== round cvi "
  ++ "=}{transform(L)=== round cvi ===(,)=== round cvi =}{}{(C)=}pathforall "
  ++ "newpath}{stroke}ifelse}bind def/showpage{(X)= showpage}bind def" ++ LF.

(** The block [if (!strncasecmp (buf, "%%PageBoundingBox:", 18))]: the
    global variables after it and what it writes. *)
Definition page_box (g : globals) (line : string) : globals * string :=
  if strncasecmp_eq line "%%PageBoundingBox:" 18 then
    match sscanf_4d (advance 14 line) with
    | Some (lower_left_x, lower_left_y, upper_right_x, upper_right_y) =>
        let g' := set_size (upper_right_x - lower_left_x)
                    (upper_right_y - lower_left_y) g in
        (g',
         "/setpagedevice{pop}def" ++ LF
         ++ (if negb (lower_left_x =? 0)%Z || negb (lower_left_y =? 0)%Z
             then fmt_d (- lower_left_x) ++ " " ++ fmt_d (- lower_left_y)
                  ++ " translate" ++ LF
             else "")
         ++ (if negb (flip g' =? 0)%Z
             then fmt_d (width g') ++ " 0 translate -1 1 scale" ++ LF
             else ""))
    | None => (g, "")
    end
  else (g, "").

(** The transfer and screen functions written in mono mode. *)
Definition screen (g : globals) : string :=
  if negb (Raster.is_mode "c" g) && negb (Raster.is_mode "g" g) then
    if (screen_size g =? 0)%Z then "{0.5 ge{1}{0}ifelse}settransfer" ++ LF
    else
      (if (600 <=? resolution g)%Z
       then "{dup 0 ne{" ++ fmt_d (Z.quot (resolution g) 600) ++ " "
            ++ fmt_d (screen_size g) ++ " div add}if}settransfer" ++ LF
       else "")
      ++ fmt_d (Z.quot (resolution g) (screen_size g)) ++ " 30{"
      ++ (if (0 <? screen_size g)%Z then "pop abs 1 exch sub"
          else "180 mul cos exch 180 mul cos add 2 div")
      ++ "}setscreen" ++ LF
  else "".

(** The block [if (!strncasecmp (buf, "%!", 2))]. *)
Definition prologue (g : globals) (line : string) : string :=
  if strncasecmp_eq line "%!" 2 then STROKE ++ screen g else "".

Lemma fgets_from_shorter n c s :
  (String.length (snd (fgets_from (S n) (String c s))) < String.length (String c s))%nat.
Proof.
  revert c s. induction n as [|n IH]; intros c s; cbn [fgets_from].
  - destruct (Ascii.eqb c "010"); [cbn; lia|].
    destruct s; cbn; lia.
  - destruct (Ascii.eqb c "010"); [cbn; lia|].
    destruct s as [|c' s'].
    + cbn. lia.
    + specialize (IH c' s'). cbn [fgets_from] in *.
      destruct (Ascii.eqb c' "010"); [cbn in *; lia|].
      destruct (fgets_from n s') as [l r]. cbn [snd String.length] in *. lia.
Qed.

Lemma fgets_room : exists n, Z.to_nat (BUF_SIZE - 1) = S n.
Proof.
  exists (Z.to_nat (BUF_SIZE - 2)).
  rewrite <- Z2Nat.inj_succ by (unfold BUF_SIZE; lia).
  f_equal.
Qed.

Lemma fgets_shorter s raw rest :
  fgets s = Some (raw, rest) -> (String.length rest < String.length s)%nat.
Proof.
  unfold fgets. destruct fgets_room as [n ->].
  destruct s as [|c s]; [discriminate|].
  intros H.
  pose proof (fgets_from_shorter n c s) as Hs.
  destruct (fgets_from (S n) (String c s)) as [l r].
  assert (r = rest) by congruence. subst r. exact Hs.
Qed.

(** [buf[0] == '%'] on the line read. *)
Definition is_comment (raw : string) : bool :=
  match raw with
  | String c _ => Ascii.eqb c "%"
  | EmptyString => false
  end.

(** The first loop of [ps_to_eps]: the lines are copied, with the two
    blocks after each, up to and with the first line that does not open
    with a percent sign.  The value is the global variables, the file
    written and what is left to read. *)
Equations? header (g : globals) (ps eps : string) : globals * string * string
  by wf (String.length ps) lt :=
  header g ps eps with Logic.inspect (fgets ps) := {
    | exist _ None _ := (g, eps, ps);
    | exist _ (Some (raw, rest)) _ with is_comment raw := {
        | true :=
            header (fst (page_box g (c_string raw))) rest
              (eps ++ c_string raw ++ snd (page_box g (c_string raw))
               ++ prologue (fst (page_box g (c_string raw))) (c_string raw));
        | false := (g, eps ++ c_string raw, rest) } }.
Proof. eapply fgets_shorter; eassumption. Qed.

(** [ps_to_eps (ps_file, eps_file)]: the value, the global variables
    and the file written; the second loop copies what is left. *)
Definition ps_to_eps (g : globals) (ps : string) : bool * globals * string :=
  let '(g', eps, rest) := header g ps EmptyString in
  (true, g', eps ++ rest).

End Eps.

(** ** Loops, statement by statement

    Three loops of the program written out turn by turn; the functions
    above use the lists they compute. *)
Module Loops.

(** [buf[i] = v] inside the array. *)
Definition store (i : nat) (v : Z) (buf : list Z) : list Z :=
  firstn i buf ++ v :: skipn (S i) buf.

(** [for (n = ...; n < (r - l) / 2; n++) { t = buf[l + n];
    buf[l + n] = buf[r - n - 1]; buf[r - n - 1] = t; }] with [turns]
    turns left. *)
Fixpoint reverse_from (turns n l r : nat) (buf : list Z) : list Z :=
  match turns with
  | O => buf
  | S k =>
      let t := nth (l + n) buf 0 in
      let buf := store (l + n) (nth (r - n - 1) buf 0) buf in
      let buf := store (r - n - 1) t buf in
      reverse_from k (S n) l r buf
  end.

Definition reverse_bytes (l r : nat) (buf : list Z) : list Z :=
  reverse_from ((r - l) / 2) 0 l r buf.

(** [for (r = h - 1; r > l && !buf[r]; r--);] from [r]: the value of [r]
    when the loop is left. *)
Fixpoint right_scan (r l : nat) (buf : list Z) : nat :=
  match r with
  | O => O
  | S r' =>
      if (l <? r)%nat && (nth r buf 0 =? 0) then right_scan r' l buf else r
  end.

(** [for (r = h - 1; r > l && !buf[r]; r--); r++;] *)
Definition right_end (h l : nat) (buf : list Z) : nat :=
  S (right_scan (h - 1) l buf).

(** [for (off = start; off >= 0; off -= dim)]: the values of [off] in
    the turns of the loop, [None] when the loop is not left within
    [fuel] turns. *)
Fixpoint tile_offsets (fuel : nat) (dim off : Z) : option (list Z) :=
  match fuel with
  | O => if off <? 0 then Some [] else None
  | S k =>
      if off <? 0 then Some []
      else option_map (cons off) (tile_offsets k dim (off - dim))
  end.

End Loops.

(** ** The control file in [buf]

    The calls of [sprintf] with which [printer_send] builds the control
    file, on the array itself. *)
Module Control.

(** [sprintf (buf + off, ...)] with the text already formatted: its
    characters and a zero byte, stored from [off] on. *)
Definition sprintf (off : nat) (s : string) (buf : list ascii) : list ascii :=
  firstn off buf ++ list_ascii_of_string s
  ++ "000"%char :: skipn (off + String.length s + 1) buf.

(** [strlen (buf)]. *)
Fixpoint strlen (buf : list ascii) : nat :=
  match buf with
  | c :: rest => if Ascii.eqb c "000" then O else S (strlen rest)
  | [] => O
  end.

(** The C string at [buf + off]. *)
Fixpoint c_string (buf : list ascii) : string :=
  match buf with
  | c :: rest =>
      if Ascii.eqb c "000" then EmptyString else String c (c_string rest)
  | [] => EmptyString
  end.

Definition string_at (off : nat) (buf : list ascii) : string :=
  c_string (skipn off buf).

(** The seven calls, from [sprintf (buf, "H%s\n", localhost)] to the one
    with the announcement. *)
Definition control_file (g : globals) (localhost : string)
  (buf : list ascii) : list ascii :=
  let buf := sprintf 0 ("H" ++ localhost ++ LF) buf in
  let buf := sprintf (strlen buf + 1) ("P" ++ job_user g ++ LF) buf in
  let buf := sprintf (strlen buf + 1) ("J" ++ job_title g ++ LF) buf in
  let buf := sprintf (strlen buf + 1)
               ("ldfA" ++ job_name g ++ localhost ++ LF) buf in
  let buf := sprintf (strlen buf + 1)
               ("UdfA" ++ job_name g ++ localhost ++ LF) buf in
  let buf := sprintf (strlen buf + 1) ("N" ++ job_title g ++ LF) buf in
  sprintf (strlen buf + 1)
    (STX ++ fmt_d (Z.of_nat (strlen buf)) ++ " cfA" ++ job_name g
     ++ localhost ++ LF) buf.

(** [write (fd, buf + strlen (buf) + 1, strlen (buf + strlen (buf) + 1))]:
    the announcement as it is sent. *)
Definition announcement (buf : list ascii) : string :=
  string_at (strlen buf + 1) buf.

(** [write (fd, buf, strlen (buf) + 1)]: the control file as it is sent. *)
Definition control_sent (buf : list ascii) : string :=
  (string_at 0 buf ++ String "000" EmptyString)%string.

End Control.

(** * Facts *)

(** ** The packer *)
Module PackFacts.
Import Pack.

Lemma pack_loop_unfold x xs pack :
  pack_loop (x :: xs) pack =
  match pack_step (x :: xs) pack with
  | Some (rest, pack') => pack_loop rest pack'
  | None => None
  end.
Proof.
  rewrite pack_loop_equation_2. cbn beta. unfold Logic.inspect.
  assert (G : forall o (e : pack_step (x :: xs) pack = o),
             pack_loop_unfold_clause_2 x xs pack (exist _ o e) =
             match o with
             | Some (rest, pack') => pack_loop rest pack'
             | None => None
             end).
  { intros [[rest pack']|] e; reflexivity. }
  apply G.
Qed.

(** *** The stores *)

Ltac case_leb :=
  repeat match goal with
         | |- context [?a <=? ?b] => destruct (Z.leb_spec a b)
         | |- context [?a <? ?b] => destruct (Z.ltb_spec a b)
         end.

Lemma pack_put_char v pack :
  pack_put v pack =
  if Z.of_nat (length pack) + 1 <=? PACK_SIZE then Some (pack ++ [uchar v])
  else None.
Proof.
  unfold pack_put. case_leb; try reflexivity; lia.
Qed.

Lemma pack_copy_char lits pack :
  Z.of_nat (length pack) <= PACK_SIZE ->
  pack_copy lits pack =
  if Z.of_nat (length pack) + Z.of_nat (length lits) <=? PACK_SIZE
  then Some (pack ++ map uchar lits) else None.
Proof.
  revert pack; induction lits as [|b lits IH]; intros pack Hle.
  - cbn [pack_copy map length]. rewrite app_nil_r.
    case_leb; [reflexivity | lia].
  - cbn [pack_copy]. rewrite pack_put_char.
    destruct (Z.leb_spec (Z.of_nat (length pack) + 1) PACK_SIZE) as [H1|H1].
    + rewrite IH by (rewrite length_app; cbn [length]; lia).
      rewrite length_app. cbn [length map].
      rewrite <- app_assoc. cbn [app].
      case_leb; try reflexivity; lia.
    + cbn [length]. case_leb; [lia | reflexivity].
Qed.

(** *** The two scans *)

Lemma run_scan_firstn b xs limit :
  firstn (run_scan b xs limit) xs = repeat b (run_scan b xs limit).
Proof.
  revert xs; induction limit as [|k IH]; intros [|x xs]; simpl; try reflexivity.
  destruct (Z.eqb_spec x b) as [->|]; simpl; [rewrite IH|]; reflexivity.
Qed.

Lemma literal_scan_non_repeating xs limit :
  non_repeating (firstn (literal_scan xs limit) xs).
Proof.
  revert xs; induction limit as [|k IH]; intros [|x xs]; simpl; try exact I.
  destruct xs as [|y ys]; [exact I|].
  destruct (Z.eqb_spec x y) as [->|Hne]; [exact I|].
  specialize (IH (y :: ys)).
  destruct (literal_scan (y :: ys) k) as [|j] eqn:E; [exact I|].
  cbn [firstn] in *. split; assumption.
Qed.

Definition starts_with_pair (xs : list Z) : bool :=
  match xs with
  | x :: y :: _ => x =? y
  | _ => false
  end.

Lemma run_scan_pair x xs :
  (2 <=? run_scan x (x :: xs) 128)%nat = starts_with_pair (x :: xs).
Proof.
  change 128%nat with (S (S 126)). rewrite run_scan_head.
  destruct xs as [|y ys]; [reflexivity|]. cbn [run_scan starts_with_pair].
  rewrite (Z.eqb_sym x y). destruct (y =? x); reflexivity.
Qed.

(** The literal scan stops at the end of the range, in front of a pair,
    or at its limit. *)
Lemma literal_scan_stop xs limit :
  skipn (literal_scan xs limit) xs = [] \/
  starts_with_pair (skipn (literal_scan xs limit) xs) = true \/
  literal_scan xs limit = limit.
Proof.
  revert xs; induction limit as [|k IH]; intros [|x xs]; simpl; auto.
  destruct xs as [|y ys]; [auto|].
  destruct (Z.eqb_spec x y) as [->|Hne].
  - right; left. simpl. apply Z.eqb_refl.
  - destruct (IH (y :: ys)) as [H|[H|H]]; cbn [skipn]; auto.
Qed.

(** *** One turn of the loop *)

(** The group one turn of the loop takes from the front of the range. *)
Definition step_segment (xs : list Z) : segment :=
  match xs with
  | [] => Lit []
  | b :: _ =>
      if starts_with_pair xs then Run (run_scan b xs 128) b
      else Lit (firstn (literal_scan xs 127) xs)
  end.

Lemma pack_step_char x xs pack :
  Z.of_nat (length pack) <= PACK_SIZE ->
  let s := step_segment (x :: xs) in
  pack_step (x :: xs) pack =
  if Z.of_nat (length pack) + Z.of_nat (length (seg_code s)) <=? PACK_SIZE
  then Some (skipn (length (seg_bytes s)) (x :: xs),
             pack ++ map uchar (seg_code s))
  else None.
Proof.
  intros Hle. unfold pack_step, step_segment.
  rewrite run_scan_pair.
  pose proof (run_scan_le x (x :: xs) 128) as Hrun.
  pose proof (literal_scan_le (x :: xs) 127) as Hlit.
  remember (x :: xs) as ys eqn:Hys.
  destruct (starts_with_pair ys) eqn:E; cbn zeta.
  - remember (run_scan x ys 128) as p. cbn [seg_code seg_bytes length map].
    rewrite repeat_length, pack_put_char.
    destruct (Z.leb_spec (Z.of_nat (length pack) + 1) PACK_SIZE) as [H1|H1].
    + rewrite pack_put_char, length_app. cbn [length].
      rewrite <- app_assoc. cbn [app].
      case_leb; try reflexivity; lia.
    + case_leb; [lia | reflexivity].
  - remember (literal_scan ys 127) as q. cbn [seg_code seg_bytes length map].
    rewrite length_firstn, pack_put_char.
    replace (Init.Nat.min q (length ys)) with q by lia.
    destruct (Z.leb_spec (Z.of_nat (length pack) + 1) PACK_SIZE) as [H1|H1].
    + rewrite pack_copy_char by (rewrite length_app; cbn [length]; lia).
      rewrite !length_app, length_firstn. cbn [length].
      replace (Init.Nat.min q (length ys)) with q by lia.
      rewrite <- app_assoc. cbn [app].
      case_leb; try reflexivity; lia.
    + case_leb; [lia | reflexivity].
Qed.

Lemma step_segment_ok x xs : seg_ok (step_segment (x :: xs)).
Proof.
  unfold step_segment.
  pose proof (run_scan_pair x xs) as Hp.
  pose proof (run_scan_le x (x :: xs) 128) as Hrun.
  pose proof (literal_scan_le (x :: xs) 127) as Hlit.
  pose proof (literal_scan_pos x xs 126) as Hpos.
  pose proof (literal_scan_non_repeating (x :: xs) 127) as Hnr.
  remember (x :: xs) as ys eqn:Hys.
  destruct (starts_with_pair ys) eqn:E; cbn [seg_ok].
  - apply Nat.leb_le in Hp. lia.
  - apply Nat.leb_gt in Hp. specialize (Hpos Hp).
    rewrite length_firstn. split; [lia | assumption].
Qed.

Lemma step_segment_split x xs :
  let s := step_segment (x :: xs) in
  seg_bytes s ++ skipn (length (seg_bytes s)) (x :: xs) = x :: xs.
Proof.
  unfold step_segment.
  pose proof (run_scan_firstn x (x :: xs) 128) as Hf.
  remember (x :: xs) as ys eqn:Hys.
  destruct (starts_with_pair ys); cbn [seg_bytes].
  - rewrite repeat_length, <- Hf. apply firstn_skipn.
  - rewrite length_firstn.
    pose proof (literal_scan_le ys 127).
    replace (Init.Nat.min (literal_scan ys 127) (length ys))
      with (literal_scan ys 127) by lia.
    apply firstn_skipn.
Qed.

Lemma step_segment_nonempty x xs :
  (1 <= length (seg_bytes (step_segment (x :: xs))))%nat.
Proof.
  pose proof (step_segment_ok x xs) as H.
  destruct (step_segment (x :: xs)) as [len b|bytes]; cbn [seg_ok seg_bytes] in *.
  - rewrite repeat_length. lia.
  - lia.
Qed.

(** *** The loop *)

Lemma map_uchar_bytes xs : Forall is_byte xs -> map uchar xs = xs.
Proof.
  induction 1 as [|x xs Hx _ IH]; [reflexivity|]. cbn [map].
  rewrite IH. unfold uchar, is_byte in *. rewrite Z.mod_small by lia.
  reflexivity.
Qed.

Lemma seg_code_bytes s :
  seg_ok s -> Forall is_byte (seg_bytes s) -> Forall is_byte (seg_code s).
Proof.
  destruct s as [len b|bytes]; cbn [seg_ok seg_bytes seg_code]; intros Hok Hb.
  - constructor; [unfold is_byte; lia|]. constructor; [|constructor].
    destruct len as [|len]; [lia|]. cbn [repeat] in Hb.
    apply Forall_inv in Hb. exact Hb.
  - constructor; [unfold is_byte; lia | exact Hb].
Qed.

(** Whenever the loop returns, what it wrote is the code of a sequence of
    groups of the scheme that spell the range, and every store was inside
    the array. *)
Lemma pack_loop_segments xs :
  forall pack out,
    Z.of_nat (length pack) <= PACK_SIZE ->
    pack_loop xs pack = Some out ->
    exists segs,
      Forall seg_ok segs /\ segs_bytes segs = xs /\
      out = pack ++ map uchar (segs_code segs) /\
      Z.of_nat (length out) <= PACK_SIZE.
Proof.
  remember (length xs) as n eqn:Hn. revert xs Hn.
  induction n as [n IH] using lt_wf_ind. intros [|x xs] Hn pack out Hle.
  - rewrite pack_loop_equation_1. intros [= <-]. exists [].
    cbn. rewrite app_nil_r. auto.
  - rewrite pack_loop_unfold, (pack_step_char x xs pack Hle). cbn zeta.
    set (s := step_segment (x :: xs)).
    destruct (Z.leb_spec (Z.of_nat (length pack) + Z.of_nat (length (seg_code s)))
                PACK_SIZE) as [Hfit|]; [|discriminate].
    intros Hloop.
    pose proof (step_segment_nonempty x xs) as Hne. fold s in Hne.
    pose proof (step_segment_split x xs) as Hsplit. cbn zeta in Hsplit.
    fold s in Hsplit.
    assert (Hlt : (length (skipn (length (seg_bytes s)) (x :: xs)) < n)%nat).
    { rewrite length_skipn. subst n. cbn [length] in *. lia. }
    assert (Hle' : Z.of_nat (length (pack ++ map uchar (seg_code s)))
                   <= PACK_SIZE)
      by (rewrite length_app, length_map; lia).
    destruct (IH _ Hlt _ eq_refl _ _ Hle' Hloop)
      as (segs & Hok & Hbytes & Hout & Hcap).
    exists (s :: segs). repeat split.
    + constructor; [apply step_segment_ok | exact Hok].
    + unfold segs_bytes in *. cbn [map concat]. rewrite Hbytes. exact Hsplit.
    + unfold segs_code in *. cbn [map concat].
      rewrite map_app, app_assoc. exact Hout.
    + exact Hcap.
Qed.

Lemma segs_bytes_Forall segs :
  Forall seg_ok segs -> Forall is_byte (segs_bytes segs) ->
  Forall is_byte (segs_code segs).
Proof.
  unfold segs_bytes, segs_code.
  induction 1 as [|s segs Hs _ IH]; cbn [map concat]; [constructor|].
  intros Hb. apply Forall_app in Hb as [Hb1 Hb2].
  apply Forall_app. split; [apply seg_code_bytes; assumption | auto].
Qed.

(** *** The decoder on the code of a group *)

Lemma unpack_literal bytes tail :
  forall k, length bytes = S k ->
            unpack_from (Literal k) (bytes ++ tail) =
            bytes ++ unpack_from Control tail.
Proof.
  induction bytes as [|b bytes IH]; intros k Hk; [discriminate|].
  cbn [length] in Hk. injection Hk as Hk. cbn [app unpack_from].
  destruct k as [|k].
  - destruct bytes; [reflexivity | discriminate].
  - rewrite (IH k Hk). reflexivity.
Qed.

Lemma unpack_seg s tail :
  seg_ok s ->
  unpack_from Control (seg_code s ++ tail) =
  seg_bytes s ++ unpack_from Control tail.
Proof.
  destruct s as [len b|bytes]; cbn [seg_ok seg_code seg_bytes]; intros Hok.
  - cbn [app unpack_from].
    destruct (Z.ltb_spec (257 - Z.of_nat len) 128); [lia|].
    destruct (Z.eqb_spec (257 - Z.of_nat len) 128); [lia|].
    replace (Z.to_nat (257 - (257 - Z.of_nat len))) with len by lia.
    reflexivity.
  - destruct Hok as [Hlen _]. cbn [app unpack_from].
    destruct (Z.ltb_spec (Z.of_nat (length bytes) - 1) 128); [|lia].
    apply unpack_literal. lia.
Qed.

Lemma unpack_segs segs tail :
  Forall seg_ok segs ->
  unpack_from Control (segs_code segs ++ tail) =
  segs_bytes segs ++ unpack_from Control tail.
Proof.
  unfold segs_code, segs_bytes.
  induction 1 as [|s segs Hs _ IH]; cbn [map concat]; [reflexivity|].
  rewrite <- !app_assoc, unpack_seg by assumption. rewrite IH. reflexivity.
Qed.

Lemma unpack_filler k : unpack_from Control (repeat FILLER k) = [].
Proof. induction k as [|k IH]; [reflexivity|]. cbn. exact IH. Qed.

Lemma padded_length pack : (length (padded pack) mod 8 = 0)%nat.
Proof.
  unfold padded, padding. rewrite length_app, repeat_length.
  pose proof (Nat.mod_upper_bound (length pack) 8 ltac:(lia)) as Hm.
  pose proof (Nat.div_mod_eq (length pack) 8) as Hd.
  destruct (Nat.eq_dec (length pack mod 8) 0) as [E|E].
  - rewrite E. change ((8 - 0) mod 8)%nat with 0%nat. rewrite Nat.add_0_r. exact E.
  - rewrite (Nat.mod_small (8 - length pack mod 8) 8) by lia.
    replace (length pack + (8 - length pack mod 8))%nat
      with ((length pack / 8 + 1) * 8)%nat by lia.
    apply Nat.Div0.mod_mul.
Qed.

(** The length the program announces in ["\\e*b%dW"]. *)
Lemma padded_length_announced pack :
  Z.of_nat (length (padded pack)) =
  Z.quot (Z.of_nat (length pack) + 7) 8 * 8.
Proof.
  pose proof (padded_length pack) as Hm.
  unfold padded, padding in *. rewrite length_app, repeat_length in *.
  set (n := length pack) in *.
  pose proof (Nat.mod_upper_bound n 8 ltac:(lia)) as Hn.
  pose proof (Nat.mod_upper_bound (8 - n mod 8) 8 ltac:(lia)) as Hp.
  rewrite Z.quot_div_nonneg by lia.
  apply Nat.Div0.div_exact in Hm.
  set (t := (n + (8 - n mod 8) mod 8)%nat) in *.
  assert (Ht : (n <= t < n + 8)%nat) by (unfold t; lia).
  assert (Hq : (Z.of_nat n + 7) / 8 = Z.of_nat (t / 8)).
  { symmetry. apply Z.div_unique with (r := Z.of_nat n + 7 - Z.of_nat t); lia. }
  rewrite Hq. lia.
Qed.

(** The round trip, for every range on which the loop stays inside its
    array. *)
Lemma pack_unpack_roundtrip xs out :
  Forall is_byte xs ->
  pack_line xs = Some out ->
  unpack out = xs /\ unpack (padded out) = xs.
Proof.
  intros Hb Hp. unfold pack_line in Hp.
  apply pack_loop_segments in Hp; [|cbn; unfold PACK_SIZE, BUF_SIZE; lia].
  destruct Hp as (segs & Hok & Hbytes & Hout & _). cbn [app] in Hout.
  rewrite map_uchar_bytes in Hout
    by (apply segs_bytes_Forall; [assumption | rewrite Hbytes; assumption]).
  subst out. unfold unpack, padded. split.
  - rewrite <- (app_nil_r (segs_code segs)), unpack_segs by assumption.
    cbn. rewrite app_nil_r. exact Hbytes.
  - rewrite unpack_segs, unpack_filler, app_nil_r by assumption. exact Hbytes.
Qed.

(** What the packer writes, whenever it stays inside its array: the code
    of groups of the scheme, runs of 2 to 128 equal bytes as [257 - length]
    and the byte, literals of 1 to 127 bytes without equal neighbours as
    [length - 1] and the bytes; padded with the filler to a multiple of
    eight bytes, it unpacks to the range. *)
Lemma pack_line_scheme xs out :
  Forall is_byte xs ->
  pack_line xs = Some out ->
  (exists segs,
      Forall seg_ok segs /\ segs_bytes segs = xs /\ out = segs_code segs) /\
  unpack (padded out) = xs /\
  (length (padded out) mod 8 = 0)%nat /\
  Z.of_nat (length (padded out)) = Z.quot (Z.of_nat (length out) + 7) 8 * 8.
Proof.
  intros Hb Hp. split; [|split; [|split]].
  - unfold pack_line in Hp.
    apply pack_loop_segments in Hp; [|cbn; unfold PACK_SIZE, BUF_SIZE; lia].
    destruct Hp as (segs & Hok & Hbytes & Hout & _). cbn [app] in Hout.
    rewrite map_uchar_bytes in Hout
      by (apply segs_bytes_Forall; [assumption | rewrite Hbytes; assumption]).
    exists segs. auto.
  - apply (pack_unpack_roundtrip xs out Hb Hp).
  - apply padded_length.
  - apply padded_length_announced.
Qed.

(** *** The size of the packed range *)

(** Three times the number of bytes the loop can still write is bounded
    by this weight of the bytes left: four per byte, and two more when
    the range opens with a literal. *)
Definition worst (xs : list Z) : Z :=
  match xs with
  | [] => 0
  | _ => 4 * Z.of_nat (length xs) + (if starts_with_pair xs then 0 else 2)
  end.

Lemma worst_le xs : 0 <= worst xs <= 4 * Z.of_nat (length xs) + 2.
Proof.
  destruct xs as [|x xs]; [cbn; lia|]. unfold worst.
  destruct (starts_with_pair (x :: xs)); cbn [length]; lia.
Qed.

Lemma worst_pair xs :
  starts_with_pair xs = true -> worst xs = 4 * Z.of_nat (length xs).
Proof.
  destruct xs as [|x xs]; [discriminate|]. unfold worst. intros ->. lia.
Qed.

Lemma step_worst x xs :
  let s := step_segment (x :: xs) in
  3 * Z.of_nat (length (seg_code s)) +
  worst (skipn (length (seg_bytes s)) (x :: xs)) <= worst (x :: xs).
Proof.
  cbn zeta. unfold step_segment.
  pose proof (run_scan_pair x xs) as Hp.
  pose proof (run_scan_le x (x :: xs) 128) as Hrun.
  pose proof (literal_scan_le (x :: xs) 127) as Hlit.
  pose proof (literal_scan_pos x xs 126) as Hpos.
  pose proof (literal_scan_stop (x :: xs) 127) as Hstop.
  unfold worst at 2.
  remember (x :: xs) as ys eqn:Hys.
  assert (Hlen : (1 <= length ys)%nat) by (subst ys; cbn [length]; lia).
  destruct ys as [|y ys']; [discriminate|]. clear Hys.
  remember (y :: ys') as ys.
  destruct (starts_with_pair ys) eqn:E; cbn [seg_code seg_bytes length].
  - apply Nat.leb_le in Hp. rewrite repeat_length.
    pose proof (worst_le (skipn (run_scan x ys 128) ys)) as Hw.
    rewrite length_skipn in Hw. lia.
  - apply Nat.leb_gt in Hp. specialize (Hpos Hp).
    rewrite length_firstn.
    replace (Init.Nat.min (literal_scan ys 127) (length ys))
      with (literal_scan ys 127) by lia.
    remember (literal_scan ys 127) as q.
    destruct Hstop as [H|[H|H]].
    + rewrite H. cbn [worst]. lia.
    + rewrite (worst_pair _ H), length_skipn. lia.
    + pose proof (worst_le (skipn q ys)) as Hw.
      rewrite length_skipn in Hw. lia.
Qed.

(** When the weight of the range fits what is left of the array, the
    loop returns, and it has written no more than the weight allows. *)
Lemma pack_loop_total xs :
  forall pack,
    3 * Z.of_nat (length pack) + worst xs <= 3 * PACK_SIZE ->
    exists out,
      pack_loop xs pack = Some out /\
      3 * Z.of_nat (length out) <= 3 * Z.of_nat (length pack) + worst xs.
Proof.
  remember (length xs) as n eqn:Hn. revert xs Hn.
  induction n as [n IH] using lt_wf_ind. intros [|x xs] Hn pack Hw.
  - rewrite pack_loop_equation_1. exists pack. cbn [worst]. split; [reflexivity|lia].
  - pose proof (step_worst x xs) as Hs. cbn zeta in Hs.
    pose proof (step_segment_nonempty x xs) as Hne.
    set (s := step_segment (x :: xs)) in *.
    pose proof (worst_le (skipn (length (seg_bytes s)) (x :: xs))) as Hr.
    rewrite pack_loop_unfold, pack_step_char by lia. cbn zeta. fold s.
    destruct (Z.leb_spec (Z.of_nat (length pack) + Z.of_nat (length (seg_code s)))
                PACK_SIZE) as [Hfit|Hfit]; [|lia].
    assert (Hlt : (length (skipn (length (seg_bytes s)) (x :: xs)) < n)%nat).
    { rewrite length_skipn. subst n. cbn [length] in *. lia. }
    destruct (IH _ Hlt _ eq_refl (pack ++ map uchar (seg_code s)))
      as (out & Hout & Hlen).
    { rewrite length_app, length_map. lia. }
    exists out. split; [exact Hout|].
    rewrite length_app, length_map in Hlen. lia.
Qed.

(** The packed size of an [n]-byte range is at most [n + ceil (n / 3)]. *)
Lemma pack_line_bound xs out :
  pack_line xs = Some out ->
  Z.of_nat (length out) <=
  Z.of_nat (length xs) + (Z.of_nat (length xs) + 2) / 3.
Proof.
  intros Hp. unfold pack_line in Hp.
  pose proof (worst_le xs) as Hw.
  destruct (Z.le_gt_cases (worst xs) (3 * PACK_SIZE)) as [Hfit|Hbig].
  - destruct (pack_loop_total xs [] ltac:(cbn [length]; lia))
      as (out' & Hout & Hlen).
    rewrite Hp in Hout. injection Hout as <-. cbn [length] in Hlen.
    pose proof (Z.div_mod (Z.of_nat (length xs) + 2) 3 ltac:(lia)).
    pose proof (Z.mod_pos_bound (Z.of_nat (length xs) + 2) 3 ltac:(lia)).
    lia.
  - apply pack_loop_segments in Hp; [|cbn; unfold PACK_SIZE, BUF_SIZE; lia].
    destruct Hp as (_ & _ & _ & _ & Hcap).
    pose proof (Z.div_mod (Z.of_nat (length xs) + 2) 3 ltac:(lia)).
    pose proof (Z.mod_pos_bound (Z.of_nat (length xs) + 2) 3 ltac:(lia)).
    lia.
Qed.

(** *** The line that does not fit *)

Definition abb (k : nat) : list Z := concat (repeat [1; 2; 2] k) ++ [1].

Lemma abb_head k : exists t, abb k = 1 :: t.
Proof. destruct k; cbn; eauto. Qed.

Lemma abb_length k : length (abb k) = (3 * k + 1)%nat.
Proof.
  unfold abb. induction k as [|k IH]; [reflexivity|].
  cbn [repeat concat app length] in *. lia.
Qed.

Lemma pack_loop_abb k :
  forall pack out,
    pack_loop (abb k) pack = Some out ->
    Z.of_nat (length out) = Z.of_nat (length pack) + 4 * Z.of_nat k + 2.
Proof.
  induction k as [|k IH]; intros pack out.
  - unfold abb. cbn [repeat concat app].
    rewrite pack_loop_unfold. cbn [pack_step run_scan literal_scan Z.eqb
      Pos.eqb Nat.leb firstn skipn pack_copy].
    destruct (pack_put _ pack) as [p1|] eqn:E1; [|discriminate].
    destruct (pack_put 1 p1) as [p2|] eqn:E2; [|discriminate].
    rewrite pack_loop_equation_1. intros [= <-].
    rewrite pack_put_char in E1, E2.
    destruct (_ <=? _) in E1; [|discriminate].
    destruct (_ <=? _) in E2; [|discriminate].
    injection E1 as <-. injection E2 as <-. rewrite !length_app. cbn [length]. lia.
  - destruct (abb_head k) as [t Ht].
    change (abb (S k)) with (1 :: 2 :: 2 :: abb k). rewrite Ht.
    rewrite pack_loop_unfold. cbn [pack_step run_scan literal_scan Z.eqb
      Pos.eqb Nat.leb firstn skipn pack_copy].
    destruct (pack_put _ pack) as [p1|] eqn:E1; [|discriminate].
    destruct (pack_put 1 p1) as [p2|] eqn:E2; [|discriminate].
    rewrite pack_loop_unfold. cbn [pack_step run_scan literal_scan Z.eqb
      Pos.eqb Nat.leb firstn skipn pack_copy].
    destruct (pack_put _ p2) as [p3|] eqn:E3; [|discriminate].
    destruct (pack_put 2 p3) as [p4|] eqn:E4; [|discriminate].
    rewrite <- Ht. intros Hloop. apply IH in Hloop.
    rewrite pack_put_char in E1, E2, E3, E4.
    destruct (_ <=? _) in E1; [|discriminate].
    destruct (_ <=? _) in E2; [|discriminate].
    destruct (_ <=? _) in E3; [|discriminate].
    destruct (_ <=? _) in E4; [|discriminate].
    injection E1 as <-. injection E2 as <-. injection E3 as <-. injection E4 as <-.
    rewrite !length_app in Hloop. cbn [length] in Hloop. lia.
Qed.

Lemma overflow_line_abb : overflow_line = abb (Z.to_nat 34133).
Proof. reflexivity. Qed.

Lemma overflow_line_length : Z.of_nat (length overflow_line) = BUF_SIZE.
Proof. rewrite overflow_line_abb, abb_length. reflexivity. Qed.

Lemma overflow_line_bytes : Forall is_byte overflow_line.
Proof.
  rewrite overflow_line_abb. unfold abb. generalize (Z.to_nat 34133) as k.
  assert (H1 : is_byte 1) by (unfold is_byte; lia).
  assert (H2 : is_byte 2) by (unfold is_byte; lia).
  induction k as [|k IH]; cbn [repeat concat app]; auto.
Qed.

Lemma pack_line_overflow : pack_line overflow_line = None.
Proof.
  destruct (pack_line overflow_line) as [out|] eqn:E; [|reflexivity].
  exfalso. unfold pack_line in E.
  pose proof E as Hcap.
  apply pack_loop_segments in Hcap; [|cbn; unfold PACK_SIZE, BUF_SIZE; lia].
  destruct Hcap as (_ & _ & _ & _ & Hcap).
  rewrite overflow_line_abb in E. apply pack_loop_abb in E.
  rewrite Z2Nat.id in E by lia. cbn [length] in E.
  unfold PACK_SIZE, BUF_SIZE in Hcap. change (102400 * 5 / 4 + 1) with 128001 in Hcap.
  lia.
Qed.

(** *** The bound on the packed size *)

(** Six bytes that pack into eight: a literal of one byte and a run of
    two, twice.  The bound [n + ceil (n / 127)] would be seven. *)
Lemma pack_bound_counterexample :
  exists out,
    pack_line [1; 2; 2; 3; 4; 4] = Some out /\
    Z.of_nat (length [1; 2; 2; 3; 4; 4]) <= BUF_SIZE /\
    Z.of_nat (length out) > 6 + (6 + 126) / 127.
Proof.
  exists [0; 1; 255; 2; 0; 3; 255; 4]. split; [reflexivity|].
  split; [unfold BUF_SIZE; cbn; lia | cbn; lia].
Qed.

(** C10 as the program has it.  A range of at most 96000 bytes is packed
    with every store inside the array of 128001 bytes: the packed size of
    an [n]-byte range is at most [n + ceil (n / 3)], the size reached by
    a single byte followed by a pair of equal bytes, again and again. *)
Theorem pack_fits_array xs :
  Z.of_nat (length xs) <= 96000 ->
  exists out,
    pack_line xs = Some out /\
    Z.of_nat (length out) <=
      Z.of_nat (length xs) + (Z.of_nat (length xs) + 2) / 3 /\
    Z.of_nat (length out) <= PACK_SIZE.
Proof.
  intros Hlen. unfold pack_line.
  pose proof (worst_le xs) as Hw.
  assert (Hsize : PACK_SIZE = 128001) by reflexivity.
  destruct (pack_loop_total xs []) as (out & Hout & Hbound).
  { cbn [length]. lia. }
  exists out. split; [exact Hout|]. cbn [length] in Hbound.
  pose proof (Z.div_mod (Z.of_nat (length xs) + 2) 3 ltac:(lia)).
  pose proof (Z.mod_pos_bound (Z.of_nat (length xs) + 2) 3 ltac:(lia)).
  split; lia.
Qed.

Lemma pack_fits_array_witness :
  Z.of_nat (length [5; 5; 5; 5; 1; 2; 3; 3]) <= 96000 /\
  exists out,
    pack_line [5; 5; 5; 5; 1; 2; 3; 3] = Some out /\
    Z.of_nat (length out) <= 8 + (8 + 2) / 3.
Proof.
  assert (H : Z.of_nat (length [5; 5; 5; 5; 1; 2; 3; 3]) <= 96000)
    by (cbn; lia).
  split; [exact H|].
  destruct (pack_fits_array [5; 5; 5; 5; 1; 2; 3; 3] H) as (out & H1 & H2 & _).
  exists out. split; [exact H1 | exact H2].
Defined.

(** X28. The bound [n + ceil (n / 3)] on the packed size is reached: the
    line of [3 * k + 1] bytes 1, 2, 2, 1, 2, 2, ..., 1 takes two bytes for
    every single byte and two for every pair, [4 * k + 2] bytes in all,
    whenever it is packed. *)
Theorem pack_bound_reached k out :
  pack_line (abb k) = Some out ->
  Z.of_nat (length out) =
  Z.of_nat (length (abb k)) + (Z.of_nat (length (abb k)) + 2) / 3.
Proof.
  intros H. apply pack_loop_abb in H. cbn [length] in H.
  rewrite abb_length, H.
  replace (Z.of_nat (3 * k + 1) + 2) with ((Z.of_nat k + 1) * 3) by lia.
  rewrite Z.div_mul by lia. lia.
Qed.

Lemma pack_bound_reached_witness :
  pack_line [1; 2; 2; 1; 2; 2; 1] = Some [0; 1; 255; 2; 0; 1; 255; 2; 0; 1] /\
  Z.of_nat (length [0; 1; 255; 2; 0; 1; 255; 2; 0; 1]) = 7 + (7 + 2) / 3.
Proof.
  assert (H : pack_line (abb 2) = Some [0; 1; 255; 2; 0; 1; 255; 2; 0; 1])
    by reflexivity.
  split; [exact H|].
  exact (pack_bound_reached 2 _ H).
Defined.

End PackFacts.

(** ** [range_checks] *)
Module RangeFacts.

(** The nearest value of the interval from [lo] to [hi]. *)
Definition clamp (lo hi v : Z) : Z := Z.max lo (Z.min hi v).

(** Every bounded variable is inside its documented bounds. *)
Definition in_bounds (g : globals) : Prop :=
  0 <= raster_power g <= 100 /\
  1 <= raster_speed g <= 100 /\
  75 <= resolution g <= 1200 /\
  1 <= screen_size g /\
  10 <= vector_freq g <= 5000 /\
  0 <= vector_power g <= 100 /\
  1 <= vector_speed g <= 100.

Lemma check_hi_lo_clamp hi lo v :
  lo <= hi -> check_hi_lo hi lo v = clamp lo hi v.
Proof.
  intros H. unfold check_hi_lo, clamp.
  destruct (Z.gtb_spec v hi); destruct (Z.ltb_spec v lo); lia.
Qed.

Lemma check_lo_hi_clamp lo hi v :
  lo <= hi -> check_lo_hi lo hi v = clamp lo hi v.
Proof.
  intros H. unfold check_lo_hi, clamp.
  destruct (Z.gtb_spec v hi); destruct (Z.ltb_spec v lo); lia.
Qed.

Lemma check_lo_max lo v : check_lo lo v = Z.max lo v.
Proof. unfold check_lo. destruct (Z.ltb_spec v lo); lia. Qed.

Lemma clamp_bounds lo hi v : lo <= hi -> lo <= clamp lo hi v <= hi.
Proof. unfold clamp. lia. Qed.

Lemma clamp_inside lo hi v : lo <= v <= hi -> clamp lo hi v = v.
Proof. unfold clamp. lia. Qed.

Lemma check_hi_lo_bounds hi lo v : lo <= hi -> lo <= check_hi_lo hi lo v <= hi.
Proof. intros H. rewrite check_hi_lo_clamp by exact H. apply clamp_bounds, H. Qed.

Lemma check_lo_hi_bounds lo hi v : lo <= hi -> lo <= check_lo_hi lo hi v <= hi.
Proof. intros H. rewrite check_lo_hi_clamp by exact H. apply clamp_bounds, H. Qed.

Lemma range_checks_in_bounds g : in_bounds (range_checks g).
Proof.
  unfold in_bounds. destruct g. unfold range_checks.
  cbn [raster_power raster_speed resolution screen_size vector_freq
       vector_power vector_speed].
  repeat split;
    first [ apply check_hi_lo_bounds | apply check_lo_hi_bounds
          | rewrite check_lo_max ]; lia.
Qed.

Lemma range_checks_inside g : in_bounds g -> range_checks g = g.
Proof.
  intros (H1 & H2 & H3 & H4 & H5 & H6 & H7). destruct g. unfold range_checks.
  cbn [raster_power raster_speed resolution screen_size vector_freq
       vector_power vector_speed focus flip height job_name job_user job_title
       raster_mode raster_repeat queue width x_center x_repeat y_center
       y_repeat] in *.
  rewrite (check_hi_lo_clamp 1200 75), (check_hi_lo_clamp 100 1 raster_speed0),
    (check_hi_lo_clamp 100 0 raster_power0), (check_hi_lo_clamp 100 1 vector_speed0),
    (check_hi_lo_clamp 100 0 vector_power0), (check_lo_hi_clamp 10 5000),
    check_lo_max by lia.
  rewrite !clamp_inside by lia. rewrite Z.max_r by lia. reflexivity.
Qed.

Lemma range_checks_idempotent g : range_checks (range_checks g) = range_checks g.
Proof. apply range_checks_inside, range_checks_in_bounds. Qed.

(** C4.  [range_checks], which [main] runs on the options before
    anything is encoded, puts every bounded variable at the nearest value
    of its interval: raster power in 0..100, raster speed in 1..100,
    resolution in 75..1200, screen size at least 1, vector frequency in
    10..5000, vector power in 0..100, vector speed in 1..100.  It has no
    error result, it leaves values inside the bounds alone (so applying it
    twice changes nothing more), and [main] sees the options only through
    it.  A raster power of 150 becomes 100, a resolution of 50 becomes 75
    and a vector frequency of 6000 becomes 5000. *)
Theorem range_checks_clamp :
  (forall g,
      let g' := range_checks g in
      raster_power g' = clamp 0 100 (raster_power g) /\
      raster_speed g' = clamp 1 100 (raster_speed g) /\
      resolution g' = clamp 75 1200 (resolution g) /\
      screen_size g' = Z.max 1 (screen_size g) /\
      vector_freq g' = clamp 10 5000 (vector_freq g) /\
      vector_power g' = clamp 0 100 (vector_power g) /\
      vector_speed g' = clamp 1 100 (vector_speed g) /\
      in_bounds g') /\
  (forall g, in_bounds g <-> range_checks g = g) /\
  (forall g, range_checks (range_checks g) = range_checks g) /\
  (forall u r,
      Main.main u r =
      Main.main u {| Main.options := range_checks (Main.options r);
                     Main.host := Main.host r;
                     Main.hostname := Main.hostname r;
                     Main.bitmap := Main.bitmap r;
                     Main.vector := Main.vector r;
                     Main.net := Main.net r;
                     Main.printer_answers := Main.printer_answers r |}) /\
  check_hi_lo 100 0 150 = 100 /\
  check_hi_lo 1200 75 50 = 75 /\
  check_lo_hi 10 5000 6000 = 5000.
Proof.
  split; [|split; [|split; [|split; [|repeat split]]]].
  - intros g g'. subst g'. repeat split; try apply range_checks_in_bounds.
    + exact (check_hi_lo_clamp 100 0 (raster_power g) ltac:(lia)).
    + exact (check_hi_lo_clamp 100 1 (raster_speed g) ltac:(lia)).
    + exact (check_hi_lo_clamp 1200 75 (resolution g) ltac:(lia)).
    + exact (check_lo_max 1 (screen_size g)).
    + exact (check_lo_hi_clamp 10 5000 (vector_freq g) ltac:(lia)).
    + exact (check_hi_lo_clamp 100 0 (vector_power g) ltac:(lia)).
    + exact (check_hi_lo_clamp 100 1 (vector_speed g) ltac:(lia)).
  - intros g. split; [apply range_checks_inside|].
    intros <-. apply range_checks_in_bounds.
  - apply range_checks_idempotent.
  - intros u r. unfold Main.main. cbn [Main.options Main.host
      Main.hostname Main.bitmap Main.vector Main.net Main.printer_answers].
    rewrite range_checks_idempotent. reflexivity.
Qed.

End RangeFacts.

(** ** Statements and the output file *)
Module StmtFacts.

Lemma append_assoc (a b c : string) : ((a ++ b) ++ c = a ++ (b ++ c))%string.
Proof. induction a as [|x a IH]; cbn; [reflexivity | rewrite IH; reflexivity]. Qed.

Lemma append_nil_r (a : string) : (a ++ "" = a)%string.
Proof. induction a as [|x a IH]; cbn; [reflexivity | rewrite IH; reflexivity]. Qed.

Lemma append_length (a b : string) :
  String.length (a ++ b) = (String.length a + String.length b)%nat.
Proof. induction a as [|x a IH]; cbn; [reflexivity | rewrite IH; reflexivity]. Qed.

Lemma append_inv_head (a b c : string) : (a ++ b = a ++ c)%string -> b = c.
Proof. induction a as [|x a IH]; cbn; [auto | intros [= H]; auto]. Qed.

(** The world with another content of the PJL file. *)
Definition with_pjl (s : string) (w : world) : world :=
  {| vars := vars w; pjl_file := s; stderr := stderr w;
     bitmap_file := bitmap_file w |}.

Lemma with_pjl_same w : with_pjl (pjl_file w) w = w.
Proof. destruct w; reflexivity. Qed.

Lemma with_pjl_twice a b w : with_pjl a (with_pjl b w) = with_pjl a w.
Proof. reflexivity. Qed.

(** What a statement writes when it starts on an empty file. *)
Definition text {A} (m : stmt A) (w : world) : string :=
  pjl_file (snd (m (with_pjl "" w))).

(** A statement only adds to the PJL file, and nothing else of what it
    does depends on what the file holds. *)
Definition appending {A} (m : stmt A) : Prop :=
  forall w p,
    m (with_pjl p w) =
    (fst (m (with_pjl "" w)),
     with_pjl (p ++ text m w) (snd (m (with_pjl "" w)))).

Lemma appending_run {A} (m : stmt A) w :
  appending m ->
  m w = (fst (m (with_pjl "" w)),
         with_pjl (pjl_file w ++ text m w) (snd (m (with_pjl "" w)))).
Proof. intros H. rewrite <- (with_pjl_same w) at 1. apply H. Qed.

Lemma appending_ret {A} (a : A) : appending (ret a).
Proof. intros w p. unfold text. cbn. rewrite append_nil_r. reflexivity. Qed.

Lemma appending_halt {A} s : appending (@halt A s).
Proof. intros w p. unfold text. cbn. rewrite append_nil_r. reflexivity. Qed.

Lemma appending_return {A} b : appending (@return_ A b).
Proof. intros w p. unfold text. cbn. rewrite append_nil_r. reflexivity. Qed.

Lemma appending_emit s : appending (emit s).
Proof. intros w p. reflexivity. Qed.

Lemma appending_complain s : appending (complain s).
Proof. intros w p. unfold text. cbn. rewrite append_nil_r. reflexivity. Qed.

Lemma appending_get_vars : appending get_vars.
Proof. intros w p. unfold text. cbn. rewrite append_nil_r. reflexivity. Qed.

Lemma appending_put_vars g : appending (put_vars g).
Proof. intros w p. unfold text. cbn. rewrite append_nil_r. reflexivity. Qed.

Lemma appending_read_bitmap n : appending (read_bitmap n).
Proof.
  intros w p. unfold text, read_bitmap. cbn.
  destruct (fread n (bitmap_file w)). cbn. rewrite append_nil_r. reflexivity.
Qed.

Lemma appending_seek_bitmap n : appending (seek_bitmap n).
Proof. intros w p. unfold text. cbn. rewrite append_nil_r. reflexivity. Qed.

Lemma appending_bind {A B} (m : stmt A) (k : A -> stmt B) :
  appending m -> (forall a, appending (k a)) -> appending (bind m k).
Proof.
  intros Hm Hk w p. unfold text, bind.
  rewrite (Hm w p). unfold text.
  destruct (m (with_pjl "" w)) as [[a|s] w1] eqn:E; cbn [fst snd].
  - rewrite (Hk a w1 (p ++ pjl_file w1)%string).
    rewrite (appending_run (k a) w1 (Hk a)). cbn [fst snd pjl_file with_pjl].
    rewrite append_assoc. reflexivity.
  - reflexivity.
Qed.

Lemma appending_for_each {A} (xs : list A) body :
  (forall x, appending (body x)) -> appending (for_each xs body).
Proof.
  intros H. induction xs as [|x xs IH]; cbn [for_each].
  - apply appending_ret.
  - apply appending_bind; auto.
Qed.

Lemma appending_fold_each {A S} (xs : list A) (body : A -> S -> stmt S) :
  (forall x s, appending (body x s)) ->
  forall s, appending (fold_each xs body s).
Proof.
  intros H. induction xs as [|x xs IH]; intros s; cbn [fold_each].
  - apply appending_ret.
  - apply appending_bind; auto.
Qed.

Lemma appending_for_tiles dim rep body :
  (forall x, appending (body x)) -> appending (for_tiles dim rep body).
Proof.
  intros H. unfold for_tiles. destruct (_ && _).
  - apply appending_bind; [apply H | intros; apply appending_halt].
  - apply appending_for_each, H.
Qed.

Lemma appending_fold_tiles {S} dim rep (body : Z -> S -> stmt S) :
  (forall x s, appending (body x s)) ->
  forall s, appending (fold_tiles dim rep body s).
Proof.
  intros H s. unfold fold_tiles. destruct (_ && _).
  - apply appending_bind; [apply H | intros; apply appending_halt].
  - apply appending_fold_each, H.
Qed.

Lemma appending_call body : appending body -> appending (Pjl.call body).
Proof.
  intros H w p. unfold text, Pjl.call. rewrite (H w p). unfold text.
  destruct (body (with_pjl "" w)) as [[b|[b| |]] w1]; reflexivity.
Qed.

(** The proof that a statement built from the pieces above is
    [appending], by its shape. *)
Ltac appending :=
  repeat first
    [ apply appending_ret | apply appending_halt | apply appending_return
    | apply appending_emit | apply appending_complain
    | apply appending_get_vars | apply appending_put_vars
    | apply appending_read_bitmap | apply appending_seek_bitmap
    | apply appending_call
    | apply appending_for_tiles; intros
    | apply appending_for_each; intros
    | apply appending_fold_tiles; intros
    | apply appending_fold_each; intros
    | apply appending_bind; [|intros]
    | progress cbv zeta
    | match goal with
      | |- appending (if ?b then _ else _) => destruct b
      | |- appending (match ?x with _ => _ end) => destruct x
      | |- appending (let '(_, _) := ?x in _) => destruct x
      end ].

Lemma appending_generate_raster hdr : appending (Raster.generate_raster hdr).
Proof.
  assert (Hline : forall g h d pass y, appending (Raster.read_line g h d pass y)).
  { intros. unfold Raster.read_line. appending. }
  assert (Hprint : forall g bx by_ ox oy y dir line,
             appending (Raster.print_line g bx by_ ox oy y dir line)).
  { intros. unfold Raster.print_line. appending. }
  assert (Hscan : forall g h d bx by_ ox oy pass y dir,
             appending (Raster.scan_line g h d bx by_ ox oy pass y dir)).
  { intros. unfold Raster.scan_line. appending; auto. }
  assert (Hblock : forall bx by_ h, appending (Raster.raster_block bx by_ h)).
  { intros. unfold Raster.raster_block, Raster.load_header, Raster.raster_body.
    appending; auto. }
  assert (Hblocks : forall n bx by_ h, appending (Raster.raster_blocks n bx by_ h)).
  { induction n; intros; cbn [Raster.raster_blocks]; appending; auto. }
  unfold Raster.generate_raster. appending; auto.
Qed.

Lemma appending_generate_vector x0 y0 vec :
  appending (Vector.generate_vector x0 y0 vec).
Proof.
  assert (Hcmd : forall g bx by_ tag args st,
             appending (Vector.command g bx by_ x0 y0 tag args st)).
  { intros. unfold Vector.command, Vector.move, Vector.close, Vector.set_power,
      Vector.line. appending. }
  assert (Hcmds : forall g bx by_ lines st,
             appending (Vector.commands g bx by_ x0 y0 lines st)).
  { induction lines as [|buf lines IH]; intros; cbn [Vector.commands];
      appending; auto. }
  unfold Vector.generate_vector. appending; auto.
Qed.

(** *** What a statement leaves as it was *)

(** A relation between the world before and after, kept by every basic
    statement but [put_vars], is kept by what is built from them. *)
Section Respects.

Variable R : world -> world -> Prop.
Hypothesis R_refl : forall w, R w w.
Hypothesis R_trans : forall a b c, R a b -> R b c -> R a c.
Hypothesis R_emit : forall s w, R w (snd (emit s w)).
Hypothesis R_complain : forall s w, R w (snd (complain s w)).
Hypothesis R_read : forall n w, R w (snd (read_bitmap n w)).
Hypothesis R_seek : forall n w, R w (snd (seek_bitmap n w)).

Definition respects {A} (m : stmt A) : Prop := forall w, R w (snd (m w)).

Lemma respects_ret {A} (a : A) : respects (ret a).
Proof. intros w. apply R_refl. Qed.

Lemma respects_halt {A} s : respects (@halt A s).
Proof. intros w. apply R_refl. Qed.

Lemma respects_return {A} b : respects (@return_ A b).
Proof. intros w. apply R_refl. Qed.

Lemma respects_get_vars : respects get_vars.
Proof. intros w. apply R_refl. Qed.

Lemma respects_emit s : respects (emit s).
Proof. intros w. apply R_emit. Qed.

Lemma respects_complain s : respects (complain s).
Proof. intros w. apply R_complain. Qed.

Lemma respects_read_bitmap n : respects (read_bitmap n).
Proof. intros w. apply R_read. Qed.

Lemma respects_seek_bitmap n : respects (seek_bitmap n).
Proof. intros w. apply R_seek. Qed.

Lemma respects_bind {A B} (m : stmt A) (k : A -> stmt B) :
  respects m -> (forall a, respects (k a)) -> respects (bind m k).
Proof.
  intros Hm Hk w. unfold bind. specialize (Hm w).
  destruct (m w) as [[a|s] w1]; cbn [snd] in *; [|exact Hm].
  eapply R_trans; [exact Hm | apply Hk].
Qed.

Lemma respects_for_each {A} (xs : list A) body :
  (forall x, respects (body x)) -> respects (for_each xs body).
Proof.
  intros H. induction xs as [|x xs IH]; cbn [for_each].
  - apply respects_ret.
  - apply respects_bind; auto.
Qed.

Lemma respects_fold_each {A S} (xs : list A) (body : A -> S -> stmt S) :
  (forall x s, respects (body x s)) ->
  forall s, respects (fold_each xs body s).
Proof.
  intros H. induction xs as [|x xs IH]; intros s; cbn [fold_each].
  - apply respects_ret.
  - apply respects_bind; auto.
Qed.

Lemma respects_for_tiles dim rep body :
  (forall x, respects (body x)) -> respects (for_tiles dim rep body).
Proof.
  intros H. unfold for_tiles. destruct (_ && _).
  - apply respects_bind; [apply H | intros; apply respects_halt].
  - apply respects_for_each, H.
Qed.

Lemma respects_fold_tiles {S} dim rep (body : Z -> S -> stmt S) :
  (forall x s, respects (body x s)) ->
  forall s, respects (fold_tiles dim rep body s).
Proof.
  intros H s. unfold fold_tiles. destruct (_ && _).
  - apply respects_bind; [apply H | intros; apply respects_halt].
  - apply respects_fold_each, H.
Qed.

Lemma respects_call body : respects body -> respects (Pjl.call body).
Proof.
  intros H w. unfold Pjl.call. specialize (H w).
  destruct (body w) as [[b|[b| |]] w1]; exact H.
Qed.

End Respects.

Ltac respects :=
  repeat first
    [ apply respects_ret; solve [auto] | apply respects_halt; solve [auto]
    | apply respects_return; solve [auto]
    | apply respects_emit; solve [auto] | apply respects_complain; solve [auto]
    | apply respects_get_vars; solve [auto]
    | apply respects_read_bitmap; solve [auto]
    | apply respects_seek_bitmap; solve [auto]
    | apply respects_call; [solve [auto] ..|]
    | apply respects_for_tiles; [solve [auto] ..|intros ?]
    | apply respects_for_each; [solve [auto] ..|intros ?]
    | apply respects_fold_tiles; [solve [auto] ..|intros ? ?]
    | apply respects_fold_each; [solve [auto] ..|intros ? ?]
    | apply respects_bind; [solve [auto] ..| |intros ?]
    | progress cbv zeta
    | match goal with
      | |- respects _ (if ?b then _ else _) => destruct b
      | |- respects _ (match ?x with _ => _ end) => destruct x
      end ].

(** The global variables are the same after as before. *)
Definition same_vars (w w' : world) : Prop := vars w' = vars w.

(** The global variables are the same but for [width] and [height]. *)
Definition same_options (w w' : world) : Prop :=
  vars w' = set_size (width (vars w')) (height (vars w')) (vars w).

Lemma set_size_same g : set_size (width g) (height g) g = g.
Proof. destruct g; reflexivity. Qed.

Lemma same_vars_options w w' : same_vars w w' -> same_options w w'.
Proof. unfold same_vars, same_options. intros ->. symmetry. apply set_size_same. Qed.

Lemma same_options_trans a b c :
  same_options a b -> same_options b c -> same_options a c.
Proof. unfold same_options. intros H1 H2. rewrite H2, H1. reflexivity. Qed.

Section SameVars.

Local Hint Unfold same_vars : core.
Local Hint Extern 1 (same_vars _ _) => reflexivity : core.
Local Hint Extern 1 (forall w, same_vars w w) => intros; reflexivity : core.
Local Hint Extern 1 (forall a b c, same_vars a b -> same_vars b c -> same_vars a c)
  => (unfold same_vars; intros; congruence) : core.
Local Hint Extern 1 (forall s w, same_vars w (snd (_ s w)))
  => (intros; reflexivity) : core.
Local Hint Extern 1 (forall n w, same_vars w (snd (read_bitmap n w)))
  => (intros; unfold read_bitmap, same_vars;
      match goal with |- context [fread ?n ?f] => destruct (fread n f) end;
      reflexivity) : core.

Lemma same_vars_read_line g h d pass y :
  respects same_vars (Raster.read_line g h d pass y).
Proof. unfold Raster.read_line. respects. Qed.

Lemma same_vars_print_line g bx by_ ox oy y dir line :
  respects same_vars (Raster.print_line g bx by_ ox oy y dir line).
Proof. unfold Raster.print_line. respects. Qed.

Lemma same_vars_scan_line g h d bx by_ ox oy pass y dir :
  respects same_vars (Raster.scan_line g h d bx by_ ox oy pass y dir).
Proof.
  unfold Raster.scan_line. respects;
    first [apply same_vars_read_line | apply same_vars_print_line].
Qed.

Lemma same_vars_generate_vector x0 y0 vec :
  respects same_vars (Vector.generate_vector x0 y0 vec).
Proof.
  assert (Hcmd : forall g bx by_ tag args st,
             respects same_vars (Vector.command g bx by_ x0 y0 tag args st)).
  { intros. unfold Vector.command, Vector.move, Vector.close,
      Vector.set_power, Vector.line. respects. }
  assert (Hcmds : forall g bx by_ lines st,
             respects same_vars (Vector.commands g bx by_ x0 y0 lines st)).
  { induction lines as [|buf lines IH]; intros; cbn [Vector.commands];
      respects; auto. }
  unfold Vector.generate_vector. respects; auto.
Qed.

Lemma same_vars_raster_body bx by_ off :
  respects same_vars (Raster.raster_body bx by_ off).
Proof.
  unfold Raster.raster_body. respects;
    first [ apply same_vars_read_line | apply same_vars_print_line
          | apply same_vars_scan_line ].
Qed.

End SameVars.

Lemma same_options_generate_raster hdr :
  respects same_options (Raster.generate_raster hdr).
Proof.
  assert (Hrefl : forall w, same_options w w).
  { intros w. apply same_vars_options. reflexivity. }
  pose proof same_options_trans as Htrans.
  assert (Hload : forall h, respects same_options (Raster.load_header h)).
  { intros h w. unfold Raster.load_header, bind, read_bitmap, get_vars,
      put_vars, ret. destruct (fread _ _). cbn. reflexivity. }
  assert (Hbody : forall bx by_ off,
             respects same_options (Raster.raster_body bx by_ off)).
  { intros bx by_ off w. apply same_vars_options, same_vars_raster_body. }
  assert (Hblock : forall bx by_ h,
             respects same_options (Raster.raster_block bx by_ h)).
  { intros. unfold Raster.raster_block.
    apply respects_bind; [auto | auto |].
    intros loaded. apply respects_bind; [auto | auto |].
    intros _. apply respects_ret; auto. }
  assert (Hblocks : forall n bx by_ h,
             respects same_options (Raster.raster_blocks n bx by_ h)).
  { induction n; intros; cbn [Raster.raster_blocks].
    - apply respects_ret; auto.
    - apply respects_bind; auto. }
  unfold Raster.generate_raster.
  apply respects_bind; [auto | apply respects_get_vars; auto |].
  intros g. apply respects_bind; [auto | | intros; apply respects_ret; auto].
  destruct (_ <? _).
  - apply respects_bind; [auto | auto | intros; apply respects_halt; auto].
  - auto.
Qed.

End StmtFacts.

(** ** [generate_pjl] *)
Module PjlFacts.
Import StmtFacts.

(** The world [main] starts the encoding in. *)
Definition start (g : globals) (bitmap : list Z) : world :=
  {| vars := g; pjl_file := EmptyString; stderr := [];
     bitmap_file := fopen bitmap |}.

(** A call comes back: it neither runs for ever nor leaves an array. *)
Definition comes_back {A} (r : flow A * world) : Prop :=
  exists a, fst r = Next a.

Lemma call_flow body w :
  (exists b, fst (Pjl.call body w) = Next b) \/
  fst (Pjl.call body w) = Stop Loops \/
  fst (Pjl.call body w) = Stop Undefined.
Proof.
  unfold Pjl.call. destruct (body w) as [[b|[b| |]] w1]; cbn; eauto.
Qed.

Lemma bind_emit {B} s (k : unit -> stmt B) w :
  bind (emit s) k w = k tt (with_pjl (pjl_file w ++ s) w).
Proof. reflexivity. Qed.

Lemma bind_get_vars {B} (k : globals -> stmt B) w :
  bind get_vars k w = k (vars w) w.
Proof. reflexivity. Qed.

Lemma bind_ret {A B} (a : A) (k : A -> stmt B) w : bind (ret a) k w = k a w.
Proof. reflexivity. Qed.

Lemma bind_flow {A B} (m : stmt A) (k : A -> stmt B) w :
  bind m k w =
  match m w with
  | (Next a, w') => k a w'
  | (Stop s, w') => (Stop s, w')
  end.
Proof. reflexivity. Qed.

Lemma bind_bind {A B C} (m : stmt A) (k : A -> stmt B) (h : B -> stmt C) w :
  bind (bind m k) h w = bind m (fun a => bind (k a) h) w.
Proof. unfold bind. destruct (m w) as [[a|s] w1]; reflexivity. Qed.

Lemma pjl_file_with p w : pjl_file (with_pjl p w) = p.
Proof. reflexivity. Qed.

Lemma vars_with p w : vars (with_pjl p w) = vars w.
Proof. reflexivity. Qed.

Ltac step :=
  first [ rewrite bind_bind | rewrite bind_emit | rewrite bind_ret
        | rewrite bind_get_vars | rewrite with_pjl_twice
        | rewrite pjl_file_with | rewrite vars_with ].

(** A call whose body only appends, inside a sequence. *)
Lemma bind_call {B} body (k : bool -> stmt B) w :
  appending body ->
  bind (Pjl.call body) k w =
  let r := Pjl.call body (with_pjl "" w) in
  match fst r with
  | Next b => k b (with_pjl (pjl_file w ++ pjl_file (snd r)) (snd r))
  | Stop s => (Stop s, with_pjl (pjl_file w ++ pjl_file (snd r)) (snd r))
  end.
Proof.
  intros H. unfold bind.
  rewrite (appending_run _ w (appending_call _ H)). unfold text. cbn zeta.
  destruct (fst (Pjl.call body (with_pjl "" w))); reflexivity.
Qed.

Lemma raster_wanted_positive g :
  0 <= raster_power g ->
  Pjl.raster_wanted g =
  (0 <? raster_power g) && negb (Ascii.eqb (raster_mode g) "n").
Proof.
  intros H. unfold Pjl.raster_wanted, Raster.is_mode.
  destruct (Z.eqb_spec (raster_power g) 0), (Z.ltb_spec 0 (raster_power g));
    try reflexivity; lia.
Qed.

Lemma vector_wanted_positive g :
  0 <= vector_power g -> Pjl.vector_wanted g = (0 <? vector_power g).
Proof.
  intros H. unfold Pjl.vector_wanted.
  destruct (Z.eqb_spec (vector_power g) 0), (Z.ltb_spec 0 (vector_power g));
    try reflexivity; lia.
Qed.

Lemma call_raster_options hdr w :
  same_options w (snd (Pjl.call (Raster.generate_raster hdr) w)).
Proof.
  apply respects_call, same_options_generate_raster.
Qed.

Lemma trailer_length : String.length Pjl.trailer = 4096%nat.
Proof.
  unfold Pjl.trailer. generalize 4096%nat as n.
  induction n as [|n IH]; cbn; [reflexivity | rewrite IH; reflexivity].
Qed.

(** The file [generate_pjl] writes when the calls of [generate_raster]
    and [generate_vector] that the job needs come back: the header, the
    page setup, the raster block with its introduction when it is wanted,
    the vector page reset and the vector block when they are wanted, the
    footer and the trailer. *)
Lemma layout_when_back g0 hdr x0 y0 bitmap vec :
  let g := range_checks g0 in
  let w := start g bitmap in
  let raster := Pjl.call (Raster.generate_raster hdr) w in
  let w1 := if Pjl.raster_wanted g then snd raster else w in
  let vector :=
    Pjl.call (Vector.generate_vector x0 y0 vec) (with_pjl "" w1) in
  (Pjl.raster_wanted g = true -> comes_back raster) ->
  (Pjl.vector_wanted g = true -> comes_back vector) ->
  exists w',
    Pjl.generate_pjl hdr x0 y0 vec w = (Next true, w') /\
    pjl_file w' =
      (Pjl.header g ++ Pjl.page_setup g
       ++ (if ((0 <? raster_power g)%Z
                  && negb (Ascii.eqb (raster_mode g) "n"))%bool
           then Pjl.raster_intro ++ pjl_file (snd raster) else "")
       ++ (if (0 <? vector_power g)%Z
           then Pjl.vector_intro (vars w1) ++ pjl_file (snd vector) else "")
       ++ Pjl.footer ++ Pjl.trailer)%string /\
    Pjl.trailer = string_of_bytes (repeat 0 4096) /\
    String.length Pjl.trailer = 4096%nat.
Proof.
  intros g w raster w1 vector Hr Hv.
  pose proof (RangeFacts.range_checks_in_bounds g0) as (Hrp & _ & _ & _ & _ & Hvp & _).
  fold g in Hrp, Hvp.
  rewrite <- (raster_wanted_positive g) by lia.
  rewrite <- (vector_wanted_positive g) by lia.
  assert (Hvars : Pjl.vector_wanted (vars w1) = Pjl.vector_wanted g).
  { unfold w1. destruct (Pjl.raster_wanted g); [|reflexivity].
    pose proof (call_raster_options hdr w) as H. fold raster in H.
    unfold same_options in H. rewrite H. reflexivity. }
  assert (Hfile : pjl_file w = ""%string) by reflexivity.
  assert (Hw : with_pjl "" w = w) by reflexivity.
  assert (Hg : vars w = g) by reflexivity.
  assert (Hdone : forall p q w2,
             p = q ->
             exists w',
               (Next true, with_pjl p w2) = (Next true, w') /\
               pjl_file w' = q /\
               Pjl.trailer = string_of_bytes (repeat 0 4096) /\
               String.length Pjl.trailer = 4096%nat).
  { intros p q w2 ->. eexists. split; [reflexivity|].
    split; [reflexivity|]. split; [reflexivity | apply trailer_length]. }
  unfold Pjl.generate_pjl.
  repeat step. rewrite Hg, Hfile.
  destruct (Pjl.raster_wanted g) eqn:Ew.
  - destruct (Hr eq_refl) as [b Hb].
    repeat step.
    rewrite bind_call by apply appending_generate_raster.
    cbn zeta. repeat step. rewrite Hw. fold raster. rewrite Hb.
    repeat step. change (vars (snd raster)) with (vars w1).
    rewrite Hvars.
    destruct (Pjl.vector_wanted g) eqn:Ev.
    + destruct (Hv eq_refl) as [b' Hb'].
      repeat step.
      rewrite bind_call by apply appending_generate_vector.
      cbn zeta. repeat step.
      change (with_pjl "" (snd raster)) with (with_pjl "" w1).
      fold vector. rewrite Hb'.
      repeat step. unfold ret. apply Hdone.
      cbn [append]. rewrite !append_assoc. reflexivity.
    + repeat step. unfold ret. apply Hdone.
      cbn [append]. rewrite !append_assoc. reflexivity.
  - repeat step. rewrite Hg.
    change g with (vars w1) at 1. rewrite Hvars.
    destruct (Pjl.vector_wanted g) eqn:Ev.
    + destruct (Hv eq_refl) as [b' Hb'].
      repeat step.
      rewrite bind_call by apply appending_generate_vector.
      cbn zeta. repeat step.
      change (with_pjl "" w) with (with_pjl "" w1).
      fold vector. rewrite Hb'.
      repeat step. unfold ret. apply Hdone.
      cbn [append]. rewrite !append_assoc. reflexivity.
    + repeat step. unfold ret. apply Hdone.
      cbn [append]. rewrite !append_assoc. reflexivity.
Qed.

(** *** A small job *)

(** Four bytes, least significant first. *)
Definition le32 (v : Z) : list Z :=
  [v mod 256; (v / 256) mod 256; (v / 65536) mod 256; (v / 16777216) mod 256].

(** A bitmap file of 54 header bytes and the rows: the data offset at
    byte 10, the width at byte 18 and the height at byte 22. *)
Definition bmp (w h : Z) (data : list Z) : list Z :=
  repeat 0 10 ++ le32 54 ++ repeat 0 4 ++ le32 w ++ le32 h ++ repeat 0 28
  ++ data.

(** Two rows of sixteen mono pixels, each row padded to four bytes. *)
Definition small_bitmap : list Z := bmp 16 2 [0; 255; 0; 0; 1; 1; 0; 0].

(** The same file with its last byte missing. *)
Definition short_bitmap : list Z := bmp 16 2 [0; 255; 0; 0; 1; 1; 0].

Definition small_vector : list string :=
  ["M0,0"; "P50"; "L100,0"; "C"]%string.

Definition small_options : globals := initial_globals "job" "user".

Definition blank_header : list Z := repeat 0 54.

(** *** The value of [generate_pjl] *)

(** A result that is true when there is one. *)
Definition true_or_lost (r : flow bool * world) : Prop :=
  (exists w', r = (Next true, w')) \/
  fst r = Stop Loops \/ fst r = Stop Undefined.

Lemma true_or_lost_call body (k : bool -> stmt bool) w :
  (forall b w1, true_or_lost (k b w1)) ->
  true_or_lost (bind (Pjl.call body) k w).
Proof.
  intros H. unfold bind.
  pose proof (call_flow body w) as Hc.
  destruct (Pjl.call body w) as [[b|s] w1]; cbn [fst] in Hc.
  - apply H.
  - right. destruct Hc as [[b Hb]|[Hc|Hc]]; [discriminate | |]; cbn; auto.
Qed.

(** X25. [generate_pjl] has no [return false] and drops the values of
    [generate_raster] and [generate_vector]: whatever the options and the
    files, when it comes back it is with true, so the branch of [main]
    that reports a failed generation is never taken. *)
Theorem generate_pjl_true hdr x0 y0 vec w :
  true_or_lost (Pjl.generate_pjl hdr x0 y0 vec w).
Proof.
  assert (Hend : forall w2,
             true_or_lost ((emit Pjl.footer ;; emit Pjl.trailer ;; ret true)%stmt w2)).
  { intros w2. left. repeat step. eexists. reflexivity. }
  assert (Htail : forall w2,
             true_or_lost
               ((g <- get_vars ;;
                 (if Pjl.vector_wanted g
                  then emit (Pjl.vector_intro g) ;;
                       _ <- Pjl.call (Vector.generate_vector x0 y0 vec) ;;
                       ret tt
                  else ret tt) ;;
                 emit Pjl.footer ;; emit Pjl.trailer ;; ret true)%stmt w2)).
  { intros w2. repeat step. destruct (Pjl.vector_wanted (vars w2)).
    - repeat step. apply true_or_lost_call. intros b w3.
      rewrite bind_ret. apply Hend.
    - rewrite bind_ret. apply Hend. }
  unfold Pjl.generate_pjl. repeat step.
  destruct (Pjl.raster_wanted (vars w)).
  - repeat step. apply true_or_lost_call. intros b w3.
    rewrite bind_ret. apply Htail.
  - rewrite bind_ret. apply Htail.
Qed.

End PjlFacts.

(** ** [printer_connect] and [printer_send] *)
Module PrinterFacts.
Import Printer.

(** C7.  Whatever the connection attempt gave, when the byte in [lpdres]
    after the [read] that follows the queue command is not zero,
    [printer_send] returns false, has written to the socket nothing after
    the queue command (no control file, no data), and has put on [stderr]
    the line that names the host and the response code. *)
Theorem queue_refused g host hostname lpdres0 net pjl k :
  let connected := printer_connect host PRINTER_MAX_WAIT net k in
  let fd := fst connected in
  let k1 := write fd (STX ++ queue g ++ LF) (snd connected) in
  let ack := fst (read fd lpdres0 k1) in
  ack <> 0 ->
  let result := printer_send g host hostname lpdres0 net pjl k in
  fst result = false /\
  sent (snd result) = sent k1 /\
  errors (snd result) =
    errors k1 ++ ["Bad response from " ++ host ++ ", " ++ fmt_d ack ++ LF]%string.
Proof.
  intros connected fd k1 ack Hack result. subst result.
  unfold printer_send. fold connected.
  destruct connected as [fd' k0] eqn:E. cbn [fst snd] in *. subst fd.
  fold k1. subst ack. destruct (read fd' lpdres0 k1) as [v k2] eqn:Er.
  cbn [fst] in Hack. destruct (Z.eqb_spec v 0) as [->|_]; [contradiction|].
  cbn [negb fst snd log sent errors].
  assert (Hk2 : sent k2 = sent k1 /\ errors k2 = errors k1).
  { unfold read in Er. destruct (fd' <? 0).
    - injection Er as _ <-. auto.
    - destruct (answers k1); injection Er as _ <-; auto. }
  destruct Hk2 as [-> ->]. auto.
Qed.

(** A printer that is reached at once and answers the queue command
    with 1. *)
Definition reached : nat -> resolution_result :=
  fun _ => Some [ {| shown := "10.0.0.2:515"; socket_result := 3;
                     connect_ok := true |} ].

Definition idle (bytes : list Z) : link :=
  {| sent := []; answers := bytes; errors := []; slept := 0 |}.

Lemma queue_refused_witness :
  fst (read 3 0 (write 3 (STX ++ LF)
                   (snd (printer_connect "laser" PRINTER_MAX_WAIT reached
                           (idle [1]))))) <> 0 /\
  fst (printer_send PjlFacts.small_options "laser" "pc.lan" 0 reached
         "job" (idle [1])) = false /\
  sent (snd (printer_send PjlFacts.small_options "laser" "pc.lan" 0 reached
               "job" (idle [1]))) = [(STX ++ LF)%string].
Proof.
  assert (H : fst (read 3 0 (write 3 (STX ++ LF)
                     (snd (printer_connect "laser" PRINTER_MAX_WAIT reached
                             (idle [1]))))) <> 0)
    by (vm_compute; discriminate).
  split; [exact H|].
  destruct (queue_refused PjlFacts.small_options "laser" "pc.lan" 0 reached
              "job" (idle [1]) H) as (H1 & H2 & _).
  split; [exact H1|]. rewrite H2. vm_compute. reflexivity.
Defined.

(** *** Connection attempts that all fail *)




(** The printer that refuses every connection. *)
Definition unreachable : nat -> resolution_result :=
  fun _ => Some [ {| shown := "10.0.0.2:515"; socket_result := 3;
                     connect_ok := false |} ].

(** C8.  With a printer that refuses every connection, [printer_connect]
    sleeps 300 times one second, prints that it cannot connect and
    returns -1.  [printer_send] does not look at that value: it goes on
    with the descriptor -1, on which nothing is sent and nothing is read,
    and tests [lpdres], which no [read] has set.  When that byte is 0 the
    function goes through the whole protocol and returns true, and [main]
    ends with 0. *)
Theorem connect_failure_unchecked :
  let connected := printer_connect "laser" PRINTER_MAX_WAIT unreachable (idle []) in
  fst connected = -1 /\
  slept (snd connected) = 300 /\
  sent (snd connected) = [] /\
  last (errors (snd connected)) ""%string = ("Cannot connect to laser" ++ LF)%string /\
  (forall lpdres,
      sent (snd (printer_send PjlFacts.small_options "laser" "pc.lan" lpdres
                   unreachable "job" (idle []))) = []) /\
  fst (printer_send PjlFacts.small_options "laser" "pc.lan" 0 unreachable
         "job" (idle [])) = true /\
  (exists w k,
      Main.main
        {| Main.bitmap_header := PjlFacts.blank_header;
           Main.x0 := 0; Main.y0 := 0; Main.lpdres := 0 |}
        {| Main.options := PjlFacts.small_options;
           Main.host := "laser";
           Main.hostname := "pc.lan";
           Main.bitmap := PjlFacts.small_bitmap;
           Main.vector := PjlFacts.small_vector;
           Main.net := unreachable;
           Main.printer_answers := [] |} = Some (0, w, k) /\
      sent k = []).
Proof.
  cbn zeta.
  split; [vm_compute; reflexivity|].
  split; [vm_compute; reflexivity|].
  split; [vm_compute; reflexivity|].
  split; [vm_compute; reflexivity|].
  split; [|split].
  - intros lpdres. unfold printer_send.
    destruct (printer_connect _ _ _ _) as [fd k] eqn:E.
    assert (fd = -1 /\ k = snd (printer_connect "laser" PRINTER_MAX_WAIT
                                 unreachable (idle []))) as [-> Hk].
    { rewrite E. split; [|reflexivity].
      change fd with (fst (fd, k)). rewrite <- E. vm_compute. reflexivity. }
    assert (Hs : sent k = []) by (rewrite Hk; vm_compute; reflexivity).
    cbn [write read Z.ltb Z.compare].
    destruct (negb (lpdres =? 0)); cbn [snd log sent]; [exact Hs|].
    assert (Hw : forall ps k', sent k' = [] -> sent (write_all (-1) ps k') = []).
    { induction ps as [|p ps IH]; intros k' Hk'; cbn [write_all]; auto. }
    unfold printer_disconnect. cbn [Z.ltb Z.compare snd log sent].
    apply Hw. cbn [log sent]. exact Hs.
  - vm_compute. reflexivity.
  - eexists. eexists. split; vm_compute; reflexivity.
Qed.

End PrinterFacts.

(** ** The end of [main] *)
Module MainFacts.
Import StmtFacts PjlFacts.

(** The run on the bitmap that is one byte short, with a printer that
    takes everything. *)
Definition short_run : Main.run :=
  {| Main.options := small_options;
     Main.host := "laser";
     Main.hostname := "pc.lan";
     Main.bitmap := short_bitmap;
     Main.vector := small_vector;
     Main.net := PrinterFacts.reached;
     Main.printer_answers := [0; 0; 0; 0] |}.

Definition zeroed : Main.unset :=
  {| Main.bitmap_header := blank_header;
     Main.x0 := 0; Main.y0 := 0; Main.lpdres := 0 |}.

(** The first line of the small bitmap as the raster block holds it. *)
Definition first_line : string :=
  (ESC ++ "*p1Y" ++ ESC ++ "*p8X" ++ ESC ++ "*b1A" ++ ESC ++ "*b8W"
   ++ string_of_bytes [0; 255; 128; 128; 128; 128; 128; 128])%string.

(** C3.  On a bitmap whose second row is one byte short,
    [generate_raster] prints the bad-data line and returns false after
    the first line of the block, with nothing of the block after it.  But
    [generate_pjl] drops that value: it goes on with the vector block,
    the footer and the trailer and returns true, and [main] sends the
    file, which holds the broken raster block, to the printer and ends
    with 0. *)
Theorem short_read_job_is_sent :
  let g := range_checks small_options in
  let w := start g short_bitmap in
  let raster := Raster.generate_raster blank_header w in
  fst raster = Stop (Returned false) /\
  stderr (snd raster) = [Raster.bad_data 3 4 0] /\
  pjl_file (snd raster) =
    (Raster.raster_intro (vars (snd raster)) ++ first_line)%string /\
  (exists w',
      Pjl.generate_pjl blank_header 0 0 small_vector w = (Next true, w') /\
      pjl_file w' =
        (Pjl.header g ++ Pjl.page_setup g ++ Pjl.raster_intro
         ++ pjl_file (snd raster)
         ++ Pjl.vector_intro (vars (snd raster))
         ++ text (Vector.generate_vector 0 0 small_vector) (snd raster)
         ++ Pjl.footer ++ Pjl.trailer)%string /\
      exists k,
        Main.main zeroed short_run = Some (0, w', k) /\
        last (Printer.sent k) ""%string = pjl_file w').
Proof.
  cbn zeta.
  split; [vm_compute; reflexivity|].
  split; [vm_compute; reflexivity|].
  split; [vm_compute; reflexivity|].
  eexists. split; [vm_compute; reflexivity|].
  split; [vm_compute; reflexivity|].
  eexists. split; vm_compute; reflexivity.
Qed.

End MainFacts.

(** ** [generate_vector] *)
Module VectorFacts.
Import StmtFacts PjlFacts.

(** *** The power command *)

(** The factor of the compensation,
    [min (10000 / x, 10000 / speed, 500000 / frequency)]. *)
Definition scale_factor (g : globals) (x : Z) : Z :=
  Z.min (Z.quot 10000 x)
    (Z.min (Z.quot 10000 (vector_speed g)) (Z.quot 500000 (vector_freq g))).

(** A value times [r / 100], rounded with [+ 50]. *)
Definition rescale (r v : Z) : Z := Z.quot (50 + v * r) 100.

(** X26. What the compensation block of the [P] command computes, for
    any options and any power below 100 that is not zero: the power and
    the speed times the factor [r / 100], and for the frequency the
    speed it has just computed, times the factor again; the frequency of
    the options is not used. *)
Theorem compensate_values g x epower :
  epower <> 0 -> x < 100 -> x <> 0 ->
  vector_speed g <> 0 -> vector_freq g <> 0 ->
  let r := scale_factor g x in
  Vector.compensate g x epower =
  Some (rescale r epower, rescale r (vector_speed g),
        rescale r (rescale r (vector_speed g))).
Proof.
  intros He Hx Hx0 Hs Hf r. subst r. unfold Vector.compensate, scale_factor, rescale.
  destruct (Z.eqb_spec epower 0); [contradiction|].
  destruct (Z.ltb_spec x 100); [|lia]. cbn [negb andb].
  destruct (Z.eqb_spec x 0); [contradiction|].
  destruct (Z.eqb_spec (vector_speed g) 0); [contradiction|].
  destruct (Z.eqb_spec (vector_freq g) 0); [contradiction|]. cbn [orb].
  set (a := Z.quot 10000 x). set (b := Z.quot 10000 (vector_speed g)).
  set (c := Z.quot 500000 (vector_freq g)).
  assert (Hr : (if c <? (if b <? a then b else a)
                then c else if b <? a then b else a) = Z.min a (Z.min b c)).
  { destruct (Z.ltb_spec b a); destruct (Z.ltb_spec c b);
      destruct (Z.ltb_spec c a); lia. }
  rewrite Hr. reflexivity.
Qed.

Lemma compensate_values_witness :
  Vector.compensate (range_checks small_options) 50 25 = Some (25, 30, 30).
Proof.
  rewrite (compensate_values (range_checks small_options) 50 25);
    [reflexivity | lia | lia | lia | cbn; lia | cbn; lia].
Defined.

(** The options of the program as they are without any command-line
    option: speed 30, frequency 5000, power 50. *)
Definition default_options : globals := range_checks small_options.

(** C2.  With the default options (vector speed 30, frequency 5000,
    power 50) the command [P50] asks for a change of power below a full
    speed.  The factor is [min (200, 333, 100) = 100], so power, speed
    and frequency times [r / 100] would be 25, 30 and 5000.  The program
    sends [ZS030] and [YP025] but [XR0030]: its frequency is the speed
    it has just computed, rescaled once more, and not the configured
    frequency rescaled. *)
Theorem power_change_frequency :
  let g := default_options in
  let epower := Z.quot (50 * vector_power g + 50) 100 in
  let r := scale_factor g 50 in
  r = 100 /\
  rescale r epower = 25 /\
  rescale r (vector_speed g) = 30 /\
  rescale r (vector_freq g) = 5000 /\
  Vector.compensate g 50 epower = Some (25, 30, 30) /\
  text (Vector.generate_vector 0 0 ["P50"%string]) (start g [])
  = ("IN;XR5000;YP050;ZS030;" ++ ";ZS030;XR0030;" ++ ";YP025;"
     ++ ESC ++ "%0B" ++ ESC ++ "%1BPU")%string.
Proof. cbn zeta. repeat split; vm_compute; reflexivity. Qed.

(** *** The four commands [M0,0], [P50], [L100,0], [C] *)

(** The first place at which a text occurs in the output comes before
    the first place of another. *)
Definition before (a b out : string) : Prop :=
  match index 0 a out, index 0 b out with
  | Some i, Some j => (i < j)%nat
  | _, _ => False
  end.

(** The options with the vector speed at 100, as the scenario has it. *)
Definition full_speed (g : globals) : globals :=
  {| focus := focus g; flip := flip g; height := height g;
     job_name := job_name g; job_user := job_user g;
     job_title := job_title g; resolution := resolution g;
     raster_mode := raster_mode g; raster_speed := raster_speed g;
     raster_power := raster_power g; raster_repeat := raster_repeat g;
     screen_size := screen_size g; queue := queue g;
     vector_speed := 100;
     vector_power := vector_power g; vector_freq := vector_freq g;
     width := width g; x_center := x_center g; x_repeat := x_repeat g;
     y_center := y_center g; y_repeat := y_repeat g |}.

Definition scenario_output : string :=
  text (Vector.generate_vector 0 0 small_vector)
    (start (full_speed default_options) []).

(** The order the claim gives: pen-up move, power, pen-down line, close.
    In the output the power command comes first, because the pen-up move
    is only written when the line is drawn. *)
Lemma scenario_order_counterexample :
  ~ (before "PU0,0" ";YP025;" scenario_output /\
     before ";YP025;" ";PD" scenario_output /\
     before ";PD" ",0,0" scenario_output).
Proof.
  intros [H _]. unfold before in H.
  assert (H1 : index 0 "PU0,0" scenario_output = Some 29%nat)
    by (vm_compute; reflexivity).
  assert (H2 : index 0 ";YP025;" scenario_output = Some 22%nat)
    by (vm_compute; reflexivity).
  rewrite H1, H2 in H. lia.
Qed.

Lemma countdown_once dim : 0 < dim -> countdown dim 1 = [0].
Proof.
  intros H. unfold countdown. replace (dim * (1 - 1)) with 0 by lia.
  cbn [Z.ltb Z.compare]. rewrite Z.quot_0_l by lia. cbn. f_equal. lia.
Qed.

Lemma fold_tiles_once {S} dim (body : Z -> S -> stmt S) s :
  0 < dim -> fold_tiles dim 1 body s = bind (body 0 s) ret.
Proof.
  intros H. unfold fold_tiles. rewrite countdown_once by exact H.
  replace (dim * (1 - 1)) with 0 by lia.
  destruct (Z.leb_spec dim 0); [lia|]. reflexivity.
Qed.

Lemma base_zero size res : Raster.base 0 size res = 0.
Proof. reflexivity. Qed.

(** C9 as the program has it.  With a vector speed of 100, one tile and
    no centering, the commands [M0,0], [P50], [L100,0], [C] give, after
    the preamble of the tile: the power command [YP] with the nominal
    power times 50 / 100 (rounded), then the pen-up move [PU0,0], which
    is written only when the line is drawn, then the pen-down line
    [PD0,100] (the two numbers of [L] are read as y and x and written
    as x and y), then the closing point [,0,0], and the end of the vector
    block.  No speed or frequency command is sent. *)
Theorem scenario_commands g x0 y0 bitmap :
  vector_speed g = 100 ->
  x_repeat g = 1 -> y_repeat g = 1 ->
  x_center g = 0 -> y_center g = 0 ->
  0 < width g -> 0 < height g ->
  let run := Vector.generate_vector x0 y0 small_vector (start g bitmap) in
  fst run = Next true /\
  pjl_file (snd run) =
    ("IN;" ++ "XR" ++ fmt_0d 4 (vector_freq g) ++ ";"
     ++ "YP" ++ fmt_0d 3 (vector_power g) ++ ";"
     ++ "ZS100;"
     ++ ";YP" ++ fmt_0d 3 (Z.quot (50 * vector_power g + 50) 100) ++ ";"
     ++ "PU0,0" ++ ";PD" ++ "0,100" ++ ",0,0" ++ ";"
     ++ ESC ++ "%0B" ++ ESC ++ "%1BPU")%string.
Proof.
  intros Hs Hxr Hyr Hxc Hyc Hw Hh run. subst run.
  unfold Vector.generate_vector. rewrite bind_get_vars.
  change (vars (start g bitmap)) with g.
  rewrite Hxr, Hyr, Hxc, Hyc, !base_zero.
  rewrite bind_flow, fold_tiles_once by exact Hh.
  rewrite bind_flow, fold_tiles_once by exact Hw.
  unfold small_vector, Vector.initial_pen, start, Vector.commands,
    Vector.command, Vector.set_power.
  rewrite Hs.
  cbv -[fmt_0d Z.quot append].
  split; [reflexivity|].
  rewrite !append_assoc. reflexivity.
Qed.

Lemma scenario_commands_witness :
  vector_speed (full_speed default_options) = 100 /\
  0 < width (full_speed default_options) /\
  0 < height (full_speed default_options) /\
  scenario_output =
    ("IN;XR5000;YP050;ZS100;" ++ ";YP025;" ++ "PU0,0" ++ ";PD0,100" ++ ",0,0"
     ++ ";" ++ ESC ++ "%0B" ++ ESC ++ "%1BPU")%string.
Proof.
  split; [reflexivity|]. split; [reflexivity|]. split; [reflexivity|].
  exact (proj2 (scenario_commands (full_speed default_options) 0 0 []
                  eq_refl eq_refl eq_refl eq_refl eq_refl eq_refl eq_refl)).
Defined.

(** The order of the four commands in the output of the scenario. *)
Lemma scenario_order :
  before ";YP025;" "PU0,0" scenario_output /\
  before "PU0,0" ";PD0,100" scenario_output /\
  before ";PD0,100" ",0,0" scenario_output.
Proof.
  assert (H1 : index 0 ";YP025;" scenario_output = Some 22%nat)
    by (vm_compute; reflexivity).
  assert (H2 : index 0 "PU0,0" scenario_output = Some 29%nat)
    by (vm_compute; reflexivity).
  assert (H3 : index 0 ";PD0,100" scenario_output = Some 34%nat)
    by (vm_compute; reflexivity).
  assert (H4 : index 0 ",0,0" scenario_output = Some 42%nat)
    by (vm_compute; reflexivity).
  unfold before. rewrite H1, H2, H3, H4. lia.
Qed.

End VectorFacts.

(** ** [generate_raster] *)
Module RasterFacts.
Import StmtFacts PjlFacts.

(** *** Colour mode *)

(** A channel above 240 is saturated. *)
Definition saturated (v : Z) : bool := 240 <? v.

(** The three-bit mask of the saturated channels, the first byte of the
    pixel at bit 0. *)
Definition mask (f0 f1 f2 : Z) : Z :=
  (if saturated f0 then 1 else 0) + (if saturated f1 then 2 else 0)
  + (if saturated f2 then 4 else 0).

(** The mean of the channels that are not saturated. *)
Definition luminance (f0 f1 f2 : Z) : Z :=
  Z.quot
    ((if saturated f0 then 0 else f0) + (if saturated f1 then 0 else f1)
     + (if saturated f2 then 0 else f2))
    ((if saturated f0 then 0 else 1) + (if saturated f1 then 0 else 1)
     + (if saturated f2 then 0 else 1)).

(** The options with another raster mode. *)
Definition with_mode (c : ascii) (g : globals) : globals :=
  {| focus := focus g; flip := flip g; height := height g;
     job_name := job_name g; job_user := job_user g;
     job_title := job_title g; resolution := resolution g;
     raster_mode := c; raster_speed := raster_speed g;
     raster_power := raster_power g; raster_repeat := raster_repeat g;
     screen_size := screen_size g; queue := queue g;
     vector_speed := vector_speed g;
     vector_power := vector_power g; vector_freq := vector_freq g;
     width := width g; x_center := x_center g; x_repeat := x_repeat g;
     y_center := y_center g; y_repeat := y_repeat g |}.

Definition colour_options : globals := with_mode "c" small_options.

(** The seven passes of colour mode are not the seven masks that are not
    zero: pass 0 is one of them and there is no pass 7. *)
Lemma colour_passes_counterexample :
  ~ (forall m, In m (Raster.pass_numbers colour_options) <-> 1 <= m <= 7).
Proof.
  intros H. destruct (H 0) as [H0 _].
  assert (Hin : In 0 (Raster.pass_numbers colour_options)) by (cbn; auto).
  specialize (H0 Hin). lia.
Qed.

Lemma colour_pixel_value pass f0 f1 f2 :
  is_byte f0 -> is_byte f1 -> is_byte f2 ->
  Raster.colour_pixel pass f0 f1 f2 =
  if mask f0 f1 f2 =? 7 then 0
  else if mask f0 f1 f2 =? pass then 255 - luminance f0 f1 f2
  else 0.
Proof.
  unfold is_byte, Raster.colour_pixel, Raster.channel, mask, luminance,
    saturated. intros H0 H1 H2.
  rewrite !Z.gtb_ltb.
  destruct (Z.ltb_spec 240 f0), (Z.ltb_spec 240 f1), (Z.ltb_spec 240 f2).
  all: repeat match goal with
         | |- context [?a =? 0] =>
             let v := eval compute in (a =? 0) in change (a =? 0) with v
         | |- context [?a =? 7] =>
             let v := eval compute in (a =? 7) in change (a =? 7) with v
         | |- context [Z.lor ?a ?b] =>
             let v := eval compute in (Z.lor a b) in change (Z.lor a b) with v
         end.
  all: cbv beta iota.
  all: try reflexivity.
  all: repeat match goal with
         | |- context [?a =? ?p] =>
             is_var p;
             let v := eval compute in a in
             progress change (a =? p) with (v =? p)
         end.
  all: repeat match goal with
         | |- context [?a =? ?p] => is_var p; destruct (a =? p)
         end.
  all: rewrite ?Z.add_0_l, ?Z.add_0_r.
  all: try reflexivity.
  all: unfold uchar; rewrite Z.mod_small; [reflexivity|].
  all: match goal with
       | |- context [Z.quot ?a ?b] =>
           pose proof (Z.quot_pos a b ltac:(lia) ltac:(lia));
           pose proof (Z.quot_le_upper_bound a b 240 ltac:(lia) ltac:(lia))
       end; lia.
Qed.

(** The pixels of a colour line are the triples of bytes of the row, in
    order. *)
Lemma colour_line_nth pass :
  forall turns row i,
    (i < turns)%nat -> (3 * i + 2 < length row)%nat ->
    nth i (Raster.colour_line pass row turns) 0 =
    Raster.colour_pixel pass (nth (3 * i) row 0) (nth (3 * i + 1) row 0)
      (nth (3 * i + 2) row 0).
Proof.
  induction turns as [|turns IH]; intros row i Hi Hlen; [lia|].
  destruct row as [|f0 [|f1 [|f2 row]]]; cbn [length] in Hlen; try lia.
  cbn [Raster.colour_line]. destruct i as [|i]; [reflexivity|].
  cbn [nth]. rewrite (IH row i) by (cbn [length] in *; lia).
  replace (3 * S i)%nat with (S (S (S (3 * i)))) by lia.
  reflexivity.
Qed.

Lemma power_levels_colour g :
  Raster.is_mode "c" g = true -> Raster.power_levels g = true.
Proof. unfold Raster.power_levels. intros ->. reflexivity. Qed.

Lemma for_tiles_once dim body :
  0 < dim -> for_tiles dim 1 body = bind (body 0) (fun _ => ret tt).
Proof.
  intros H. unfold for_tiles. rewrite VectorFacts.countdown_once by exact H.
  replace (dim * (1 - 1)) with 0 by lia.
  destruct (Z.leb_spec dim 0); [lia|]. reflexivity.
Qed.

Lemma bind_done {B} (m : stmt unit) (k : stmt B) w :
  bind (bind m (fun _ => ret tt)) (fun _ => k) w = bind m (fun _ => k) w.
Proof. unfold bind. destruct (m w) as [[[]|s] w1]; reflexivity. Qed.

(** A line of colour mode that is read in full: the bytes of the pass,
    scaled by the raster power, are what is looked at and printed. *)
Lemma colour_scan_line g h d bx by_ ox oy pass y (dir : bool) w :
  Raster.is_mode "c" g = true ->
  Raster.too_wide d = false ->
  Z.of_nat (length (fst (fread d (bitmap_file w)))) = d ->
  3 * d <= BUF_SIZE ->
  let line :=
    map (Raster.power_scale g)
      (firstn (Z.to_nat h)
         (Raster.colour_line pass (fst (fread d (bitmap_file w)))
            (Z.to_nat d))) in
  Raster.scan_line g h d bx by_ ox oy pass y dir w =
  if (Raster.leading_zeros line <? length line)%nat
  then (Raster.print_line g bx by_ ox oy y dir line ;; ret (negb dir))%stmt
         (snd (read_bitmap d w))
  else (Next dir, snd (read_bitmap d w)).
Proof.
  intros Hc Hwide Hlen Hbuf line. subst line.
  unfold Raster.scan_line, Raster.read_line.
  rewrite Hc, Hwide, (power_levels_colour g Hc).
  rewrite bind_bind, bind_flow. unfold read_bitmap.
  destruct (fread d (bitmap_file w)) as [row f]. cbn [fst snd] in *.
  rewrite Hlen, Z.eqb_refl. cbn [negb].
  destruct (Z.ltb_spec BUF_SIZE (3 * d)); [lia|].
  rewrite andb_false_r. rewrite bind_ret.
  destruct (_ <? _)%nat; reflexivity.
Qed.

(** The raster block of colour mode for one tile: the seven passes, 0 to
    6, each from the first row of the bitmap on. *)
Lemma colour_raster_body g bx by_ off w :
  Raster.is_mode "c" g = true -> vars w = g ->
  x_repeat g = 1 -> y_repeat g = 1 -> 0 < width g -> 0 < height g ->
  Raster.raster_body bx by_ off w =
  (emit (Raster.raster_intro g) ;;
   for_each [0; 1; 2; 3; 4; 5; 6] (fun pass =>
     seek_bitmap off ;;
     fold_each (Raster.rows (height g))
       (Raster.scan_line g (width g) (Z.quot (width g * 3 + 3) 4 * 4)
          bx by_ 0 0 pass) false ;;
     ret tt) ;;
   emit Raster.raster_end)%stmt w.
Proof.
  intros Hc Hg Hx Hy Hw Hh. unfold Raster.raster_body.
  rewrite bind_get_vars, Hg, (power_levels_colour g Hc), Hx, Hy.
  rewrite (for_tiles_once (width g)) by exact Hw.
  rewrite (for_tiles_once (height g)) by exact Hh.
  unfold Raster.pass_numbers. rewrite Hc.
  change (map Z.of_nat (seq 0 7)) with [0; 1; 2; 3; 4; 5; 6].
  rewrite !bind_emit. rewrite bind_done, bind_done. reflexivity.
Qed.

(** C5 as the program has it.  In colour mode a channel is saturated
    when it is above 240, the mask has one bit per saturated channel, and
    the luminance is the mean of the channels that are not saturated.
    A pixel whose three channels are saturated (mask 7) is blank in every
    pass; any other pixel gives 255 minus its luminance in the pass of
    its mask, pass 0 for a pixel with no saturated channel, and blank
    (0, that is [v] = 255) in the others.  For a row of [d] bytes that is
    read in full and with [3 * d] at most the size of [buf], the line of
    a pass is made of these bytes, pixel by pixel, and [scan_line] scales
    it by the raster power over 255, like a grey line, before it looks
    for the bytes to print and prints them.  For one tile the raster
    block is the introduction, whose power field is 100, then the seven
    passes numbered 0 to 6, one for each mask but 7, each over all the
    rows of the bitmap, then the end of the block. *)
Theorem colour_separation g pass f0 f1 f2 :
  Raster.is_mode "c" g = true ->
  is_byte f0 -> is_byte f1 -> is_byte f2 ->
  Raster.pass_numbers g = [0; 1; 2; 3; 4; 5; 6] /\
  Raster.colour_pixel pass f0 f1 f2 =
    (if mask f0 f1 f2 =? 7 then 0
     else if mask f0 f1 f2 =? pass then 255 - luminance f0 f1 f2
     else 0) /\
  (forall h d y w,
      Raster.too_wide d = false ->
      Z.of_nat (length (fst (fread d (bitmap_file w)))) = d ->
      3 * d <= BUF_SIZE ->
      fst (Raster.read_line g h d pass y w) =
      Next (firstn (Z.to_nat h)
              (Raster.colour_line pass (fst (fread d (bitmap_file w)))
                 (Z.to_nat d)))) /\
  (forall turns row i,
      (i < turns)%nat -> (3 * i + 2 < length row)%nat ->
      nth i (Raster.colour_line pass row turns) 0 =
      Raster.colour_pixel pass (nth (3 * i) row 0) (nth (3 * i + 1) row 0)
        (nth (3 * i + 2) row 0)) /\
  (forall v, Raster.power_scale g v = uchar (Z.quot (v * raster_power g) 255)) /\
  (exists rest,
      Raster.raster_intro g =
      (ESC ++ "*r0F" ++ ESC ++ "&y100P" ++ rest)%string) /\
  (forall h d bx by_ ox oy y (dir : bool) w,
      Raster.too_wide d = false ->
      Z.of_nat (length (fst (fread d (bitmap_file w)))) = d ->
      3 * d <= BUF_SIZE ->
      let line :=
        map (Raster.power_scale g)
          (firstn (Z.to_nat h)
             (Raster.colour_line pass (fst (fread d (bitmap_file w)))
                (Z.to_nat d))) in
      Raster.scan_line g h d bx by_ ox oy pass y dir w =
      if (Raster.leading_zeros line <? length line)%nat
      then (Raster.print_line g bx by_ ox oy y dir line ;; ret (negb dir))%stmt
             (snd (read_bitmap d w))
      else (Next dir, snd (read_bitmap d w))) /\
  (forall bx by_ off w,
      vars w = g ->
      x_repeat g = 1 -> y_repeat g = 1 -> 0 < width g -> 0 < height g ->
      Raster.raster_body bx by_ off w =
      (emit (Raster.raster_intro g) ;;
       for_each [0; 1; 2; 3; 4; 5; 6] (fun pass =>
         seek_bitmap off ;;
         fold_each (Raster.rows (height g))
           (Raster.scan_line g (width g) (Z.quot (width g * 3 + 3) 4 * 4)
              bx by_ 0 0 pass) false ;;
         ret tt) ;;
       emit Raster.raster_end)%stmt w).
Proof.
  intros Hc H0 H1 H2.
  split; [|split; [|split; [|split; [|split; [|split; [|split]]]]]].
  7:{ intros h d bx by_ ox oy y dir w Hwide Hlen Hbuf.
      apply colour_scan_line; assumption. }
  7:{ intros bx by_ off w Hg Hx Hy Hw Hh.
      apply colour_raster_body; assumption. }
  - unfold Raster.pass_numbers. rewrite Hc. reflexivity.
  - apply colour_pixel_value; assumption.
  - intros h d y w Hwide Hlen Hbuf. unfold Raster.read_line.
    rewrite Hc, Hwide. unfold bind, read_bitmap.
    destruct (fread d (bitmap_file w)) as [row f]. cbn [fst] in *.
    rewrite Hlen, Z.eqb_refl. cbn [negb].
    destruct (Z.ltb_spec BUF_SIZE (3 * d)); [lia|].
    rewrite andb_false_r. reflexivity.
  - apply colour_line_nth.
  - reflexivity.
  - unfold Raster.raster_intro. rewrite (power_levels_colour g Hc).
    exists (ESC ++ "&z" ++ fmt_d (raster_speed g) ++ "S"
            ++ ESC ++ "*r" ++ fmt_d (height g * y_repeat g) ++ "T"
            ++ ESC ++ "*r" ++ fmt_d (width g * x_repeat g) ++ "S"
            ++ ESC ++ "*b" ++ fmt_d 7 ++ "M"
            ++ ESC ++ "&y1O"
            ++ ESC ++ "*r1A")%string.
    reflexivity.
Qed.

(** The pixel (100, 100, 100) has mask 0 and is printed in pass 0; the
    pixel (250, 100, 50) has mask 1 and is printed in pass 1. *)
Lemma colour_separation_witness :
  Raster.is_mode "c" colour_options = true /\
  is_byte 100 /\
  Raster.pass_numbers colour_options = [0; 1; 2; 3; 4; 5; 6] /\
  Raster.colour_pixel 0 100 100 100 = 155.
Proof.
  assert (Hb : is_byte 100) by (unfold is_byte; lia).
  split; [reflexivity|]. split; [exact Hb|].
  destruct (colour_separation colour_options 0 100 100 100 eq_refl Hb Hb Hb)
    as (Hp & Hv & _).
  split; [exact Hp|]. rewrite Hv. reflexivity.
Defined.

(** *** The line that does not fit the packing array *)

Lemma leading_zeros_head x xs :
  x <> 0 -> Raster.leading_zeros (x :: xs) = O.
Proof.
  intros H. cbn [Raster.leading_zeros].
  destruct (Z.eqb_spec x 0); [contradiction | reflexivity].
Qed.

Lemma active_range_all xs :
  Raster.leading_zeros xs = O -> Raster.leading_zeros (rev xs) = O ->
  Raster.active_range xs = xs.
Proof.
  intros Hl Hr. unfold Raster.active_range, Raster.right_edge.
  rewrite Hl, Hr. cbn [skipn]. rewrite !Nat.sub_0_r. apply firstn_all.
Qed.

Lemma overflow_line_edges :
  Raster.leading_zeros Pack.overflow_line = O /\
  Raster.leading_zeros (rev Pack.overflow_line) = O.
Proof.
  split.
  - destruct (PackFacts.abb_head (Z.to_nat 34133)) as [t Ht].
    rewrite PackFacts.overflow_line_abb, Ht. apply leading_zeros_head. lia.
  - unfold Pack.overflow_line. rewrite rev_app_distr. cbn [rev app].
    apply leading_zeros_head. lia.
Qed.

Lemma overflow_line_active :
  Raster.active_range Pack.overflow_line = Pack.overflow_line.
Proof.
  apply active_range_all;
    [exact (proj1 overflow_line_edges) | exact (proj2 overflow_line_edges)].
Qed.

(** A mono bitmap of 819200 by 1 pixels with the given row. *)
Definition wide_bitmap (row : list Z) : list Z := bmp 819200 1 row.

Lemma wide_bitmap_header row :
  Raster.load_header blank_header
    (start VectorFacts.default_options (wide_bitmap row))
  = (Next (firstn 54 (wide_bitmap row), 54),
     {| vars := set_size 819200 1 VectorFacts.default_options;
        pjl_file := "";
        stderr := [];
        bitmap_file := {| contents := wide_bitmap row; position := 54 |} |}).
Proof. vm_compute. reflexivity. Qed.

Lemma wide_bitmap_row row : skipn 54 (wide_bitmap row) = row.
Proof. reflexivity. Qed.

Lemma read_wide_row row w :
  Z.of_nat (length row) = 102400 ->
  bitmap_file w = {| contents := wide_bitmap row; position := 54 |} ->
  exists w', read_bitmap 102400 w = (Next row, w') /\ vars w' = vars w.
Proof.
  intros Hlen Hf. unfold read_bitmap, fread. rewrite Hf.
  cbn [contents position]. rewrite wide_bitmap_row.
  rewrite firstn_all2 by lia. eexists. split; reflexivity.
Qed.

Lemma bind_stop {A B} (m : stmt A) (k : A -> stmt B) w s :
  fst (m w) = Stop s -> fst (bind m k w) = Stop s.
Proof.
  unfold bind. destruct (m w) as [[a|s'] w1]; cbn [fst]; [discriminate|].
  intros [= ->]. reflexivity.
Qed.

(** A line of a mono bitmap that opens and ends with a byte that is not
    zero and that the packer cannot pack: the scan of it is undefined. *)
Lemma scan_unpacked_row row w :
  Z.of_nat (length row) = 102400 ->
  Raster.leading_zeros row = O ->
  Raster.leading_zeros (rev row) = O ->
  Pack.pack_line row = None ->
  bitmap_file w = {| contents := wide_bitmap row; position := 54 |} ->
  fst (Raster.scan_line (set_size 819200 1 VectorFacts.default_options)
         102400 102400 0 0 0 0 0 0 false w) = Stop Undefined.
Proof.
  intros Hlen Hl Hr Hp Hf.
  destruct (read_wide_row row w Hlen Hf) as (w' & Hread & _).
  unfold Raster.scan_line, Raster.read_line.
  change (Raster.is_mode "c" (set_size 819200 1 VectorFacts.default_options))
    with false.
  change (Raster.is_mode "g" (set_size 819200 1 VectorFacts.default_options))
    with false.
  change (Raster.power_levels (set_size 819200 1 VectorFacts.default_options))
    with false.
  change (Z.quot (102400 + 3) 4 * 4) with 102400.
  change (Raster.too_wide 102400) with false. cbv iota.
  rewrite bind_bind, bind_flow, Hread, Hlen.
  change (negb (102400 =? 102400)) with false. cbv iota.
  rewrite bind_ret. rewrite firstn_all2 by lia.
  assert (Hnz : (Raster.leading_zeros row <? length row)%nat = true).
  { rewrite Hl. apply Nat.ltb_lt. lia. }
  rewrite Hnz. apply bind_stop. unfold Raster.print_line.
  rewrite (active_range_all row Hl Hr), Hp. reflexivity.
Qed.

Lemma raster_unpacked_row row :
  Z.of_nat (length row) = 102400 ->
  Raster.leading_zeros row = O ->
  Raster.leading_zeros (rev row) = O ->
  Pack.pack_line row = None ->
  fst (Raster.generate_raster blank_header
         (start VectorFacts.default_options (wide_bitmap row)))
  = Stop Undefined.
Proof.
  intros Hlen Hl Hr Hp.
  unfold Raster.generate_raster. rewrite bind_get_vars.
  change (vars (start VectorFacts.default_options (wide_bitmap row)))
    with VectorFacts.default_options.
  change (raster_repeat VectorFacts.default_options <? 0) with false.
  cbv iota.
  change (Z.to_nat (raster_repeat VectorFacts.default_options)) with 1%nat.
  cbn [Raster.raster_blocks]. apply bind_stop, bind_stop.
  unfold Raster.raster_block.
  rewrite bind_flow, wide_bitmap_header. cbn [snd fst].
  apply bind_stop. unfold Raster.raster_body. rewrite bind_get_vars.
  cbn -[read_bitmap Raster.print_line Raster.scan_line for_tiles].
  apply bind_stop.
  rewrite for_tiles_once by lia. apply bind_stop.
  rewrite for_tiles_once by lia. apply bind_stop.
  apply bind_stop. rewrite bind_flow. cbn [seek_bitmap].
  apply bind_stop. apply bind_stop.
  apply (scan_unpacked_row row); try assumption. reflexivity.
Qed.

(** C1.  The line of 102400 bytes 1, 2, 2, 1, 2, 2, ..., 1 fits the
    working buffer and is active from its first to its last byte.  Each
    group of three bytes is packed as a literal of one byte and a run of
    two, four bytes in all, so that the packer needs 136534 bytes: it
    stores past the end of its array of 128001 bytes.  Neither the packer
    nor [print_line] has a defined result, and [generate_raster] has none
    on the mono bitmap of 819200 by 1 pixels that holds the line: there
    is no packed line to unpack. *)
Theorem full_width_line_overflows :
  Forall is_byte Pack.overflow_line /\
  Z.of_nat (length Pack.overflow_line) = BUF_SIZE /\
  PACK_SIZE = 128001 /\
  Pack.pack_line Pack.overflow_line = None /\
  (forall g bx by_ ox oy y w,
      fst (Raster.print_line g bx by_ ox oy y false Pack.overflow_line w)
      = Stop Undefined) /\
  fst (Raster.generate_raster blank_header
         (start VectorFacts.default_options (wide_bitmap Pack.overflow_line)))
  = Stop Undefined.
Proof.
  split; [apply PackFacts.overflow_line_bytes|].
  split; [apply PackFacts.overflow_line_length|].
  split; [reflexivity|].
  split; [apply PackFacts.pack_line_overflow|].
  split.
  - intros g bx by_ ox oy y w. unfold Raster.print_line.
    rewrite overflow_line_active, PackFacts.pack_line_overflow.
    reflexivity.
  - apply raster_unpacked_row.
    + apply PackFacts.overflow_line_length.
    + exact (proj1 overflow_line_edges).
    + exact (proj2 overflow_line_edges).
    + apply PackFacts.pack_line_overflow.
Qed.


End RasterFacts.

(** ** When the encoders come back *)
Module SettleFacts.
Import StmtFacts PjlFacts.

(** A statement that neither runs for ever nor leaves an array. *)
Definition settles {A} (m : stmt A) : Prop :=
  forall w, fst (m w) <> Stop Loops /\ fst (m w) <> Stop Undefined.

Lemma settles_ret {A} (a : A) : settles (ret a).
Proof. intros w. cbn. split; discriminate. Qed.

Lemma settles_return {A} b : settles (@return_ A b).
Proof. intros w. cbn. split; discriminate. Qed.

Lemma settles_emit s : settles (emit s).
Proof. intros w. cbn. split; discriminate. Qed.

Lemma settles_complain s : settles (complain s).
Proof. intros w. cbn. split; discriminate. Qed.

Lemma settles_get_vars : settles get_vars.
Proof. intros w. cbn. split; discriminate. Qed.

Lemma settles_seek_bitmap n : settles (seek_bitmap n).
Proof. intros w. cbn. split; discriminate. Qed.

Lemma settles_read_bitmap n : settles (read_bitmap n).
Proof.
  intros w. unfold read_bitmap. destruct (fread n (bitmap_file w)).
  cbn. split; discriminate.
Qed.

(** The continuation has to settle only on the values the first
    statement can give. *)
Lemma settles_bind_on {A B} (P : A -> Prop) (m : stmt A) (k : A -> stmt B) :
  settles m ->
  (forall w a w', m w = (Next a, w') -> P a) ->
  (forall a, P a -> settles (k a)) ->
  settles (bind m k).
Proof.
  intros Hm HP Hk w. unfold bind. specialize (Hm w). specialize (HP w).
  destruct (m w) as [[a|s] w1]; cbn [fst] in *.
  - apply Hk. eapply HP. reflexivity.
  - destruct Hm as [H1 H2]. split; intros [= ->]; [apply H1 | apply H2];
      reflexivity.
Qed.

Lemma settles_bind {A B} (m : stmt A) (k : A -> stmt B) :
  settles m -> (forall a, settles (k a)) -> settles (bind m k).
Proof.
  intros Hm Hk. apply (settles_bind_on (fun _ => True)); auto.
Qed.

Lemma settles_for_each {A} (xs : list A) body :
  (forall x, settles (body x)) -> settles (for_each xs body).
Proof.
  intros H. induction xs as [|x xs IH]; cbn [for_each].
  - apply settles_ret.
  - apply settles_bind; auto.
Qed.

Lemma settles_fold_each {A S} (xs : list A) (body : A -> S -> stmt S) :
  (forall x s, settles (body x s)) ->
  forall s, settles (fold_each xs body s).
Proof.
  intros H. induction xs as [|x xs IH]; intros s; cbn [fold_each].
  - apply settles_ret.
  - apply settles_bind; auto.
Qed.

Lemma settles_for_tiles dim rep body :
  0 < dim -> (forall x, settles (body x)) -> settles (for_tiles dim rep body).
Proof.
  intros Hd H. unfold for_tiles.
  destruct (Z.leb_spec dim 0); [lia|]. rewrite andb_false_r.
  apply settles_for_each, H.
Qed.

Lemma settles_fold_tiles {S} dim rep (body : Z -> S -> stmt S) :
  0 < dim -> (forall x s, settles (body x s)) ->
  forall s, settles (fold_tiles dim rep body s).
Proof.
  intros Hd H s. unfold fold_tiles.
  destruct (Z.leb_spec dim 0); [lia|]. rewrite andb_false_r.
  apply settles_fold_each, H.
Qed.

Lemma settles_comes_back body w :
  settles body -> comes_back (Pjl.call body w).
Proof.
  intros H. destruct (H w) as [H1 H2]. unfold comes_back, Pjl.call.
  destruct (body w) as [[b|[b| |]] w1]; cbn [fst] in *;
    try contradiction; eauto.
Qed.

Ltac settles :=
  repeat first
    [ apply settles_ret | apply settles_return | apply settles_emit
    | apply settles_complain | apply settles_get_vars
    | apply settles_seek_bitmap | apply settles_read_bitmap
    | apply settles_for_each; intros ?
    | apply settles_fold_each; intros ? ?
    | apply settles_bind; [|intros ?]
    | progress cbv zeta
    | match goal with
      | |- settles (if ?b then _ else _) => destruct b eqn:?
      | |- settles (match ?x with _ => _ end) => destruct x eqn:?
      end ].

(** *** [generate_vector] *)

(** The parameters with which [generate_vector] comes back: a bed of
    positive size and a frequency that is not zero. *)
Definition vector_ready (g : globals) : Prop :=
  0 < width g /\ 0 < height g /\ vector_freq g <> 0.

Lemma compensate_some g x epower :
  vector_speed g <> 0 -> vector_freq g <> 0 ->
  epower = Z.quot (x * vector_power g + 50) 100 ->
  Vector.compensate g x epower <> None.
Proof.
  intros Hs Hf He. unfold Vector.compensate.
  destruct (Z.eqb_spec epower 0) as [E|E]; cbn [negb andb]; [discriminate|].
  destruct (x <? 100); [|discriminate].
  destruct (Z.eqb_spec x 0) as [Hx|Hx].
  - subst x. rewrite Z.mul_0_l in He. cbn in He. contradiction.
  - destruct (Z.eqb_spec (vector_speed g) 0); [contradiction|].
    destruct (Z.eqb_spec (vector_freq g) 0); [contradiction|].
    cbn [orb]. discriminate.
Qed.

Lemma settles_set_power g buf x0 p :
  vector_freq g <> 0 -> settles (Vector.set_power g buf x0 p).
Proof.
  intros Hf. unfold Vector.set_power.
  destruct (Vector.sscanf_d buf x0) as [count x].
  destruct (_ && _); [|apply settles_ret].
  apply settles_bind; [destruct (negb (Vector.up p)); settles|]. intros _.
  apply settles_bind; [|intros; settles].
  destruct (Z.eqb_spec (vector_speed g) 0) as [E|E]; cbn [negb andb];
    [apply settles_ret|].
  destruct (vector_speed g <? 100); [|apply settles_ret].
  pose proof (compensate_some g x _ E Hf eq_refl) as Hc.
  destruct (Vector.compensate g x _) as [[[a b] c]|]; [settles | contradiction].
Qed.

Lemma generate_vector_back x0 y0 vec w :
  vector_ready (vars w) ->
  comes_back (Pjl.call (Vector.generate_vector x0 y0 vec) w).
Proof.
  intros (Hw & Hh & Hf).
  assert (Hcmd : forall bx by_ tag args st,
             settles (Vector.command (vars w) bx by_ x0 y0 tag args st)).
  { intros. unfold Vector.command. destruct st as [p passstart].
    apply settles_bind; [destruct passstart; settles|]. intros _.
    apply settles_bind; [|intros; settles].
    destruct (Ascii.eqb tag "M");
      [unfold Vector.move; destruct (Vector.sscanf_d_d _ _ _) as [[? ?] ?];
       settles|].
    destruct (Ascii.eqb tag "C"); [unfold Vector.close; settles|].
    destruct (Ascii.eqb tag "P"); [apply settles_set_power, Hf|].
    destruct (Ascii.eqb tag "L"); [|settles].
    unfold Vector.line. destruct (Vector.sscanf_d_d _ _ _) as [[? ?] ?].
    settles. }
  assert (Hcmds : forall bx by_ lines st,
             settles (Vector.commands (vars w) bx by_ x0 y0 lines st)).
  { induction lines as [|buf lines IH]; intros st; cbn [Vector.commands];
      [apply settles_ret|].
    destruct buf as [|tag args]; [apply IH|].
    destruct (Vector.isalpha tag); [|apply IH].
    apply settles_bind; [apply Hcmd|]. intros st'.
    destruct (Ascii.eqb tag "X"); [apply settles_ret | apply IH]. }
  unfold comes_back, Pjl.call, Vector.generate_vector.
  rewrite bind_get_vars.
  match goal with
  | |- context [bind ?m ?k w] =>
      assert (Hs : settles (bind m k))
  end.
  { apply settles_bind.
    - apply settles_fold_tiles; [exact Hh|]. intros offy p.
      apply settles_fold_tiles; [exact Hw|]. intros offx p'.
      apply settles_bind; [apply Hcmds | intros; apply settles_ret].
    - intros p. settles. }
  destruct (Hs w) as [H1 H2].
  match goal with
  | |- context [bind ?m ?k w] => destruct (bind m k w) as [[b|[b| |]] w1]
  end; cbn [fst] in *; try contradiction; eauto.
Qed.

(** X24. With a picture of positive width and height and a frequency
    that is not zero, as [range_checks] leaves it, [generate_vector]
    comes back whatever the vector file holds: the loops over the tiles
    are left and the compensation of the [P] command divides by nothing
    that is zero. *)
Theorem settles_generate_vector x0 y0 vec w :
  vector_ready (vars w) ->
  comes_back (Pjl.call (Vector.generate_vector x0 y0 vec) w).
Proof.
  intros Hready. apply generate_vector_back. exact Hready.
Qed.

Lemma settles_generate_vector_witness :
  comes_back (Pjl.call (Vector.generate_vector 0 0 small_vector)
                (start (range_checks small_options) [])).
Proof.
  apply settles_generate_vector.
  split; [reflexivity|]. split; [reflexivity|]. cbn. discriminate.
Defined.

(** *** [generate_raster] *)

(** The bytes of a line, [h] in the source. *)
Definition line_bytes (g : globals) : Z :=
  if Raster.power_levels g then width g else Z.quot (width g + 7) 8.

(** The sizes with which [generate_raster] comes back: a bitmap of
    positive width and height whose lines the packing array can take
    and, in colour mode, whose rows the colour loop reads inside the
    buffer. *)
Definition raster_ready (g : globals) : Prop :=
  0 < width g /\ 0 < height g /\ line_bytes g <= 96000 /\
  (Raster.is_mode "c" g = true ->
   3 * (Z.quot (line_bytes g * 3 + 3) 4 * 4) <= BUF_SIZE).

Lemma pack_line_some xs :
  Z.of_nat (length xs) <= 96000 -> Pack.pack_line xs <> None.
Proof.
  intros H. unfold Pack.pack_line.
  pose proof (PackFacts.worst_le xs) as Hw.
  assert (Hsize : PACK_SIZE = 128001) by reflexivity.
  destruct (PackFacts.pack_loop_total xs []) as (out & Hout & _).
  - cbn [length]. lia.
  - rewrite Hout. discriminate.
Qed.

Lemma active_range_length line :
  (length (Raster.active_range line) <= length line)%nat.
Proof.
  unfold Raster.active_range. rewrite length_firstn, length_skipn. lia.
Qed.

Lemma settles_print_line g bx by_ ox oy y dir line :
  Z.of_nat (length line) <= 96000 ->
  settles (Raster.print_line g bx by_ ox oy y dir line).
Proof.
  intros H. unfold Raster.print_line.
  pose proof (active_range_length line) as Ha.
  assert (Hp : Pack.pack_line
                 (if dir then rev (Raster.active_range line)
                  else Raster.active_range line) <> None).
  { apply pack_line_some. destruct dir; [rewrite length_rev|]; lia. }
  destruct (Pack.pack_line _); [|contradiction]. settles.
Qed.

Lemma read_line_length g h d pass y w line w' :
  Raster.read_line g h d pass y w = (Next line, w') ->
  (length line <= Z.to_nat h)%nat.
Proof.
  unfold Raster.read_line, bind, read_bitmap, complain, return_, halt, ret.
  destruct (Raster.is_mode "c" g).
  - destruct (Raster.too_wide d); [discriminate|].
    destruct (fread d (bitmap_file w)) as [row f].
    destruct (negb _); [discriminate|].
    destruct (_ && _); [discriminate|].
    intros [= <- _]. rewrite length_firstn. lia.
  - destruct (Raster.too_wide _); [discriminate|].
    destruct (fread _ (bitmap_file w)) as [row f].
    destruct (negb _); [discriminate|].
    destruct (Raster.is_mode "g" g); intros [= <- _];
      rewrite ?length_map, length_firstn; lia.
Qed.

Lemma settles_read_line g h d pass y :
  (Raster.is_mode "c" g = true -> 3 * d <= BUF_SIZE) ->
  settles (Raster.read_line g h d pass y).
Proof.
  intros Hc. unfold Raster.read_line.
  destruct (Raster.is_mode "c" g).
  - specialize (Hc eq_refl).
    destruct (Z.ltb_spec BUF_SIZE (3 * d)); [lia|]. rewrite andb_false_r.
    settles.
  - settles.
Qed.

Lemma settles_scan_line g h d bx by_ ox oy pass y dir :
  h <= 96000 ->
  (Raster.is_mode "c" g = true -> 3 * d <= BUF_SIZE) ->
  settles (Raster.scan_line g h d bx by_ ox oy pass y dir).
Proof.
  intros Hh Hc. unfold Raster.scan_line.
  apply (settles_bind_on (fun line => (length line <= Z.to_nat h)%nat)).
  - apply settles_read_line, Hc.
  - intros w line w'. apply read_line_length.
  - intros line Hlen. cbv zeta.
    destruct (_ <? _)%nat; [|apply settles_ret].
    apply settles_bind; [|intros; apply settles_ret].
    apply settles_print_line.
    destruct (Raster.power_levels g); rewrite ?length_map; lia.
Qed.

Lemma settles_raster_body bx by_ off w :
  raster_ready (vars w) ->
  fst (Raster.raster_body bx by_ off w) <> Stop Loops /\
  fst (Raster.raster_body bx by_ off w) <> Stop Undefined.
Proof.
  intros (Hw & Hh & Hl & Hc). unfold Raster.raster_body.
  rewrite bind_get_vars. unfold line_bytes in *.
  match goal with |- context [?m w] => assert (Hs : settles m) end.
  { cbv zeta. apply settles_bind; [apply settles_emit|]. intros _.
    apply settles_bind; [|intros; apply settles_emit].
    apply settles_for_tiles; [exact Hw|]. intros offx.
    apply settles_for_tiles; [exact Hh|]. intros offy.
    apply settles_for_each. intros pass.
    apply settles_bind; [apply settles_seek_bitmap|]. intros _.
    apply settles_bind; [|intros; apply settles_ret].
    apply settles_fold_each. intros y dir.
    apply settles_scan_line; [exact Hl|].
    intros Hmode. specialize (Hc Hmode).
    unfold Raster.power_levels in *. rewrite Hmode in *. cbn [orb] in *.
    exact Hc. }
  apply Hs.
Qed.

Lemma generate_raster_back hdr w :
  raster_repeat (vars w) = 1 ->
  raster_ready (vars (snd (Raster.load_header hdr w))) ->
  comes_back (Pjl.call (Raster.generate_raster hdr) w).
Proof.
  intros Hrep Hready.
  assert (Hload : exists loaded w1,
             Raster.load_header hdr w = (Next loaded, w1)).
  { unfold Raster.load_header, bind, read_bitmap, get_vars, put_vars, ret.
    destruct (fread _ _). eauto. }
  destruct Hload as (loaded & w1 & Hload). rewrite Hload in Hready.
  cbn [snd] in Hready.
  pose proof (settles_raster_body
                (Raster.base (x_center (vars w)) (width (vars w)) (resolution (vars w)))
                (Raster.base (y_center (vars w)) (height (vars w)) (resolution (vars w)))
                (snd loaded) w1 Hready) as [H1 H2].
  unfold comes_back, Pjl.call, Raster.generate_raster.
  rewrite bind_get_vars, Hrep.
  change (1 <? 0) with false. cbv iota.
  change (Z.to_nat 1) with 1%nat. cbn [Raster.raster_blocks].
  unfold Raster.raster_block.
  rewrite !bind_bind, bind_flow, Hload.
  unfold bind.
  destruct (Raster.raster_body _ _ _ w1) as [[[]|[b| |]] w2]; cbn [fst] in *;
    try contradiction; cbn; eauto.
Qed.

(** X23. [generate_raster] comes back, with true or after a complaint
    with false, when there is one block to write and the header of the
    bitmap gives a positive width and height and lines of at most 96000
    bytes, in colour mode rows of at most a third of [buf]: every loop
    over the tiles is left, every store of the packer is inside [pack]
    and every read of the colour loop inside [buf]. *)
Theorem settles_generate_raster hdr w :
  raster_repeat (vars w) = 1 ->
  raster_ready (vars (snd (Raster.load_header hdr w))) ->
  comes_back (Pjl.call (Raster.generate_raster hdr) w).
Proof.
  intros Hrep Hready. apply generate_raster_back; [exact Hrep | exact Hready].
Qed.

Lemma settles_generate_raster_witness :
  comes_back (Pjl.call (Raster.generate_raster blank_header)
                (start (range_checks small_options) small_bitmap)).
Proof.
  apply settles_generate_raster; [reflexivity|].
  split; [reflexivity|]. split; [reflexivity|].
  split; [vm_compute; discriminate | vm_compute; discriminate].
Defined.

(** *** A printed line and its packed bytes *)

Lemma emit_run s w : emit s w = (Next tt, with_pjl (pjl_file w ++ s) w).
Proof. reflexivity. Qed.

Lemma active_range_bytes line :
  Forall is_byte line -> Forall is_byte (Raster.active_range line).
Proof.
  intros H. unfold Raster.active_range.
  set (l := Raster.leading_zeros line). set (n := (_ - _)%nat).
  rewrite <- (firstn_skipn l line) in H. apply Forall_app in H as [_ H].
  rewrite <- (firstn_skipn n (skipn l line)) in H.
  apply Forall_app in H as [H _]. exact H.
Qed.

(** X22. A line of at most 96000 bytes that is not blank is printed as
    the row, the column of its first byte that is not zero (times eight
    in mono mode, where a byte is eight pixels), the number of bytes of
    its active range, negative for a scan from right to left, the length
    of the packed data and the packed bytes, padded to a multiple of
    eight; unpacking those bytes gives the active range, in the direction
    of the scan. *)
Theorem print_line_packs g bx by_ ox oy y (dir : bool) line w :
  Forall is_byte line ->
  Z.of_nat (length line) <= 96000 ->
  let l := Z.of_nat (Raster.leading_zeros line) in
  let r := Z.of_nat (Raster.right_edge line) in
  let range :=
    if dir then rev (Raster.active_range line) else Raster.active_range line in
  exists pack,
    Pack.pack_line range = Some pack /\
    Pack.unpack (Pack.padded pack) = range /\
    (length (Pack.padded pack) mod 8 = 0)%nat /\
    Raster.print_line g bx by_ ox oy y dir line w =
    (Next tt,
     with_pjl (pjl_file w
               ++ ESC ++ "*p" ++ fmt_d (by_ + oy + y) ++ "Y"
               ++ ESC ++ "*p"
               ++ fmt_d (bx + ox + (if Raster.power_levels g then l else l * 8))
               ++ "X"
               ++ ESC ++ "*b" ++ fmt_d (if dir then - (r - l) else r - l) ++ "A"
               ++ ESC ++ "*b" ++ fmt_d (Z.of_nat (length (Pack.padded pack)))
               ++ "W" ++ string_of_bytes (Pack.padded pack)) w).
Proof.
  intros Hb Hlen l r range.
  pose proof (active_range_length line) as Ha.
  pose proof (active_range_bytes line Hb) as Hab.
  assert (Hrb : Forall is_byte range).
  { subst range. destruct dir; [apply Forall_rev|]; exact Hab. }
  assert (Hrl : Z.of_nat (length range) <= 96000).
  { subst range. destruct dir; [rewrite length_rev|]; lia. }
  destruct (Pack.pack_line range) as [pack|] eqn:Hp;
    [|exfalso; exact (pack_line_some range Hrl Hp)].
  exists pack. split; [reflexivity|].
  destruct (PackFacts.pack_line_scheme range pack Hrb Hp)
    as (_ & Hun & Hmod & Hann).
  split; [exact Hun|]. split; [exact Hmod|].
  unfold Raster.print_line. fold range. rewrite Hp.
  repeat step. rewrite emit_run. repeat step. rewrite <- Hann.
  fold l. fold r.
  f_equal. f_equal. rewrite !append_assoc. reflexivity.
Qed.

Lemma print_line_packs_witness :
  exists pack,
    Pack.pack_line [9; 0; 7] = Some pack /\
    Pack.unpack (Pack.padded pack) = [9; 0; 7] /\
    Raster.print_line small_options 0 0 0 0 5 true [0; 0; 7; 0; 9; 0]
      (start small_options [])
    = (Next tt,
       with_pjl (ESC ++ "*p5Y" ++ ESC ++ "*p16X" ++ ESC ++ "*b-3A"
                 ++ ESC ++ "*b8W" ++ string_of_bytes (Pack.padded pack))
         (start small_options [])).
Proof.
  destruct (print_line_packs small_options 0 0 0 0 5 true [0; 0; 7; 0; 9; 0]
              (start small_options []))
    as (pack & Hp & Hun & Hmod & Hrun).
  - repeat constructor; unfold is_byte; lia.
  - cbn. lia.
  - exists pack. split; [exact Hp|]. split; [exact Hun|].
    rewrite Hrun. vm_compute in Hp. injection Hp as <-. reflexivity.
Defined.

End SettleFacts.

(** ** The layout of the job *)
Module LayoutFacts.
Import StmtFacts PjlFacts SettleFacts.

Lemma load_header_vars hdr w :
  exists a b, vars (snd (Raster.load_header hdr w)) = set_size a b (vars w).
Proof.
  unfold Raster.load_header, bind, read_bitmap, get_vars, put_vars, ret.
  destruct (fread _ _). cbn. eauto.
Qed.

(** With one block to write, the size [generate_raster] leaves in
    [width] and [height] is the one of the header. *)
Lemma raster_sizes hdr w :
  raster_repeat (vars w) = 1 ->
  vars (snd (Pjl.call (Raster.generate_raster hdr) w))
  = vars (snd (Raster.load_header hdr w)).
Proof.
  intros Hrep.
  assert (Hload : exists loaded w1,
             Raster.load_header hdr w = (Next loaded, w1)).
  { unfold Raster.load_header, bind, read_bitmap, get_vars, put_vars, ret.
    destruct (fread _ _). eauto. }
  destruct Hload as (loaded & w1 & Hload). rewrite Hload. cbn [snd].
  pose proof (same_vars_raster_body
                (Raster.base (x_center (vars w)) (width (vars w)) (resolution (vars w)))
                (Raster.base (y_center (vars w)) (height (vars w)) (resolution (vars w)))
                (snd loaded) w1) as Hbody.
  unfold same_vars in Hbody.
  unfold Pjl.call, Raster.generate_raster.
  rewrite bind_get_vars, Hrep.
  change (1 <? 0) with false. cbv iota.
  change (Z.to_nat 1) with 1%nat. cbn [Raster.raster_blocks].
  unfold Raster.raster_block.
  rewrite !bind_bind, bind_flow, Hload.
  unfold bind.
  destruct (Raster.raster_body _ _ _ w1) as [[[]|[b| |]] w2];
    cbn [snd] in *; exact Hbody.
Qed.

(** The configuration with which the claim fails: the options without
    any command-line option and a bitmap whose header gives the width 0.
    [generate_pjl] writes the header, the page setup and the introduction
    of the raster block, and then does not come back: there is no vector
    block, no footer and no trailer. *)
Lemma job_layout_counterexample :
  let w := start (range_checks small_options) (bmp 0 2 []) in
  let r := Pjl.generate_pjl blank_header 0 0 small_vector w in
  Pjl.raster_wanted (vars w) = true /\
  fst r = Stop Loops /\
  pjl_file (snd r) =
    (Pjl.header (vars w) ++ Pjl.page_setup (vars w) ++ Pjl.raster_intro
     ++ Raster.raster_intro (set_size 0 2 (vars w)))%string.
Proof.
  cbv zeta. split; [reflexivity|]. split; vm_compute; reflexivity.
Qed.

(** C6 as the program has it.  For the options as [range_checks] leaves
    them, with one raster block to write ([raster_repeat] is 1, its
    initial value, which no option changes), and with a bitmap whose
    header gives a positive width and height and lines of at most 96000
    bytes, in colour mode rows of at most a third of [buf] (when no
    raster block is wanted: with a positive [width] and [height] in the
    options), [generate_pjl] returns true and the file it has written is,
    in this order: the header (job name, enter PCL), the page setup
    (autofocus, the two offset registrations, resolution and origin), the
    raster block with its introduction exactly when the raster power is
    above zero and the raster mode is not ['n'], the vector page reset and
    the vector block exactly when the vector power is above zero, the
    footer (reset, exit language, end of job) and the trailer, which is
    4096 zero bytes.  The raster block stands in front of the vector
    block. *)
Theorem job_layout g0 hdr x0 y0 bitmap vec :
  let g := range_checks g0 in
  let w := start g bitmap in
  let sized := vars (snd (Raster.load_header hdr w)) in
  let raster := Pjl.call (Raster.generate_raster hdr) w in
  let w1 := if Pjl.raster_wanted g then snd raster else w in
  let vector :=
    Pjl.call (Vector.generate_vector x0 y0 vec) (with_pjl "" w1) in
  (Pjl.raster_wanted g = true -> raster_repeat g = 1 /\ raster_ready sized) ->
  (Pjl.raster_wanted g = false -> Pjl.vector_wanted g = true ->
   0 < width g /\ 0 < height g) ->
  exists w',
    Pjl.generate_pjl hdr x0 y0 vec w = (Next true, w') /\
    pjl_file w' =
      (Pjl.header g ++ Pjl.page_setup g
       ++ (if ((0 <? raster_power g)%Z
                  && negb (Ascii.eqb (raster_mode g) "n"))%bool
           then Pjl.raster_intro ++ pjl_file (snd raster) else "")
       ++ (if (0 <? vector_power g)%Z
           then Pjl.vector_intro (vars w1) ++ pjl_file (snd vector) else "")
       ++ Pjl.footer ++ Pjl.trailer)%string /\
    Pjl.trailer = string_of_bytes (repeat 0 4096) /\
    String.length Pjl.trailer = 4096%nat.
Proof.
  intros g w sized raster w1 vector Hr Hv.
  pose proof (RangeFacts.range_checks_in_bounds g0)
    as (_ & _ & _ & _ & Hfreq & _).
  fold g in Hfreq.
  apply (layout_when_back g0 hdr x0 y0 bitmap vec).
  - intros Hw. destruct (Hr Hw) as [Hrep Hready].
    apply generate_raster_back; [exact Hrep | exact Hready].
  - intros Hvw. apply generate_vector_back.
    change (vector_ready (vars w1)).
    unfold w1. destruct (Pjl.raster_wanted g) eqn:Hw.
    + destruct (Hr eq_refl) as [Hrep (Hwidth & Hheight & _)].
      unfold raster. rewrite (raster_sizes hdr w Hrep). fold sized.
      split; [exact Hwidth|]. split; [exact Hheight|].
      destruct (load_header_vars hdr w) as (a & b & E).
      unfold sized. rewrite E. cbn [vector_freq set_size].
      change (vars w) with g. lia.
    + destruct (Hv eq_refl Hvw) as [Hwidth Hheight].
      change (vars w) with g.
      split; [exact Hwidth|]. split; [exact Hheight | lia].
Qed.

(** The small job: two rows of sixteen mono pixels and four vector
    commands, with the options without any command-line option. *)
Lemma job_layout_witness :
  exists w',
    Pjl.generate_pjl blank_header 0 0 small_vector
      (start (range_checks small_options) small_bitmap) = (Next true, w') /\
    String.length (pjl_file w') = 4451%nat.
Proof.
  destruct (job_layout small_options blank_header 0 0 small_bitmap small_vector)
    as (w' & Hrun & Hfile & _).
  - intros _. split; [reflexivity|].
    split; [reflexivity|]. split; [reflexivity|].
    split; [vm_compute; discriminate | vm_compute; discriminate].
  - intros H. vm_compute in H. discriminate H.
  - exists w'. split; [exact Hrun|]. rewrite Hfile. vm_compute. reflexivity.
Defined.

End LayoutFacts.

(** ** The conversion to encapsulated PostScript *)
Module EpsFacts.
Import StmtFacts Eps.

Local Open Scope string_scope.

Lemma header_unfold g ps eps :
  header g ps eps =
  match fgets ps with
  | None => (g, eps, ps)
  | Some (raw, rest) =>
      if is_comment raw then
        header (fst (page_box g (c_string raw))) rest
          (eps ++ c_string raw ++ snd (page_box g (c_string raw))
           ++ prologue (fst (page_box g (c_string raw))) (c_string raw))
      else (g, eps ++ c_string raw, rest)
  end.
Proof.
  rewrite header_equation_1. unfold Logic.inspect.
  assert (G : forall o (e : fgets ps = o),
             header_unfold_clause_1 g ps (exist _ o e) eps =
             match o with
             | None => (g, eps, ps)
             | Some (raw, rest) =>
                 if is_comment raw then
                   header (fst (page_box g (c_string raw))) rest
                     (eps ++ c_string raw ++ snd (page_box g (c_string raw))
                      ++ prologue (fst (page_box g (c_string raw)))
                           (c_string raw))
                 else (g, eps ++ c_string raw, rest)
             end).
  { intros [[raw rest]|] e; [|reflexivity].
    cbn. destruct (is_comment raw); reflexivity. }
  apply G.
Qed.

(** *** The bounding box *)

Lemma strncasecmp_eq_cons x a y b n :
  strncasecmp_eq (String x a) (String y b) (S n) = true ->
  strncasecmp_eq a b n = true.
Proof.
  cbn [strncasecmp_eq].
  destruct (Ascii.eqb (tolower x) (tolower y)); [auto | discriminate].
Qed.

Lemma strncasecmp_eq_head x a y b n :
  strncasecmp_eq (String x a) (String y b) (S n) = true ->
  Ascii.eqb (tolower x) (tolower y) = true.
Proof.
  cbn [strncasecmp_eq].
  destruct (Ascii.eqb (tolower x) (tolower y)); [auto | discriminate].
Qed.

Lemma strncasecmp_eq_short y b n :
  strncasecmp_eq EmptyString (String y b) (S n) = false.
Proof. reflexivity. Qed.

(** No number starts with the letter B. *)
Lemma scan_int_letter x rest :
  Ascii.eqb (tolower x) (tolower "B") = true ->
  Vector.scan_int (String x rest) = None.
Proof.
  destruct x as [[] [] [] [] [] [] [] []]; intros H; vm_compute in H;
    try discriminate H; reflexivity.
Qed.

Ltac peel H line :=
  destruct line as [|? line];
  [rewrite strncasecmp_eq_short in H; discriminate H|];
  apply strncasecmp_eq_cons in H; cbn [advance].

(** The text at [buf + 14] of a line that opens with the 18 characters
    of the tag is ["Box:"] and what follows. *)
Lemma tag_tail line :
  strncasecmp_eq line "%%PageBoundingBox:" 18 = true ->
  sscanf_4d (advance 14 line) = None.
Proof.
  intros H. do 14 peel H line.
  destruct line as [|c line];
    [rewrite strncasecmp_eq_short in H; discriminate H|].
  apply strncasecmp_eq_head in H.
  unfold sscanf_4d. rewrite (scan_int_letter c line H). reflexivity.
Qed.

Lemma page_box_idle g line : page_box g line = (g, "").
Proof.
  unfold page_box.
  destruct (strncasecmp_eq line "%%PageBoundingBox:" 18) eqn:E;
    [|reflexivity].
  rewrite (tag_tail line E). reflexivity.
Qed.

Lemma header_comment g ps eps raw rest :
  fgets ps = Some (raw, rest) ->
  is_comment raw = true ->
  header g ps eps =
  header g rest (eps ++ c_string raw ++ prologue g (c_string raw)).
Proof.
  intros Hf Hc. rewrite header_unfold, Hf, Hc, page_box_idle. reflexivity.
Qed.

Lemma header_vars n :
  forall g ps eps, (String.length ps < n)%nat ->
    fst (fst (header g ps eps)) = g.
Proof.
  induction n as [|n IH]; intros g ps eps Hn; [lia|].
  rewrite header_unfold.
  destruct (fgets ps) as [[raw rest]|] eqn:Hf; [|reflexivity].
  destruct (is_comment raw); [|reflexivity].
  rewrite page_box_idle. cbn [fst snd].
  apply IH. apply fgets_shorter in Hf. lia.
Qed.

(** X1. [ps_to_eps] never takes the page size from the file: the text it
    hands to [sscanf] at a line with the [%%PageBoundingBox:] tag starts
    at the 15th character, the letter B, so no number is converted and
    the block stays unused; the function returns [true] with [width],
    [height] and every other variable as they were. *)
Theorem bounding_box_never_read g ps :
  (forall line, page_box g line = (g, "")) /\
  fst (ps_to_eps g ps) = (true, g).
Proof.
  split; [intros line; apply page_box_idle|].
  unfold ps_to_eps.
  pose proof (header_vars (S (String.length ps)) g ps "" (Nat.lt_succ_diag_r _)) as H.
  destruct (header g ps "") as [[g' eps] rest]. cbn in *. subst g'. reflexivity.
Qed.

(** *** Lines *)

(** No zero byte in the text. *)
Fixpoint no_nul (s : string) : bool :=
  match s with
  | String c s' => negb (Ascii.eqb c "000") && no_nul s'
  | EmptyString => true
  end.

(** No newline in the text. *)
Fixpoint no_newline (s : string) : bool :=
  match s with
  | String c s' => negb (Ascii.eqb c "010") && no_newline s'
  | EmptyString => true
  end.

Lemma no_nul_app a b : no_nul (a ++ b) = no_nul a && no_nul b.
Proof.
  induction a as [|c a IH]; cbn; [reflexivity|].
  rewrite IH, andb_assoc. reflexivity.
Qed.

Lemma c_string_no_nul s : no_nul s = true -> c_string s = s.
Proof.
  induction s as [|c s IH]; cbn; [reflexivity|].
  destruct (Ascii.eqb c "000"); cbn; [discriminate|].
  intros H. rewrite IH by assumption. reflexivity.
Qed.

Lemma fgets_from_split n s :
  fst (fgets_from n s) ++ snd (fgets_from n s) = s.
Proof.
  revert s. induction n as [|n IH]; intros [|c s]; cbn [fgets_from];
    try reflexivity.
  destruct (Ascii.eqb c "010"); [reflexivity|].
  specialize (IH s). destruct (fgets_from n s) as [l r]. cbn in *.
  rewrite IH. reflexivity.
Qed.

Lemma fgets_from_line n l rest :
  no_newline l = true -> (String.length l < n)%nat ->
  fgets_from n (l ++ LF ++ rest) = (l ++ LF, rest).
Proof.
  revert l. induction n as [|n IH]; intros l Hl Hn; [lia|].
  destruct l as [|c l]; cbn [append fgets_from LF].
  - reflexivity.
  - cbn in Hl, Hn. destruct (Ascii.eqb c "010"); [discriminate|].
    change (String "010" rest) with (LF ++ rest).
    rewrite IH by (assumption || lia). reflexivity.
Qed.

Lemma fgets_line l rest :
  no_newline l = true -> Z.of_nat (String.length l) < BUF_SIZE - 1 ->
  fgets (l ++ LF ++ rest) = Some (l ++ LF, rest).
Proof.
  intros Hl Hn. unfold fgets.
  rewrite fgets_from_line by (assumption || lia).
  destruct l; reflexivity.
Qed.

Lemma no_nul_fgets_from n s :
  no_nul s = true -> no_nul (fst (fgets_from n s)) = true.
Proof.
  intros H. rewrite <- (fgets_from_split n s), no_nul_app in H.
  apply andb_prop in H. apply H.
Qed.

Lemma is_comment_fgets_from n c s :
  is_comment (fst (fgets_from (S n) (String c s))) = is_comment (String c s).
Proof.
  cbn [fgets_from]. destruct (Ascii.eqb c "010"); [reflexivity|].
  destruct (fgets_from n s). reflexivity.
Qed.

(** X2. A file without zero bytes whose first character is not a percent
    sign is copied as it is: the first loop of [ps_to_eps] writes the
    first line and leaves, the second copies the rest. *)
Theorem plain_file_copied g ps :
  is_comment ps = false -> no_nul ps = true ->
  snd (ps_to_eps g ps) = ps.
Proof.
  intros Hc Hn. unfold ps_to_eps. rewrite header_unfold. unfold fgets.
  destruct ps as [|c s]; [reflexivity|].
  destruct fgets_room as [n ->].
  pose proof (is_comment_fgets_from n c s) as Hi.
  pose proof (no_nul_fgets_from (S n) _ Hn) as Hz.
  pose proof (fgets_from_split (S n) (String c s)) as Hs.
  destruct (fgets_from (S n) (String c s)) as [raw rest]. cbn [fst snd] in *.
  rewrite Hi, Hc. cbn [snd append].
  rewrite c_string_no_nul by assumption. exact Hs.
Qed.

Lemma plain_file_copied_witness :
  snd (ps_to_eps (initial_globals "job" "user")
         ("0 0 moveto" ++ LF ++ "%!" ++ LF ++ "showpage" ++ LF))
  = "0 0 moveto" ++ LF ++ "%!" ++ LF ++ "showpage" ++ LF.
Proof. apply plain_file_copied; reflexivity. Defined.

Lemma header_prefix n :
  forall g ps eps, (String.length ps < n)%nat ->
    header g ps eps =
    (fst (fst (header g ps "")), eps ++ snd (fst (header g ps "")),
     snd (header g ps "")).
Proof.
  induction n as [|n IH]; intros g ps eps Hn; [lia|].
  rewrite !(header_unfold g ps).
  destruct (fgets ps) as [[raw rest]|] eqn:Hf;
    [|cbn; rewrite append_nil_r; reflexivity].
  destruct (is_comment raw); [|reflexivity].
  rewrite page_box_idle. cbn [fst snd].
  apply fgets_shorter in Hf.
  rewrite (IH g rest (eps ++ _)) by lia.
  rewrite (IH g rest ("" ++ _)) by lia.
  cbn [fst snd append]. rewrite !append_assoc. reflexivity.
Qed.

(** X3. A comment line, one that opens with a percent sign, is copied and
    the rest of the file is treated as a file of its own; after a line
    that opens with [%!] the new [stroke] and [showpage] and the screen
    come first.  The line is shorter than the buffer and holds no zero
    byte. *)
Theorem comment_line_copied g l rest :
  is_comment l = true ->
  no_nul l = true -> no_newline l = true ->
  Z.of_nat (String.length l) < BUF_SIZE - 1 ->
  snd (ps_to_eps g (l ++ LF ++ rest)) =
  l ++ LF
  ++ (if strncasecmp_eq l "%!" 2 then STROKE ++ screen g else "")
  ++ snd (ps_to_eps g rest).
Proof.
  intros Hc Hz Hl Hn. unfold ps_to_eps.
  rewrite (header_comment g _ "" (l ++ LF) rest (fgets_line l rest Hl Hn))
    by (destruct l; [discriminate | exact Hc]).
  rewrite c_string_no_nul by (rewrite no_nul_app, Hz; reflexivity).
  rewrite (header_prefix (S (String.length rest)) g rest _ (Nat.lt_succ_diag_r _)).
  destruct (header g rest "") as [[g' eps] left]. cbn [fst snd append].
  rewrite !append_assoc. do 2 f_equal.
  assert (Hp : prologue g (l ++ LF)
               = if strncasecmp_eq l "%!" 2 then STROKE ++ screen g else "").
  { unfold prologue.
    destruct l as [|a [|b l]];
      [discriminate | |
       cbn [append strncasecmp_eq];
       destruct (Ascii.eqb (tolower a) (tolower "%"));
       destruct (Ascii.eqb (tolower b) (tolower "!")); reflexivity].
    cbn. destruct (Ascii.eqb (tolower a) "%"); reflexivity. }
  rewrite Hp. reflexivity.
Qed.

Lemma comment_line_copied_witness :
  snd (ps_to_eps (initial_globals "job" "user")
         ("%!PS-Adobe-3.0" ++ LF ++ "showpage" ++ LF))
  = "%!PS-Adobe-3.0" ++ LF
    ++ (STROKE ++ screen (initial_globals "job" "user"))
    ++ snd (ps_to_eps (initial_globals "job" "user") ("showpage" ++ LF)).
Proof.
  apply (comment_line_copied (initial_globals "job" "user") "%!PS-Adobe-3.0");
    reflexivity.
Defined.

(** X4. [main] calls [range_checks] before [ps_to_eps], and then
    [screen_size] is at least 1: in mono mode the screen written is the
    one with the spot function [pop abs 1 exch sub], and neither the
    threshold transfer of [screen_size == 0] nor the cosine spot function
    is ever written. *)
Theorem screen_after_range_checks g0 :
  let g := range_checks g0 in
  screen g =
  if negb (Raster.is_mode "c" g) && negb (Raster.is_mode "g" g) then
    (if (600 <=? resolution g)%Z
     then "{dup 0 ne{" ++ fmt_d (Z.quot (resolution g) 600) ++ " "
          ++ fmt_d (screen_size g) ++ " div add}if}settransfer" ++ LF
     else "")
    ++ fmt_d (Z.quot (resolution g) (screen_size g))
    ++ " 30{pop abs 1 exch sub}setscreen" ++ LF
  else "".
Proof.
  intros g. unfold screen.
  assert (H : (1 <= screen_size g)%Z).
  { unfold g, range_checks, check_lo. cbn [screen_size].
    destruct (Z.ltb_spec (screen_size g0) 1); lia. }
  destruct (negb _ && negb _); [|reflexivity].
  destruct (Z.eqb_spec (screen_size g) 0); [lia|].
  destruct (Z.ltb_spec 0 (screen_size g)); [reflexivity | lia].
Qed.

End EpsFacts.

(** ** The bitmap header *)
Module BitmapFacts.
Import StmtFacts.

Lemma int32_fits z : - 2 ^ 31 <= z < 2 ^ 31 -> Raster.int32 z = z.
Proof.
  intros H. unfold Raster.int32. rewrite Z.mod_small by lia. lia.
Qed.

Lemma int32_wraps z : 2 ^ 31 <= z < 2 ^ 32 -> Raster.int32 z = z - 2 ^ 32.
Proof.
  intros H. unfold Raster.int32.
  replace (z + 2 ^ 31) with (z - 2 ^ 31 + 1 * 2 ^ 32) by lia.
  rewrite Z.mod_add by lia. rewrite Z.mod_small by lia. lia.
Qed.

(** X5. [big_to_little_endian (position, 4)] takes the four bytes with
    the least significant first, whatever its name says: the value is
    [b0 + 256 b1 + 65536 b2 + 16777216 b3], and with the top bit of the
    fourth byte set it is that number less [2 ^ 32], a negative [int]. *)
Theorem four_bytes_least_first b0 b1 b2 b3 rest :
  is_byte b0 -> is_byte b1 -> is_byte b2 -> is_byte b3 ->
  Raster.big_to_little_endian (b0 :: b1 :: b2 :: b3 :: rest) 4 =
  b0 + 256 * b1 + 65536 * b2 + 16777216 * b3
  - (if b3 <? 128 then 0 else 4294967296).
Proof.
  unfold is_byte, Raster.big_to_little_endian. intros H0 H1 H2 H3.
  cbn [firstn Raster.big_to_little_endian_from].
  change (8 * 0) with 0. change (8 * (0 + 1)) with 8.
  change (8 * (0 + 1 + 1)) with 16. change (8 * (0 + 1 + 1 + 1)) with 24.
  rewrite !Z.shiftl_mul_pow2 by lia.
  change (2 ^ 0) with 1. change (2 ^ 8) with 256.
  change (2 ^ 16) with 65536. change (2 ^ 24) with 16777216.
  rewrite (int32_fits (b0 * 1)) by lia.
  rewrite (int32_fits (0 + b0 * 1)) by lia.
  rewrite (int32_fits (b1 * 256)) by lia.
  rewrite (int32_fits (0 + b0 * 1 + b1 * 256)) by lia.
  rewrite (int32_fits (b2 * 65536)) by lia.
  rewrite (int32_fits (0 + b0 * 1 + b1 * 256 + b2 * 65536)) by lia.
  destruct (Z.ltb_spec b3 128).
  - rewrite (int32_fits (b3 * 16777216)) by lia.
    rewrite int32_fits by lia. lia.
  - rewrite (int32_wraps (b3 * 16777216)) by lia.
    rewrite int32_fits by lia. lia.
Qed.

Lemma four_bytes_least_first_witness :
  Raster.big_to_little_endian [16; 2; 0; 0; 77] 4 = 528 /\
  Raster.big_to_little_endian [0; 0; 0; 255] 4 = - 16777216.
Proof.
  split.
  - apply (four_bytes_least_first 16 2 0 0 [77]); unfold is_byte; lia.
  - apply (four_bytes_least_first 0 0 0 255 []); unfold is_byte; lia.
Defined.

Lemma field_of_file (file tail : list Z) k :
  (k + 4 <= 54)%nat -> (54 <= length file)%nat ->
  firstn 4 (skipn k (firstn 54 file ++ tail)) = firstn 4 (skipn k file).
Proof.
  intros Hk Hlen.
  rewrite skipn_app, firstn_app, length_skipn, !length_firstn.
  replace (4 - (Nat.min 54 (length file) - k))%nat with 0%nat by lia.
  rewrite firstn_O, app_nil_r.
  rewrite skipn_firstn_comm, firstn_firstn.
  replace (Nat.min 4 (54 - k)) with 4%nat by lia. reflexivity.
Qed.

(** X6. With the bitmap at its start and 54 bytes or more in it,
    [generate_raster] takes the size of the picture from the file and not
    from the page: [width] from bytes 18 to 21, [height] from bytes 22 to
    25 and the offset of the rows from bytes 10 to 13, whatever the
    header array held before; no other variable changes, nothing is
    written, and the file is left behind the header. *)
Theorem header_fields hdr w :
  position (bitmap_file w) = 0%nat ->
  (54 <= length (contents (bitmap_file w)))%nat ->
  let file := contents (bitmap_file w) in
  let r := Raster.load_header hdr w in
  fst r = Next (firstn 54 file ++ skipn 54 hdr,
                Raster.big_to_little_endian (skipn 10 file) 4) /\
  vars (snd r) =
    set_size (Raster.big_to_little_endian (skipn 18 file) 4)
      (Raster.big_to_little_endian (skipn 22 file) 4) (vars w) /\
  position (bitmap_file (snd r)) = 54%nat /\
  pjl_file (snd r) = pjl_file w /\ stderr (snd r) = stderr w.
Proof.
  intros Hpos Hlen file r. subst r.
  unfold Raster.load_header, bind, read_bitmap, fread, get_vars, put_vars,
    ret. rewrite Hpos, skipn_O. cbn [fst snd vars].
  change (Z.to_nat BITMAP_HEADER_NBYTES) with 54%nat. fold file.
  assert (Hgot : length (firstn 54 file) = 54%nat)
    by (rewrite length_firstn; subst file; lia).
  unfold Raster.overlay. rewrite Hgot.
  unfold Raster.big_to_little_endian.
  rewrite !field_of_file by (subst file; lia).
  cbn [fst snd vars bitmap_file position pjl_file stderr].
  repeat split; reflexivity.
Qed.

Lemma header_fields_witness :
  let w := PjlFacts.start PjlFacts.small_options PjlFacts.small_bitmap in
  width (vars (snd (Raster.load_header PjlFacts.blank_header w))) = 16 /\
  height (vars (snd (Raster.load_header PjlFacts.blank_header w))) = 2.
Proof.
  intros w.
  destruct (header_fields PjlFacts.blank_header w eq_refl) as (_ & H & _).
  - cbn. lia.
  - rewrite H. split; reflexivity.
Defined.

(** X7. [generate_raster] does not look at what [fread] returns for the
    header.  When the file has nothing left at the place where it is
    read, the array keeps its bytes and the size is taken from them: the
    second turn of the repeat loop, which starts where the first one
    ended, goes on with the header of the first. *)
Theorem missing_header_unnoticed hdr w :
  (length (contents (bitmap_file w)) <= position (bitmap_file w))%nat ->
  Raster.load_header hdr w =
  (Next (hdr, Raster.big_to_little_endian (skipn 10 hdr) 4),
   {| vars := set_size (Raster.big_to_little_endian (skipn 18 hdr) 4)
                (Raster.big_to_little_endian (skipn 22 hdr) 4) (vars w);
      pjl_file := pjl_file w;
      stderr := stderr w;
      bitmap_file := bitmap_file w |}).
Proof.
  intros Hend.
  unfold Raster.load_header, bind, read_bitmap, fread, get_vars, put_vars,
    ret.
  rewrite skipn_all2 by exact Hend. rewrite firstn_nil.
  cbn [length Raster.overlay app skipn fst snd vars pjl_file stderr
       bitmap_file].
  rewrite Nat.add_0_r. destruct (bitmap_file w); reflexivity.
Qed.

Lemma missing_header_unnoticed_witness :
  width (vars (snd (Raster.load_header (PjlFacts.bmp 16 2 [])
                      (PjlFacts.start PjlFacts.small_options [])))) = 16.
Proof.
  rewrite (missing_header_unnoticed (PjlFacts.bmp 16 2 [])
             (PjlFacts.start PjlFacts.small_options [])) by (cbn; lia).
  reflexivity.
Defined.

End BitmapFacts.

(** ** The scan lines *)
Module LineFacts.
Import StmtFacts PjlFacts.

(** *** The part of a line that is printed *)

Lemma leading_zeros_le xs : (Raster.leading_zeros xs <= length xs)%nat.
Proof.
  induction xs as [|x xs IH]; cbn [Raster.leading_zeros length]; [lia|].
  destruct (x =? 0); lia.
Qed.

Lemma leading_zeros_firstn xs :
  firstn (Raster.leading_zeros xs) xs = repeat 0 (Raster.leading_zeros xs).
Proof.
  induction xs as [|x xs IH]; cbn [Raster.leading_zeros]; [reflexivity|].
  destruct (Z.eqb_spec x 0) as [->|_]; [|reflexivity].
  cbn [firstn repeat]. rewrite IH. reflexivity.
Qed.

Lemma leading_zeros_nth xs :
  (Raster.leading_zeros xs < length xs)%nat ->
  nth (Raster.leading_zeros xs) xs 0 <> 0.
Proof.
  induction xs as [|x xs IH]; cbn [Raster.leading_zeros length]; [lia|].
  destruct (Z.eqb_spec x 0) as [->|Hx]; cbn [nth]; [|intros _; exact Hx].
  intros H. apply IH. lia.
Qed.

Lemma leading_zeros_before xs i :
  nth i xs 0 <> 0 -> (Raster.leading_zeros xs <= i)%nat.
Proof.
  revert i. induction xs as [|x xs IH]; intros i; cbn [Raster.leading_zeros].
  - lia.
  - destruct (Z.eqb_spec x 0) as [->|Hx]; [|lia].
    destruct i as [|i]; cbn [nth]; [congruence|].
    intros H. specialize (IH i H). lia.
Qed.

Lemma leading_zeros_all xs :
  Forall (fun v => v = 0) xs -> Raster.leading_zeros xs = length xs.
Proof.
  induction 1 as [|x xs -> _ IH]; cbn [Raster.leading_zeros length];
    [reflexivity|].
  cbn. rewrite IH. reflexivity.
Qed.

(** The two edges of a line that is not blank. *)
Lemma edges_apart line :
  (Raster.leading_zeros line < length line)%nat ->
  (Raster.leading_zeros line < Raster.right_edge line <= length line)%nat /\
  nth (Raster.right_edge line - 1) line 0 <> 0.
Proof.
  intros Hl. unfold Raster.right_edge.
  pose proof (leading_zeros_nth line Hl) as Hn.
  assert (Hk : (Raster.leading_zeros (rev line)
                <= length line - S (Raster.leading_zeros line))%nat).
  { apply leading_zeros_before.
    rewrite rev_nth by lia.
    replace (length line - S (length line - S (Raster.leading_zeros line)))%nat
      with (Raster.leading_zeros line) by lia.
    exact Hn. }
  split; [lia|].
  pose proof (leading_zeros_nth (rev line)) as Hr.
  rewrite length_rev in Hr. specialize (Hr ltac:(lia)).
  rewrite rev_nth in Hr by lia.
  replace (length line - Raster.leading_zeros (rev line) - 1)%nat
    with (length line - S (Raster.leading_zeros (rev line)))%nat by lia.
  exact Hr.
Qed.

Lemma right_edge_tail line :
  skipn (Raster.right_edge line) line =
  repeat 0 (length line - Raster.right_edge line).
Proof.
  unfold Raster.right_edge.
  pose proof (leading_zeros_le (rev line)) as Hle. rewrite length_rev in Hle.
  pose proof (leading_zeros_firstn (rev line)) as Hz.
  rewrite firstn_rev in Hz.
  apply (f_equal (@rev Z)) in Hz. rewrite rev_involutive, rev_repeat in Hz.
  rewrite Hz. f_equal. lia.
Qed.

(** X8. The loops that find [l] and [r] cut a line that is not blank
    into the zero bytes on the left, which are not sent, the bytes from
    the first to the last one that is not zero, and the zero bytes on the
    right, which are not sent either. *)
Theorem active_range_trims line :
  (Raster.leading_zeros line < length line)%nat ->
  let range := Raster.active_range line in
  line = repeat 0 (Raster.leading_zeros line) ++ range
         ++ repeat 0 (length line - Raster.right_edge line) /\
  Z.of_nat (length range)
    = Z.of_nat (Raster.right_edge line) - Z.of_nat (Raster.leading_zeros line) /\
  nth 0 range 0 <> 0 /\
  nth (length range - 1) range 0 <> 0.
Proof.
  intros Hl range. subst range. unfold Raster.active_range.
  destruct (edges_apart line Hl) as [Hlr Hlast].
  set (l := Raster.leading_zeros line) in *.
  set (r := Raster.right_edge line) in *.
  assert (Hlen : length (firstn (r - l) (skipn l line)) = (r - l)%nat).
  { rewrite length_firstn, length_skipn. lia. }
  split; [|split; [|split]].
  - rewrite <- (firstn_skipn l line) at 1.
    unfold l at 1. rewrite leading_zeros_firstn. fold l. f_equal.
    rewrite <- (firstn_skipn (r - l) (skipn l line)) at 1. f_equal.
    rewrite skipn_skipn. replace (r - l + l)%nat with r by lia.
    apply right_edge_tail.
  - rewrite Hlen. lia.
  - rewrite nth_firstn.
    destruct (Nat.ltb_spec 0 (r - l)); [|lia].
    rewrite nth_skipn, Nat.add_0_r. apply leading_zeros_nth. exact Hl.
  - rewrite Hlen, nth_firstn.
    destruct (Nat.ltb_spec (r - l - 1) (r - l)); [|lia].
    rewrite nth_skipn. replace (l + (r - l - 1))%nat with (r - 1)%nat by lia.
    exact Hlast.
Qed.

Lemma active_range_trims_witness :
  [0; 0; 7; 0; 9; 0] = repeat 0 2 ++ [7; 0; 9] ++ repeat 0 1.
Proof.
  exact (proj1 (active_range_trims [0; 0; 7; 0; 9; 0] ltac:(cbn; lia))).
Defined.

(** *** Blank lines *)

(** X9. A line whose bytes are all zero after the conversion of the
    mode and, in colour and grey mode, after the scaling by the raster
    power, sends nothing: no position, no length, no data; and the next
    line is scanned in the same direction.  A grey line of pixels 254 at
    the power 40 is such a line: its bytes are 1 before the scaling and 0
    after it. *)
Theorem blank_line_skipped g h d bx by_ ox oy pass y (dir : bool) w line w1 :
  Raster.read_line g h d pass y w = (Next line, w1) ->
  Forall (fun v => v = 0)
    (if Raster.power_levels g then map (Raster.power_scale g) line else line) ->
  Raster.scan_line g h d bx by_ ox oy pass y dir w = (Next dir, w1).
Proof.
  intros Hread Hzero. unfold Raster.scan_line, bind. rewrite Hread.
  rewrite (leading_zeros_all _ Hzero), Nat.ltb_irrefl. reflexivity.
Qed.

Lemma blank_line_skipped_witness :
  Raster.read_line (RasterFacts.with_mode "g" small_options) 4 4 0 1
    (start (RasterFacts.with_mode "g" small_options) [254; 254; 254; 254])
  = (Next [1; 1; 1; 1],
     {| vars := RasterFacts.with_mode "g" small_options;
        pjl_file := EmptyString; stderr := [];
        bitmap_file := {| contents := [254; 254; 254; 254];
                          position := 4 |} |}) /\
  pjl_file (snd (Raster.scan_line (RasterFacts.with_mode "g" small_options)
                   4 4 0 0 0 0 0 1 true
                   (start (RasterFacts.with_mode "g" small_options)
                      [254; 254; 254; 254])))
  = EmptyString.
Proof.
  assert (Hread : Raster.read_line (RasterFacts.with_mode "g" small_options)
                    4 4 0 1
                    (start (RasterFacts.with_mode "g" small_options)
                       [254; 254; 254; 254])
                  = (Next [1; 1; 1; 1],
                     {| vars := RasterFacts.with_mode "g" small_options;
                        pjl_file := EmptyString;
                        stderr := [];
                        bitmap_file := {| contents := [254; 254; 254; 254];
                                          position := 4 |} |}))
    by reflexivity.
  split; [exact Hread|].
  rewrite (blank_line_skipped (RasterFacts.with_mode "g" small_options)
             4 4 0 0 0 0 0 1 true _ _ _ Hread).
  - reflexivity.
  - repeat constructor.
Defined.

(** *** Power levels *)

(** X10. In grey mode a pixel of value [v] gets the power
    [(255 - v) * raster_power / 255]: nothing for white, the raster power
    for black, and never more than the raster power. *)
Theorem grey_power g v :
  0 <= raster_power g <= 100 -> is_byte v ->
  Raster.power_scale g (Raster.grey_level v)
    = (255 - v) * raster_power g / 255 /\
  0 <= Raster.power_scale g (Raster.grey_level v) <= raster_power g /\
  Raster.power_scale g (Raster.grey_level 255) = 0 /\
  Raster.power_scale g (Raster.grey_level 0) = raster_power g.
Proof.
  unfold is_byte, Raster.power_scale, Raster.grey_level, uchar.
  intros Hp Hv.
  assert (Hq : forall u, 0 <= u <= 255 ->
                 0 <= Z.quot (u * raster_power g) 255 <= raster_power g).
  { intros u Hu. rewrite Z.quot_div_nonneg by nia.
    split; [apply Z.div_pos; nia|].
    apply Z.div_le_upper_bound; nia. }
  rewrite (Z.mod_small (255 - v)) by lia.
  pose proof (Hq (255 - v) ltac:(lia)) as H1.
  rewrite (Z.mod_small (Z.quot _ 255)) by lia.
  split; [apply Z.quot_div_nonneg; nia|]. split; [exact H1|].
  change ((255 - 255) mod 256) with 0. change ((255 - 0) mod 256) with 255.
  split; [reflexivity|].
  rewrite Z.mod_small by (pose proof (Hq 255 ltac:(lia)); lia).
  rewrite Z.quot_div_nonneg by nia.
  rewrite Z.mul_comm. apply Z.div_mul. lia.
Qed.

Lemma grey_power_witness :
  Raster.power_scale small_options (Raster.grey_level 100)
  = (255 - 100) * raster_power small_options / 255.
Proof.
  apply (grey_power small_options 100); unfold is_byte; cbn; lia.
Defined.

(** *** Colour passes *)

Lemma luminance_bound f0 f1 f2 :
  is_byte f0 -> is_byte f1 -> is_byte f2 ->
  RasterFacts.mask f0 f1 f2 <> 7 ->
  0 <= RasterFacts.luminance f0 f1 f2 <= 240.
Proof.
  unfold is_byte, RasterFacts.mask, RasterFacts.luminance, RasterFacts.saturated.
  intros H0 H1 H2.
  destruct (Z.ltb_spec 240 f0), (Z.ltb_spec 240 f1), (Z.ltb_spec 240 f2);
    cbn [Z.add Pos.add Pos.succ]; intros Hm; try (exfalso; apply Hm; reflexivity).
  all: match goal with
       | |- context [Z.quot ?a ?b] =>
           pose proof (Z.quot_pos a b ltac:(lia) ltac:(lia));
           pose proof (Z.quot_le_upper_bound a b 240 ltac:(lia) ltac:(lia))
       end; lia.
Qed.

(** X11. Over the seven passes of colour mode a pixel is burnt once or
    not at all: a pixel with three saturated channels is blank in every
    pass, and any other pixel is blank in all passes but the one of its
    mask, where its byte is at least 15. *)
Theorem pixel_burnt_once g f0 f1 f2 :
  Raster.is_mode "c" g = true ->
  is_byte f0 -> is_byte f1 -> is_byte f2 ->
  filter (fun pass => negb (Raster.colour_pixel pass f0 f1 f2 =? 0))
    (Raster.pass_numbers g)
  = (if RasterFacts.mask f0 f1 f2 =? 7 then []
     else [RasterFacts.mask f0 f1 f2]) /\
  (RasterFacts.mask f0 f1 f2 <> 7 ->
   15 <= Raster.colour_pixel (RasterFacts.mask f0 f1 f2) f0 f1 f2).
Proof.
  intros Hc H0 H1 H2.
  assert (Hv : forall pass,
             Raster.colour_pixel pass f0 f1 f2 =
             if RasterFacts.mask f0 f1 f2 =? 7 then 0
             else if RasterFacts.mask f0 f1 f2 =? pass
                  then 255 - RasterFacts.luminance f0 f1 f2 else 0)
    by (intros; apply RasterFacts.colour_pixel_value; assumption).
  pose proof (luminance_bound f0 f1 f2 H0 H1 H2) as Hl.
  split.
  - unfold Raster.pass_numbers. rewrite Hc. cbn [seq map Z.of_nat Pos.of_succ_nat Pos.succ filter].
    rewrite !Hv.
    destruct (Z.eqb_spec (RasterFacts.mask f0 f1 f2) 7) as [|Hm];
      [reflexivity|].
    specialize (Hl Hm).
    assert (Hnz : (255 - RasterFacts.luminance f0 f1 f2 =? 0) = false)
      by (apply Z.eqb_neq; lia).
    assert (Hrange : 0 <= RasterFacts.mask f0 f1 f2 <= 7).
    { unfold RasterFacts.mask.
      destruct (RasterFacts.saturated f0), (RasterFacts.saturated f1),
        (RasterFacts.saturated f2); lia. }
    set (m := RasterFacts.mask f0 f1 f2) in *.
    assert (Hcases : m = 0 \/ m = 1 \/ m = 2 \/ m = 3 \/ m = 4 \/ m = 5 \/ m = 6)
      by lia.
    destruct Hcases as [E|[E|[E|[E|[E|[E|E]]]]]]; rewrite E in *;
      cbn [Z.eqb Pos.eqb]; rewrite ?Hnz; reflexivity.
  - intros Hm. rewrite Hv. specialize (Hl Hm).
    destruct (Z.eqb_spec (RasterFacts.mask f0 f1 f2) 7); [contradiction|].
    rewrite Z.eqb_refl. lia.
Qed.

Lemma pixel_burnt_once_witness :
  filter (fun pass => negb (Raster.colour_pixel pass 250 100 50 =? 0))
    (Raster.pass_numbers RasterFacts.colour_options) = [1].
Proof.
  apply (pixel_burnt_once RasterFacts.colour_options 250 100 50);
    [reflexivity | unfold is_byte; lia ..].
Defined.

End LineFacts.

(** ** The loops, turn by turn *)
Module LoopFacts.
Import Loops.

(** *** The bytes of a line sent right to left *)

Lemma length_store i v buf :
  (i < length buf)%nat -> length (store i v buf) = length buf.
Proof.
  intros H. unfold store.
  rewrite length_app, length_firstn. cbn [length]. rewrite length_skipn. lia.
Qed.

Lemma nth_store i v buf j :
  (i < length buf)%nat ->
  nth j (store i v buf) 0 = if (j =? i)%nat then v else nth j buf 0.
Proof.
  intros H. unfold store.
  assert (Hf : length (firstn i buf) = i) by (rewrite length_firstn; lia).
  destruct (Nat.eqb_spec j i) as [->|Hne].
  - rewrite app_nth2 by lia. rewrite Hf, Nat.sub_diag. reflexivity.
  - destruct (Nat.lt_ge_cases j i) as [Hlt|Hge].
    + rewrite app_nth1 by lia. rewrite nth_firstn.
      destruct (Nat.ltb_spec j i); [reflexivity | lia].
    + rewrite app_nth2 by lia. rewrite Hf.
      replace (j - i)%nat with (S (j - S i)) by lia. cbn [nth].
      rewrite nth_skipn. f_equal. lia.
Qed.

(** The places of [buf[l..r)] that the first [n] turns have dealt with:
    the first [n] and the last [n]. *)
Definition in_zone (n l r i : nat) : bool :=
  ((l <=? i)%nat && (i <? l + n)%nat) || ((r - n <=? i)%nat && (i <? r)%nat).

(** The array after [n] turns of the loop: the first and the last [n]
    bytes of [buf[l..r)] have changed places, in mirror order. *)
Definition swapped (n l r : nat) (buf cur : list Z) : Prop :=
  length cur = length buf /\
  forall i,
    nth i cur 0 =
    if in_zone n l r i then nth (l + r - 1 - i) buf 0 else nth i buf 0.

Ltac nat_cases :=
  repeat match goal with
         | |- context [(?a <=? ?b)%nat] => destruct (Nat.leb_spec a b)
         | |- context [(?a <? ?b)%nat] => destruct (Nat.ltb_spec a b)
         | |- context [(?a =? ?b)%nat] => destruct (Nat.eqb_spec a b)
         end.

Ltac bool_lia :=
  rewrite ?orb_true_iff, ?orb_false_iff, ?andb_true_iff, ?andb_false_iff,
    ?Nat.leb_le, ?Nat.leb_gt, ?Nat.ltb_lt, ?Nat.ltb_ge, ?Nat.eqb_eq,
    ?Nat.eqb_neq; lia.

Lemma in_zone_step n l r i :
  (2 * S n <= r - l)%nat ->
  in_zone (S n) l r i =
  (i =? r - n - 1)%nat || (i =? l + n)%nat || in_zone n l r i.
Proof.
  intros H. unfold in_zone. apply eq_true_iff_eq. bool_lia.
Qed.

Lemma in_zone_next n l r :
  (2 * S n <= r - l)%nat ->
  in_zone n l r (l + n) = false /\ in_zone n l r (r - n - 1) = false.
Proof.
  intros H. unfold in_zone. split; bool_lia.
Qed.

Lemma reverse_from_swapped l r buf turns :
  forall n cur,
    (2 * (n + turns) <= r - l)%nat -> (r <= length buf)%nat ->
    swapped n l r buf cur ->
    swapped (n + turns) l r buf (reverse_from turns n l r cur).
Proof.
  induction turns as [|turns IH]; intros n cur Hn Hr [Hlen Hcur].
  - rewrite Nat.add_0_r. split; assumption.
  - cbn [reverse_from]. replace (n + S turns)%nat with (S n + turns)%nat by lia.
    apply IH; [lia | exact Hr |].
    split.
    + rewrite !length_store; [exact Hlen | lia |].
      rewrite length_store by lia. lia.
    + intros i. rewrite nth_store by (rewrite length_store by lia; lia).
      rewrite nth_store by lia. rewrite !Hcur.
      destruct (in_zone_next n l r ltac:(lia)) as [-> ->].
      rewrite in_zone_step by lia.
      destruct (Nat.eqb_spec i (r - n - 1)) as [->|_];
        [cbn [orb]; f_equal; lia|].
      destruct (Nat.eqb_spec i (l + n)) as [->|_];
        [cbn [orb]; f_equal; lia|].
      reflexivity.
Qed.

Lemma reverse_bytes_nth buf l r i :
  (l <= r <= length buf)%nat ->
  length (reverse_bytes l r buf) = length buf /\
  nth i (reverse_bytes l r buf) 0 =
  if (l <=? i)%nat && (i <? r)%nat then nth (l + r - 1 - i) buf 0
  else nth i buf 0.
Proof.
  intros Hlr. unfold reverse_bytes.
  pose proof (Nat.div_mod_eq (r - l) 2) as Hd.
  pose proof (Nat.mod_upper_bound (r - l) 2 ltac:(lia)) as Hm.
  set (m := ((r - l) / 2)%nat) in *.
  destruct (reverse_from_swapped l r buf m 0 buf) as [Hlen Hnth].
  - lia.
  - lia.
  - split; [reflexivity|]. intros j. unfold in_zone.
    rewrite Nat.add_0_r, Nat.sub_0_r.
    nat_cases; cbn [andb orb]; try lia; reflexivity.
  - split; [exact Hlen|]. rewrite Hnth. cbn [Nat.add]. unfold in_zone.
    nat_cases; cbn [andb orb]; try lia; try reflexivity; f_equal; lia.
Qed.

Lemma reverse_bytes_rev buf l r :
  (l <= r <= length buf)%nat ->
  reverse_bytes l r buf =
  firstn l buf ++ rev (firstn (r - l) (skipn l buf)) ++ skipn r buf.
Proof.
  intros Hlr.
  assert (Hmid : length (firstn (r - l) (skipn l buf)) = (r - l)%nat)
    by (rewrite length_firstn, length_skipn; lia).
  assert (Hfirst : length (firstn l buf) = l) by (rewrite length_firstn; lia).
  apply (nth_ext _ _ 0 0).
  - rewrite (proj1 (reverse_bytes_nth buf l r 0 Hlr)).
    rewrite !length_app, length_rev, Hmid, Hfirst, length_skipn. lia.
  - intros i _. rewrite (proj2 (reverse_bytes_nth buf l r i Hlr)).
    destruct (Nat.lt_ge_cases i l) as [H1|H1].
    + rewrite app_nth1 by lia. rewrite nth_firstn.
      nat_cases; cbn [andb]; try lia; reflexivity.
    + rewrite app_nth2 by lia. rewrite Hfirst.
      destruct (Nat.lt_ge_cases i r) as [H2|H2].
      * rewrite app_nth1 by (rewrite length_rev; lia).
        rewrite rev_nth by lia. rewrite Hmid, nth_firstn, nth_skipn.
        nat_cases; cbn [andb]; try lia. f_equal. lia.
      * rewrite app_nth2 by (rewrite length_rev; lia).
        rewrite length_rev, Hmid, nth_skipn.
        nat_cases; cbn [andb]; try lia. f_equal. lia.
Qed.

Lemma right_scan_stops line l e :
  (l < e)%nat -> nth (e - 1) line 0 <> 0 ->
  (forall j, (e <= j)%nat -> nth j line 0 = 0) ->
  forall k, right_scan (e - 1 + k) l line = (e - 1)%nat.
Proof.
  intros Hl He Hz. induction k as [|k IH].
  - rewrite Nat.add_0_r. destruct (e - 1)%nat as [|r'] eqn:E; [reflexivity|].
    cbn [right_scan]. destruct (Z.eqb_spec (nth (S r') line 0) 0);
      [contradiction|]. rewrite andb_false_r. reflexivity.
  - replace (e - 1 + S k)%nat with (S (e - 1 + k)) by lia.
    cbn [right_scan]. rewrite (Hz (S (e - 1 + k))) by lia.
    destruct (Nat.ltb_spec l (S (e - 1 + k))); [|lia].
    cbn [andb Z.eqb]. exact IH.
Qed.

(** X12. The two loops of a line that is printed, turn by turn, on the
    array: the loop that steps [r] down from the end stops at the right
    edge of the line, and the loop that swaps the bytes for a scan from
    right to left leaves in [buf[l..r)] the active range in reverse order
    and changes nothing outside it. *)
Theorem swap_loop_reverses line :
  (Raster.leading_zeros line < length line)%nat ->
  let l := Raster.leading_zeros line in
  let r := right_end (length line) l line in
  r = Raster.right_edge line /\
  reverse_bytes l r line =
  firstn l line ++ rev (Raster.active_range line) ++ skipn r line.
Proof.
  intros Hl l r.
  destruct (LineFacts.edges_apart line Hl) as [Hlr Hlast].
  assert (Hr : r = Raster.right_edge line).
  { subst r. unfold right_end.
    replace (length line - 1)%nat
      with (Raster.right_edge line - 1
            + (length line - Raster.right_edge line))%nat by lia.
    rewrite (right_scan_stops line l (Raster.right_edge line));
      [lia | exact (proj1 Hlr) | exact Hlast |].
    intros j Hj.
    rewrite <- (firstn_skipn (Raster.right_edge line) line).
    assert (Hf : length (firstn (Raster.right_edge line) line)
                 = Raster.right_edge line) by (rewrite length_firstn; lia).
    rewrite app_nth2 by lia. rewrite Hf, LineFacts.right_edge_tail.
    apply nth_repeat. }
  split; [exact Hr|].
  rewrite Hr, reverse_bytes_rev by (subst l; lia). reflexivity.
Qed.

Lemma swap_loop_reverses_witness :
  reverse_bytes 2 5 [0; 0; 7; 0; 9; 0] = [0; 0; 9; 0; 7; 0].
Proof.
  exact (proj2 (swap_loop_reverses [0; 0; 7; 0; 9; 0] ltac:(cbn; lia))).
Defined.

(** *** The tiles *)

Lemma tile_offsets_below fuel dim off :
  off < 0 -> tile_offsets fuel dim off = Some [].
Proof.
  intros H. destruct fuel; cbn [tile_offsets];
    destruct (Z.ltb_spec off 0); try lia; reflexivity.
Qed.

Lemma tile_offsets_down dim (Hdim : 0 < dim) n :
  forall fuel,
    (n < fuel)%nat ->
    tile_offsets fuel dim (dim * Z.of_nat n) =
    Some (map (fun k => dim * Z.of_nat n - dim * Z.of_nat k) (seq 0 (S n))).
Proof.
  induction n as [|n IH]; intros fuel Hfuel;
    (destruct fuel as [|fuel]; [lia|]); cbn [tile_offsets].
  - destruct (Z.ltb_spec (dim * Z.of_nat 0) 0); [lia|].
    rewrite tile_offsets_below by lia.
    cbn [option_map seq map]. do 2 f_equal. lia.
  - destruct (Z.ltb_spec (dim * Z.of_nat (S n)) 0); [nia|].
    replace (dim * Z.of_nat (S n) - dim) with (dim * Z.of_nat n) by lia.
    rewrite IH by lia. cbn [option_map]. f_equal.
    change (seq 0 (S (S n))) with (0%nat :: seq 1 (S n)).
    cbn [map]. f_equal; [lia|].
    rewrite <- seq_shift, map_map. apply map_ext. intros k. lia.
Qed.

(** X13. The loop over the tiles, turn by turn: with a positive size
    and [rep] tiles asked for, it is left after [rep] turns and [off] has
    taken the values [dim * (rep - 1)], ..., [dim], 0, the list the
    functions above run their bodies on. *)
Theorem tile_loop_offsets dim rep fuel :
  0 < dim -> 1 <= rep -> (Z.to_nat rep <= fuel)%nat ->
  tile_offsets fuel dim (dim * (rep - 1)) = Some (countdown dim rep) /\
  Z.of_nat (length (countdown dim rep)) = rep /\
  nth 0 (countdown dim rep) 0 = dim * (rep - 1) /\
  last (countdown dim rep) 1 = 0.
Proof.
  intros Hdim Hrep Hfuel.
  assert (Hq : Z.quot (dim * (rep - 1)) dim = rep - 1).
  { rewrite Z.quot_div_nonneg by nia. rewrite Z.mul_comm.
    apply Z.div_mul. lia. }
  assert (Hc : countdown dim rep =
               map (fun k => dim * (rep - 1) - dim * Z.of_nat k)
                 (seq 0 (S (Z.to_nat (rep - 1))))).
  { unfold countdown. destruct (Z.ltb_spec (dim * (rep - 1)) 0); [nia|].
    rewrite Hq. reflexivity. }
  split; [|split; [|split]].
  - rewrite Hc.
    pose proof (tile_offsets_down dim Hdim (Z.to_nat (rep - 1)) fuel
                  ltac:(lia)) as H.
    rewrite Z2Nat.id in H by lia. exact H.
  - rewrite Hc, length_map, length_seq. lia.
  - rewrite Hc. cbn [seq map nth]. lia.
  - rewrite Hc. rewrite seq_S, map_app. cbn [map]. rewrite last_last.
    cbn [Nat.add]. rewrite Z2Nat.id by lia. lia.
Qed.

Lemma tile_loop_offsets_witness :
  tile_offsets 3 16 (16 * (3 - 1)) = Some [32; 16; 0].
Proof.
  destruct (tile_loop_offsets 16 3 3) as (H & _); [lia | lia | cbn; lia |].
  rewrite H. reflexivity.
Defined.

End LoopFacts.

(** ** Pictures without width or height *)
Module EndlessFacts.
Import StmtFacts PjlFacts SettleFacts.

(** *** The ways a statement can stop *)

Section Stops.

Variable P : stop -> Prop.

(** When the statement stops before its end, it is in one of the ways
    [P]. *)
Definition stops_in {A} (m : stmt A) : Prop :=
  forall w s, fst (m w) = Stop s -> P s.

Lemma stops_in_ret {A} (a : A) : stops_in (ret a).
Proof. intros w s. cbn. discriminate. Qed.

Lemma stops_in_emit s : stops_in (emit s).
Proof. intros w s'. cbn. discriminate. Qed.

Lemma stops_in_seek_bitmap n : stops_in (seek_bitmap n).
Proof. intros w s. cbn. discriminate. Qed.

Lemma stops_in_halt {A} s : P s -> stops_in (@halt A s).
Proof. intros H w s'. cbn. intros [= <-]. exact H. Qed.

Lemma stops_in_bind {A B} (m : stmt A) (k : A -> stmt B) :
  stops_in m -> (forall a, stops_in (k a)) -> stops_in (bind m k).
Proof.
  intros Hm Hk w s. unfold bind. specialize (Hm w).
  destruct (m w) as [[a|s'] w1]; cbn [fst] in *.
  - apply Hk.
  - intros [= <-]. apply Hm. reflexivity.
Qed.

Lemma stops_in_for_each {A} (xs : list A) body :
  (forall x, stops_in (body x)) -> stops_in (for_each xs body).
Proof.
  intros H. induction xs as [|x xs IH]; cbn [for_each].
  - apply stops_in_ret.
  - apply stops_in_bind; auto.
Qed.

Lemma stops_in_fold_each {A S} (xs : list A) (body : A -> S -> stmt S) :
  (forall x s, stops_in (body x s)) ->
  forall s, stops_in (fold_each xs body s).
Proof.
  intros H. induction xs as [|x xs IH]; intros s; cbn [fold_each].
  - apply stops_in_ret.
  - apply stops_in_bind; auto.
Qed.

Lemma stops_in_for_tiles dim rep body :
  P Loops -> (forall x, stops_in (body x)) ->
  stops_in (for_tiles dim rep body).
Proof.
  intros HP H. unfold for_tiles. destruct (_ && _).
  - apply stops_in_bind; [apply H | intros; apply stops_in_halt, HP].
  - apply stops_in_for_each, H.
Qed.

Lemma stops_in_fold_tiles {S} dim rep (body : Z -> S -> stmt S) :
  P Loops -> (forall x s, stops_in (body x s)) ->
  forall s, stops_in (fold_tiles dim rep body s).
Proof.
  intros HP H s. unfold fold_tiles. destruct (_ && _).
  - apply stops_in_bind; [apply H | intros; apply stops_in_halt, HP].
  - apply stops_in_fold_each, H.
Qed.

End Stops.

(** Stopping is for a loop without end only. *)
Definition loops_only (s : stop) : Prop := s = Loops.

Lemma stop_bind {A B} (m : stmt A) (k : A -> stmt B) w s :
  fst (m w) = Stop s -> fst (bind m k w) = Stop s.
Proof.
  unfold bind. destruct (m w) as [[a|s'] w1]; cbn [fst];
    [discriminate | intros [= ->]; reflexivity].
Qed.

(** A loop over tiles of size zero. *)
Lemma for_tiles_flat rep body w :
  stops_in loops_only (body 0) ->
  fst (for_tiles 0 rep body w) = Stop Loops.
Proof.
  intros H. unfold for_tiles. cbn [Z.mul Z.leb Z.compare andb]. unfold bind.
  specialize (H w). destruct (body 0 w) as [[a|s] w1]; cbn [fst] in *.
  - reflexivity.
  - rewrite (H s eq_refl). reflexivity.
Qed.

Lemma fold_tiles_flat {S} rep (body : Z -> S -> stmt S) s w :
  stops_in loops_only (body 0 s) ->
  fst (fold_tiles 0 rep body s w) = Stop Loops.
Proof.
  intros H. unfold fold_tiles. cbn [Z.mul Z.leb Z.compare andb]. unfold bind.
  specialize (H w). destruct (body 0 s w) as [[a|s'] w1]; cbn [fst] in *.
  - reflexivity.
  - rewrite (H s' eq_refl). reflexivity.
Qed.

(** *** [generate_raster] *)

(** A line of no bytes is read and nothing is sent for it. *)
Lemma scan_empty_line g bx by_ ox oy pass y dir w :
  exists w', Raster.scan_line g 0 0 bx by_ ox oy pass y dir w = (Next dir, w').
Proof.
  assert (Hread : exists w', Raster.read_line g 0 0 pass y w = (Next [], w')).
  { unfold Raster.read_line.
    change (Z.quot (0 + 3) 4 * 4) with 0.
    change (Raster.too_wide 0) with false. cbv iota.
    unfold bind, read_bitmap, fread. cbn [Z.to_nat firstn length Z.of_nat].
    cbn [Z.eqb negb Z.ltb Z.compare andb].
    destruct (Raster.is_mode "c" g); [|destruct (Raster.is_mode "g" g)];
      eexists; reflexivity. }
  destruct Hread as [w' Hread]. exists w'.
  unfold Raster.scan_line, bind. rewrite Hread.
  destruct (Raster.power_levels g); reflexivity.
Qed.

Lemma raster_body_flat bx by_ off w :
  width (vars w) = 0 -> fst (Raster.raster_body bx by_ off w) = Stop Loops.
Proof.
  intros Hw. unfold Raster.raster_body. rewrite bind_get_vars.
  rewrite Hw. change (Z.quot (0 + 7) 8) with 0.
  set (h := if Raster.power_levels (vars w) then 0 else 0).
  assert (Hh : h = 0) by (subst h; destruct (Raster.power_levels _); reflexivity).
  set (d := if Raster.power_levels (vars w) then _ else _).
  assert (Hd : d = 0).
  { subst d. rewrite Hh. destruct (Raster.power_levels _); reflexivity. }
  rewrite Hh, Hd. rewrite bind_emit.
  apply stop_bind. apply for_tiles_flat.
  apply stops_in_for_tiles; [reflexivity|]. intros offy.
  apply stops_in_for_each. intros pass.
  apply stops_in_bind; [apply stops_in_seek_bitmap|]. intros _.
  apply stops_in_bind; [|intros; apply stops_in_ret].
  apply stops_in_fold_each. intros y dir w1 s.
  destruct (scan_empty_line (vars w) bx by_ 0 offy pass y dir w1) as [w2 ->].
  cbn. discriminate.
Qed.

(** X14. A bitmap whose header gives the width 0 stops the program for
    good: the loop over the tiles across, [for (offx = width *
    (x_repeat - 1); offx >= 0; offx -= width)], starts at 0 and takes 0
    away in every turn, every line of the picture is read as no bytes at
    all and printed as nothing, and [generate_raster] never returns. *)
Theorem zero_width_never_ends hdr w :
  raster_repeat (vars w) <> 0 ->
  width (vars (snd (Raster.load_header hdr w))) = 0 ->
  (forall fuel,
      Loops.tile_offsets fuel 0 (0 * (x_repeat (vars w) - 1)) = None) /\
  fst (Raster.generate_raster hdr w) = Stop Loops.
Proof.
  intros Hrep Hw. split.
  - intros fuel. cbn [Z.mul]. induction fuel as [|fuel IH];
      cbn [Loops.tile_offsets Z.ltb Z.compare]; [reflexivity|].
    change (0 - 0) with 0. rewrite IH. reflexivity.
  - assert (Hblock : forall bx by_,
               fst (Raster.raster_block bx by_ hdr w) = Stop Loops).
    { intros bx by_. unfold Raster.raster_block. rewrite bind_flow.
      destruct (Raster.load_header hdr w) as [[loaded|s] w1] eqn:E.
      - cbn [snd] in Hw. apply stop_bind. apply raster_body_flat. exact Hw.
      - unfold Raster.load_header, bind, read_bitmap in E.
        destruct (fread _ _) in E. discriminate E. }
    unfold Raster.generate_raster. rewrite bind_get_vars. apply stop_bind.
    destruct (Z.ltb_spec (raster_repeat (vars w)) 0).
    + apply stop_bind. apply Hblock.
    + destruct (Z.to_nat (raster_repeat (vars w))) as [|k] eqn:E; [lia|].
      cbn [Raster.raster_blocks]. apply stop_bind. apply Hblock.
Qed.

Lemma zero_width_never_ends_witness :
  fst (Raster.generate_raster blank_header
         (start small_options (bmp 0 2 []))) = Stop Loops.
Proof.
  apply (zero_width_never_ends blank_header (start small_options (bmp 0 2 []))).
  - cbn. discriminate.
  - reflexivity.
Defined.

(** *** [generate_vector] *)

Lemma stops_in_set_power g buf x0 p :
  vector_freq g <> 0 -> stops_in loops_only (Vector.set_power g buf x0 p).
Proof.
  intros Hf w s Hs.
  destruct (settles_set_power g buf x0 p Hf w) as [H1 H2].
  destruct s as [b| |]; [exfalso | reflexivity | contradiction].
  revert Hs. unfold Vector.set_power.
  destruct (Vector.sscanf_d buf x0) as [count x].
  destruct (_ && _); [|cbn; discriminate].
  unfold bind.
  destruct (negb (Vector.up p)); cbn -[Vector.compensate fmt_0d];
    destruct (negb (vector_speed g =? 0) && (vector_speed g <? 100));
    try destruct (Vector.compensate g x _) as [[[a b'] c]|];
    cbn -[fmt_0d]; discriminate.
Qed.

Lemma stops_in_commands g bx by_ x0 y0 lines :
  vector_freq g <> 0 ->
  forall st, stops_in loops_only (Vector.commands g bx by_ x0 y0 lines st).
Proof.
  intros Hf.
  assert (Hcmd : forall tag args st,
             stops_in loops_only (Vector.command g bx by_ x0 y0 tag args st)).
  { intros. unfold Vector.command. destruct st as [p passstart].
    apply stops_in_bind.
    { destruct passstart; [apply stops_in_ret|].
      repeat (apply stops_in_bind; [apply stops_in_emit | intros _]).
      apply stops_in_emit. }
    intros _. apply stops_in_bind; [|intros; apply stops_in_ret].
    destruct (Ascii.eqb tag "M").
    { unfold Vector.move. destruct (Vector.sscanf_d_d _ _ _) as [[? ?] ?].
      destruct (_ =? _)%nat; apply stops_in_ret. }
    destruct (Ascii.eqb tag "C").
    { unfold Vector.close. apply stops_in_bind; [|intros; apply stops_in_ret].
      destruct (_ && _); [apply stops_in_emit | apply stops_in_ret]. }
    destruct (Ascii.eqb tag "P"); [apply stops_in_set_power, Hf|].
    destruct (Ascii.eqb tag "L"); [|apply stops_in_ret].
    unfold Vector.line. destruct (Vector.sscanf_d_d _ _ _) as [[? ?] ?].
    apply stops_in_bind.
    { destruct (Vector.newline p); [|apply stops_in_ret].
      apply stops_in_bind; [|intros; apply stops_in_emit].
      destruct (negb _); [apply stops_in_emit | apply stops_in_ret]. }
    intros _. apply stops_in_bind; [apply stops_in_emit | intros _].
    apply stops_in_bind; [|intros; apply stops_in_ret].
    destruct (_ =? _)%nat; [apply stops_in_emit | apply stops_in_ret]. }
  induction lines as [|buf lines IH]; intros st; cbn [Vector.commands];
    [apply stops_in_ret|].
  destruct buf as [|tag args]; [apply IH|].
  destruct (Vector.isalpha tag); [|apply IH].
  apply stops_in_bind; [apply Hcmd|]. intros st'.
  destruct (Ascii.eqb tag "X"); [apply stops_in_ret | apply IH].
Qed.

(** X15. With the height 0, [generate_vector] never returns either: its
    outer loop over the tiles, [for (offy = height * (y_repeat - 1);
    offy >= 0; offy -= height)], cannot be left. *)
Theorem zero_height_never_ends x0 y0 vec w :
  height (vars w) = 0 -> vector_freq (vars w) <> 0 ->
  fst (Vector.generate_vector x0 y0 vec w) = Stop Loops.
Proof.
  intros Hh Hf. unfold Vector.generate_vector. rewrite bind_get_vars.
  apply stop_bind. rewrite Hh. apply fold_tiles_flat.
  apply stops_in_fold_tiles; [reflexivity|]. intros offx p.
  apply stops_in_bind; [|intros; apply stops_in_ret].
  apply stops_in_commands. exact Hf.
Qed.

Lemma zero_height_never_ends_witness :
  fst (Vector.generate_vector 0 0 small_vector
         (start (set_size 16 0 small_options) [])) = Stop Loops.
Proof.
  apply zero_height_never_ends; [reflexivity | cbn; discriminate].
Defined.

End EndlessFacts.

(** ** The vector file *)
Module PlotFacts.
Import StmtFacts PjlFacts.

(** *** Loops with bodies that agree *)

Lemma bind_same {A B} (m m' : stmt A) (k : A -> stmt B) w :
  m w = m' w -> bind m k w = bind m' k w.
Proof. unfold bind. intros ->. reflexivity. Qed.

Lemma fold_each_same {A S} (xs : list A) (f f' : A -> S -> stmt S) :
  (forall x s w, f x s w = f' x s w) ->
  forall s w, fold_each xs f s w = fold_each xs f' s w.
Proof.
  intros H. induction xs as [|x xs IH]; intros s w; cbn [fold_each];
    [reflexivity|].
  unfold bind. rewrite H. destruct (f' x s w) as [[s'|stop] w1];
    [apply IH | reflexivity].
Qed.

Lemma fold_tiles_same {S} dim rep (f f' : Z -> S -> stmt S) :
  (forall x s w, f x s w = f' x s w) ->
  forall s w, fold_tiles dim rep f s w = fold_tiles dim rep f' s w.
Proof.
  intros H s w. unfold fold_tiles. destruct (_ && _).
  - apply bind_same, H.
  - apply fold_each_same, H.
Qed.

(** *** The end of the page *)

Lemma commands_after_x g bx by_ x0 y0 args post pre :
  forall st w,
    Vector.commands g bx by_ x0 y0 (pre ++ String "X" args :: post) st w =
    Vector.commands g bx by_ x0 y0 (pre ++ [String "X" args]) st w.
Proof.
  induction pre as [|buf pre IH]; intros st w; cbn [app Vector.commands].
  - change (Vector.isalpha "X") with true. cbv iota.
    unfold bind. destruct (Vector.command g bx by_ x0 y0 "X" args st w)
      as [[st'|s] w1]; reflexivity.
  - destruct buf as [|tag rest]; [apply IH|].
    destruct (Vector.isalpha tag); [|apply IH].
    unfold bind. destruct (Vector.command g bx by_ x0 y0 tag rest st w)
      as [[st'|s] w1]; [|reflexivity].
    destruct (Ascii.eqb tag "X"); [reflexivity | apply IH].
Qed.

(** X16. [generate_vector] leaves the loop over the lines at the first
    line that opens with X, the one the new [showpage] prints: whatever
    the file holds after that line has no effect on the job. *)
Theorem after_showpage_unread x0 y0 pre args post w :
  Vector.generate_vector x0 y0 (pre ++ String "X" args :: post) w =
  Vector.generate_vector x0 y0 (pre ++ [String "X" args]) w.
Proof.
  unfold Vector.generate_vector. rewrite !bind_get_vars.
  apply bind_same. apply fold_tiles_same. intros offy p w1.
  apply fold_tiles_same. intros offx p' w2.
  apply bind_same. apply commands_after_x.
Qed.

(** *** Lines that are no commands *)

(** The line does not open with a letter. *)
Definition no_command (buf : string) : bool :=
  match buf with
  | String c _ => negb (Vector.isalpha c)
  | EmptyString => true
  end.

Lemma commands_idle g bx by_ x0 y0 lines :
  forallb no_command lines = true ->
  forall st w, Vector.commands g bx by_ x0 y0 lines st w = (Next st, w).
Proof.
  induction lines as [|buf lines IH]; cbn [forallb Vector.commands];
    [reflexivity|].
  intros H st w. apply andb_prop in H as [Hb Hl].
  destruct buf as [|c rest]; [apply IH, Hl|].
  cbn [no_command] in Hb. destruct (Vector.isalpha c); [discriminate|].
  apply IH, Hl.
Qed.

Lemma fold_each_idle {A S} (xs : list A) (body : A -> S -> stmt S) :
  (forall x s w, body x s w = (Next s, w)) ->
  forall s w, fold_each xs body s w = (Next s, w).
Proof.
  intros H. induction xs as [|x xs IH]; intros s w; cbn [fold_each];
    [reflexivity|].
  unfold bind. rewrite H. apply IH.
Qed.

Lemma fold_tiles_idle {S} dim rep (body : Z -> S -> stmt S) :
  0 < dim ->
  (forall x s w, body x s w = (Next s, w)) ->
  forall s w, fold_tiles dim rep body s w = (Next s, w).
Proof.
  intros Hd H s w. unfold fold_tiles.
  destruct (Z.leb_spec dim 0); [lia|]. rewrite andb_false_r.
  apply fold_each_idle, H.
Qed.

(** X17. A vector file without a line that opens with a letter, the
    empty file among them, gives no HPGL at all: not even the [IN;] and
    the three settings are sent, and the block is the closing
    [ESC %1BPU]. *)
Theorem no_commands_no_plot x0 y0 lines w :
  0 < width (vars w) -> 0 < height (vars w) ->
  forallb no_command lines = true ->
  Vector.generate_vector x0 y0 lines w =
  (Next true, with_pjl (pjl_file w ++ ESC ++ "%1BPU") w).
Proof.
  intros Hw Hh Hl. unfold Vector.generate_vector. rewrite bind_get_vars.
  rewrite bind_flow.
  rewrite (fold_tiles_idle (height (vars w)) _ _ Hh).
  - reflexivity.
  - intros offy p w1. apply (fold_tiles_idle (width (vars w)) _ _ Hw).
    intros offx p' w2. rewrite bind_flow.
    rewrite (commands_idle _ _ _ x0 y0 lines Hl). reflexivity.
Qed.

Lemma no_commands_no_plot_witness :
  pjl_file (snd (Vector.generate_vector 0 0
                   ["%%[ ProductName ]%%"; EmptyString; "12 34"]%string
                   (start small_options []))) = (ESC ++ "%1BPU")%string.
Proof.
  rewrite (no_commands_no_plot 0 0
             ["%%[ ProductName ]%%"; EmptyString; "12 34"]%string
             (start small_options [])); reflexivity.
Defined.

(** *** What the function touches *)

(** The world after is the world before with another PJL file. *)
Definition only_file (w w' : world) : Prop := w' = with_pjl (pjl_file w') w.

Lemma only_file_refl w : only_file w w.
Proof. symmetry. apply with_pjl_same. Qed.

Lemma only_file_trans a b c : only_file a b -> only_file b c -> only_file a c.
Proof.
  destruct a, b, c. unfold only_file, with_pjl.
  cbn [pjl_file vars stderr bitmap_file]. congruence.
Qed.

Lemma only_file_emit s w : only_file w (snd (emit s w)).
Proof. reflexivity. Qed.

Section OnlyFile.

Local Hint Extern 1 (forall w, only_file w w) => exact only_file_refl : core.
Local Hint Extern 1 (forall a b c, only_file a b -> only_file b c -> only_file a c)
  => exact only_file_trans : core.
Local Hint Extern 1 (forall s w, only_file w (snd (emit s w)))
  => exact only_file_emit : core.

Lemma only_file_generate_vector x0 y0 vec :
  respects only_file (Vector.generate_vector x0 y0 vec).
Proof.
  assert (Hcmd : forall g bx by_ tag args st,
             respects only_file (Vector.command g bx by_ x0 y0 tag args st)).
  { intros. unfold Vector.command, Vector.move, Vector.close,
      Vector.set_power, Vector.line. respects. }
  assert (Hcmds : forall g bx by_ lines st,
             respects only_file (Vector.commands g bx by_ x0 y0 lines st)).
  { induction lines as [|buf lines IH]; intros; cbn [Vector.commands];
      respects; auto. }
  unfold Vector.generate_vector. respects; auto.
Qed.

End OnlyFile.

(** X18. [generate_vector] works on the PJL file alone: it adds to what
    the file holds, and it leaves the global variables, the bitmap and
    [stderr] as they were, also when it does not come back. *)
Theorem vector_only_appends x0 y0 vec w :
  let w' := snd (Vector.generate_vector x0 y0 vec w) in
  vars w' = vars w /\ bitmap_file w' = bitmap_file w /\
  stderr w' = stderr w /\
  pjl_file w' =
    (pjl_file w ++ text (Vector.generate_vector x0 y0 vec) w)%string.
Proof.
  intros w'. subst w'.
  pose proof (only_file_generate_vector x0 y0 vec w) as H.
  unfold only_file in H.
  split; [rewrite H; reflexivity|].
  split; [rewrite H; reflexivity|].
  split; [rewrite H; reflexivity|].
  rewrite (appending_run _ w (appending_generate_vector x0 y0 vec)).
  reflexivity.
Qed.

End PlotFacts.

(** ** The conversation with the printer *)
Module SpoolFacts.
Import Printer PrinterFacts.

(** *** A connection that is made *)







(** *** A connection that is never made *)



(** *** The data file *)

Lemma substring_all s : substring 0 (String.length s) s = s.
Proof.
  induction s as [|c s IH]; cbn; [reflexivity | rewrite IH; reflexivity].
Qed.

Lemma substring_split n :
  forall s,
    (substring 0 n s ++ substring n (String.length s - n) s)%string = s.
Proof.
  induction n as [|n IH]; intros s.
  - rewrite Nat.sub_0_r, substring_all. destruct s; reflexivity.
  - destruct s as [|c s]; [reflexivity|].
    cbn [substring String.length Nat.sub append]. rewrite IH. reflexivity.
Qed.

Lemma substring_head_length n :
  forall s, String.length (substring 0 n s) = Nat.min n (String.length s).
Proof.
  induction n as [|n IH]; intros [|c s]; cbn [substring String.length Nat.min];
    try reflexivity.
  rewrite IH. reflexivity.
Qed.

Lemma substring_tail_length n :
  forall s m, (m = String.length s - n)%nat ->
    String.length (substring n m s) = m.
Proof.
  induction n as [|n IH]; intros s m Hm.
  - rewrite Nat.sub_0_r in Hm. subst m. rewrite substring_all. reflexivity.
  - destruct s as [|c s]; cbn [substring String.length] in *;
      [subst m; reflexivity|].
    apply IH. lia.
Qed.

Lemma pieces_cover fuel :
  forall s,
    (String.length s <= fuel)%nat ->
    String.concat "" (pieces fuel s) = s /\
    Forall (fun p => 0 < Z.of_nat (String.length p) <= BUF_SIZE)
      (pieces fuel s).
Proof.
  induction fuel as [|fuel IH]; intros s Hlen.
  - destruct s; [|cbn in Hlen; lia]. split; [reflexivity | constructor].
  - destruct s as [|c s]; [split; [reflexivity | constructor]|].
    cbn [pieces]. set (n := Z.to_nat BUF_SIZE). set (t := String c s) in *.
    assert (Hn : (0 < n)%nat) by (subst n; unfold BUF_SIZE; lia).
    assert (Ht : (0 < String.length t)%nat) by (subst t; cbn; lia).
    pose proof (substring_tail_length n t _ eq_refl) as Hrest.
    destruct (IH (substring n (String.length t - n) t)) as [Hcat Hall];
      [lia|].
    split.
    + transitivity (substring 0 n t ++ substring n (String.length t - n) t)%string;
        [|apply substring_split].
      rewrite <- Hcat at 2.
      destruct (pieces fuel (substring n (String.length t - n) t)) as [|p ps] eqn:E.
      * cbn [String.concat]. rewrite StmtFacts.append_nil_r. reflexivity.
      * reflexivity.
    + constructor; [|exact Hall].
      rewrite substring_head_length. subst n. unfold BUF_SIZE in *. lia.
Qed.

Lemma sent_write_all fd ps :
  0 <= fd -> forall k,
    sent (write_all fd ps k) = sent k ++ ps /\
    answers (write_all fd ps k) = answers k /\
    errors (write_all fd ps k) = errors k.
Proof.
  intros Hfd. induction ps as [|p ps IH]; intros k; cbn [write_all].
  - rewrite app_nil_r. auto.
  - destruct (IH (write fd p k)) as (H1 & H2 & H3). unfold write in *.
    destruct (Z.ltb_spec fd 0); [lia|]. cbn [sent answers errors] in *.
    rewrite H1, H2, H3, <- app_assoc. auto.
Qed.

(** X20. With a connection and four zero bytes from the printer,
    [printer_send] returns true and has sent, in this order, the queue
    command, the announcement of the control file, the control file, which
    is the [H] line alone, the announcement of the data file and the job
    in pieces of at most [sizeof (buf)] bytes that put together are the
    PJL file. *)
Theorem job_sent g host hostname lpdres0 net pjl k fd k0 rest :
  printer_connect host PRINTER_MAX_WAIT net k = (fd, k0) ->
  0 <= fd -> answers k0 = 0 :: 0 :: 0 :: 0 :: rest ->
  let localhost := short_name hostname in
  let control := ("H" ++ localhost ++ LF)%string in
  let size := fmt_d (Z.of_nat (String.length pjl)) in
  let r := printer_send g host hostname lpdres0 net pjl k in
  fst r = true /\
  sent (snd r) =
    sent k0
    ++ [(STX ++ queue g ++ LF)%string;
        (STX ++ fmt_d (Z.of_nat (String.length control)) ++ " cfA"
         ++ job_name g ++ localhost ++ LF)%string;
        (control ++ String "000" EmptyString)%string;
        (ETX ++ size ++ " dfA" ++ job_name g ++ localhost ++ LF)%string]
    ++ pieces (S (String.length pjl)) pjl /\
  String.concat "" (pieces (S (String.length pjl)) pjl) = pjl /\
  Forall (fun p => 0 < Z.of_nat (String.length p) <= BUF_SIZE)
    (pieces (S (String.length pjl)) pjl) /\
  answers (snd r) = rest.
Proof.
  intros Hconn Hfd Hans localhost control size r. subst r.
  unfold printer_send. rewrite Hconn. fold localhost. fold control. fold size.
  unfold write, read, printer_disconnect.
  destruct (Z.ltb_spec fd 0); [lia|].
  cbn [answers sent errors slept log]. rewrite Hans.
  repeat (progress (change (negb (uchar 0 =? 0)) with false; cbv iota;
                    cbn [fst snd answers sent errors log])).
  match goal with
  | |- context [write_all fd ?ps ?k1] =>
      destruct (sent_write_all fd ps Hfd k1) as (H1 & H2 & _)
  end.
  cbn [sent answers] in H1, H2.
  destruct (pieces_cover (S (String.length pjl)) pjl ltac:(lia)) as [Hcat Hall].
  split; [reflexivity|].
  split; [rewrite H1; cbn [sent]; rewrite <- !app_assoc; reflexivity|].
  split; [exact Hcat|]. split; [exact Hall | exact H2].
Qed.

Lemma job_sent_witness :
  fst (printer_send PjlFacts.small_options "laser" "pc.lan" 9 reached
         "job" (idle [0; 0; 0; 0])) = true /\
  length (sent (snd (printer_send PjlFacts.small_options "laser" "pc.lan" 9
                       reached "job" (idle [0; 0; 0; 0])))) = 5%nat.
Proof.
  destruct (job_sent PjlFacts.small_options "laser" "pc.lan" 9 reached "job"
              (idle [0; 0; 0; 0]) 3
              (snd (printer_connect "laser" PRINTER_MAX_WAIT reached
                      (idle [0; 0; 0; 0]))) [])
    as (H1 & H2 & _).
  - reflexivity.
  - lia.
  - reflexivity.
  - split; [exact H1|]. rewrite H2. reflexivity.
Defined.

(** The four commands of the conversation, as [printer_send] sends
    them. *)
Definition commands (g : globals) (hostname pjl : string) : list string :=
  let localhost := short_name hostname in
  let control := ("H" ++ localhost ++ LF)%string in
  let size := fmt_d (Z.of_nat (String.length pjl)) in
  [(STX ++ queue g ++ LF)%string;
   (STX ++ fmt_d (Z.of_nat (String.length control)) ++ " cfA"
    ++ job_name g ++ localhost ++ LF)%string;
   (control ++ String "000" EmptyString)%string;
   (ETX ++ size ++ " dfA" ++ job_name g ++ localhost ++ LF)%string].

(** The line about the size of the job, which is printed in front of
    the fourth command. *)
Definition size_line (g : globals) (pjl : string) : string :=
  ("job '" ++ job_name g ++ "': size "
   ++ fmt_d (Z.of_nat (String.length pjl)) ++ LF)%string.

(** The place of the first answer that is not zero, counted from 1, and
    that answer as [lpdres] holds it; [None] when there is none. *)
Fixpoint first_refusal (n : nat) (answers : list Z) : option (nat * Z) :=
  match answers with
  | [] => None
  | a :: rest =>
      if uchar a =? 0 then first_refusal (S n) rest else Some (n, uchar a)
  end.

(** X29. With a connection, the first of the four answers of the
    printer that is not zero ends [printer_send] with false.  When it is
    the answer to command [n], what has been sent is the commands 1 to
    [n] and not a byte of the job, and what has been added to [stderr] is
    the line with the host and that answer, after the line with the size
    of the job when [n] is 4. *)
Theorem refused_job_not_sent g host hostname lpdres0 net pjl k fd k0
  a1 a2 a3 a4 rest n code :
  printer_connect host PRINTER_MAX_WAIT net k = (fd, k0) ->
  0 <= fd -> answers k0 = a1 :: a2 :: a3 :: a4 :: rest ->
  first_refusal 1 [a1; a2; a3; a4] = Some (n, code) ->
  let r := printer_send g host hostname lpdres0 net pjl k in
  fst r = false /\
  code <> 0 /\
  sent (snd r) = sent k0 ++ firstn n (commands g hostname pjl) /\
  errors (snd r) =
    errors k0 ++ (if (n =? 4)%nat then [size_line g pjl] else [])
    ++ [bad_response host code] /\
  answers (snd r) = skipn n (a1 :: a2 :: a3 :: a4 :: rest).
Proof.
  intros Hconn Hfd Hans Hfirst r. subst r.
  unfold printer_send. rewrite Hconn. unfold commands, size_line.
  set (localhost := short_name hostname).
  set (control := ("H" ++ localhost ++ LF)%string).
  set (size := fmt_d (Z.of_nat (String.length pjl))).
  unfold write, read.
  destruct (Z.ltb_spec fd 0); [lia|].
  cbn [answers sent errors slept log]. rewrite Hans.
  cbn [first_refusal] in Hfirst.
  destruct (Z.eqb_spec (uchar a1) 0) as [E1|E1]; cbn [negb].
  2:{ injection Hfirst as <- <-. cbn [fst snd log sent errors answers].
      split; [reflexivity|]. split; [exact E1|].
      split; [reflexivity|]. split; reflexivity. }
  cbn [fst snd answers sent errors log].
  destruct (Z.eqb_spec (uchar a2) 0) as [E2|E2]; cbn [negb].
  2:{ injection Hfirst as <- <-. cbn [fst snd log sent errors answers].
      split; [reflexivity|]. split; [exact E2|].
      split; [cbn [firstn]; rewrite <- app_assoc; reflexivity|].
      split; reflexivity. }
  cbn [fst snd answers sent errors log].
  destruct (Z.eqb_spec (uchar a3) 0) as [E3|E3]; cbn [negb].
  2:{ injection Hfirst as <- <-. cbn [fst snd log sent errors answers].
      split; [reflexivity|]. split; [exact E3|].
      split; [cbn [firstn]; rewrite <- !app_assoc; reflexivity|].
      split; reflexivity. }
  cbn [fst snd answers sent errors log].
  destruct (Z.eqb_spec (uchar a4) 0) as [E4|E4]; cbn [negb].
  2:{ injection Hfirst as <- <-. cbn [fst snd log sent errors answers].
      split; [reflexivity|]. split; [exact E4|].
      split; [cbn [firstn]; rewrite <- !app_assoc; reflexivity|].
      split; [cbn [Nat.eqb app]; rewrite <- app_assoc; reflexivity
             | reflexivity]. }
  discriminate Hfirst.
Qed.

Lemma refused_job_not_sent_witness :
  fst (printer_send PjlFacts.small_options "laser" "pc.lan" 0 reached
         "job" (idle [0; 0; 2; 0])) = false /\
  sent (snd (printer_send PjlFacts.small_options "laser" "pc.lan" 0
               reached "job" (idle [0; 0; 2; 0])))
  = firstn 3 (commands PjlFacts.small_options "pc.lan" "job") /\
  last (errors (snd (printer_send PjlFacts.small_options "laser" "pc.lan" 0
                       reached "job" (idle [0; 0; 2; 0])))) EmptyString
  = bad_response "laser" 2.
Proof.
  destruct (refused_job_not_sent PjlFacts.small_options "laser" "pc.lan" 0
              reached "job" (idle [0; 0; 2; 0]) 3
              (snd (printer_connect "laser" PRINTER_MAX_WAIT reached
                      (idle [0; 0; 2; 0]))) 0 0 2 0 [] 3%nat 2)
    as (H1 & _ & H2 & H3 & _).
  - reflexivity.
  - lia.
  - reflexivity.
  - reflexivity.
  - split; [exact H1|]. split; [rewrite H2; reflexivity|].
    rewrite H3. reflexivity.
Defined.

End SpoolFacts.

(** ** The control file *)
Module ControlFacts.
Import Control.

Lemma length_chars s : length (list_ascii_of_string s) = String.length s.
Proof. induction s as [|c s IH]; cbn; [reflexivity | rewrite IH; reflexivity]. Qed.

Lemma strlen_chars s rest :
  EpsFacts.no_nul s = true ->
  strlen (list_ascii_of_string s ++ "000"%char :: rest) = String.length s.
Proof.
  induction s as [|c s IH]; cbn; [reflexivity|].
  destruct (Ascii.eqb c "000"); cbn; [discriminate|].
  intros H. rewrite IH by exact H. reflexivity.
Qed.

Lemma c_string_chars s rest :
  EpsFacts.no_nul s = true ->
  c_string (list_ascii_of_string s ++ "000"%char :: rest) = s.
Proof.
  induction s as [|c s IH]; cbn; [reflexivity|].
  destruct (Ascii.eqb c "000"); cbn; [discriminate|].
  intros H. rewrite IH by exact H. reflexivity.
Qed.

(** What is stored behind the first zero byte changes neither the
    length nor the text of the string in front of it. *)
Lemma front_kept buf :
  forall off tail,
    (strlen buf < off <= length buf)%nat ->
    strlen (firstn off buf ++ tail) = strlen buf /\
    c_string (firstn off buf ++ tail) = c_string buf.
Proof.
  induction buf as [|c buf IH]; intros off tail H; cbn [length strlen] in H.
  - lia.
  - destruct off as [|off]; [lia|].
    cbn [firstn app strlen c_string].
    destruct (Ascii.eqb c "000"); [split; reflexivity|].
    destruct (IH off tail ltac:(lia)) as [-> ->]. split; reflexivity.
Qed.

Lemma length_sprintf off s buf :
  (off + String.length s + 1 <= length buf)%nat ->
  length (sprintf off s buf) = length buf.
Proof.
  intros H. unfold sprintf.
  rewrite !length_app, length_firstn, length_chars. cbn [length].
  rewrite length_skipn. lia.
Qed.

Lemma sprintf_behind off s buf :
  (strlen buf < off)%nat -> (off + String.length s + 1 <= length buf)%nat ->
  strlen (sprintf off s buf) = strlen buf /\
  string_at 0 (sprintf off s buf) = string_at 0 buf.
Proof.
  intros H1 H2. unfold sprintf, string_at. rewrite !skipn_O.
  apply front_kept. lia.
Qed.

Lemma sprintf_there off s buf :
  EpsFacts.no_nul s = true -> (off <= length buf)%nat ->
  string_at off (sprintf off s buf) = s.
Proof.
  intros Hs Hoff. unfold sprintf, string_at.
  rewrite skipn_app, length_firstn.
  replace (Nat.min off (length buf)) with off by lia.
  rewrite Nat.sub_diag, skipn_O.
  rewrite skipn_all2 by (rewrite length_firstn; lia).
  cbn [app]. apply c_string_chars. exact Hs.
Qed.

Lemma sprintf_front s buf :
  EpsFacts.no_nul s = true ->
  strlen (sprintf 0 s buf) = String.length s.
Proof.
  intros Hs. unfold sprintf. cbn [firstn app]. apply strlen_chars. exact Hs.
Qed.

(** X21. Of the seven calls of [sprintf] that build the control file,
    the first stores the [H] line at the start of [buf] and each of the
    others stores at [buf + strlen (buf) + 1], the same place every time.
    So what is sent as the control file is the [H] line and its zero
    byte, the lines for the user, the title, the data file and the name
    are lost, and the announcement, stored last, is what is sent from the
    second place.  The texts hold no zero byte and fit the array. *)
Theorem control_file_is_host_line g localhost buf :
  let control := ("H" ++ localhost ++ LF)%string in
  let announce :=
    (STX ++ fmt_d (Z.of_nat (String.length control)) ++ " cfA"
     ++ job_name g ++ localhost ++ LF)%string in
  EpsFacts.no_nul control = true ->
  EpsFacts.no_nul announce = true ->
  Forall (fun t : string =>
            (String.length control + String.length t + 2 <= length buf)%nat)
    ["P" ++ job_user g ++ LF; "J" ++ job_title g ++ LF;
     "ldfA" ++ job_name g ++ localhost ++ LF;
     "UdfA" ++ job_name g ++ localhost ++ LF;
     "N" ++ job_title g ++ LF; announce]%string ->
  let final := control_file g localhost buf in
  control_sent final = (control ++ String "000" EmptyString)%string /\
  announcement final = announce.
Proof.
  intros control announce Hc Ha Hfit final.
  repeat match goal with
         | H : Forall _ (_ :: _) |- _ =>
             let H1 := fresh "Hfit" in
             apply Forall_cons_iff in H; destruct H as [H1 H]
         end.
  subst final. unfold control_file. fold control.
  set (b1 := sprintf 0 control buf).
  assert (Hlen1 : length b1 = length buf)
    by (apply length_sprintf; cbn [Nat.add]; lia).
  assert (Hs1 : strlen b1 = String.length control)
    by (apply sprintf_front; exact Hc).
  assert (Ht1 : string_at 0 b1 = control).
  { apply (sprintf_there 0 control buf Hc). lia. }
  assert (Hstep : forall b t,
             length b = length buf -> strlen b = String.length control ->
             string_at 0 b = control ->
             (String.length control + String.length t + 2 <= length buf)%nat ->
             let b' := sprintf (strlen b + 1) t b in
             length b' = length buf /\ strlen b' = String.length control /\
             string_at 0 b' = control).
  { intros b t Hl Hs Ht Hf b'. subst b'.
    destruct (sprintf_behind (strlen b + 1) t b) as [E1 E2]; [lia | lia |].
    rewrite length_sprintf by lia. rewrite E1, E2. auto. }
  destruct (Hstep b1 _ Hlen1 Hs1 Ht1 Hfit0) as (Hlen2 & Hs2 & Ht2).
  set (b2 := sprintf (strlen b1 + 1) _ b1) in *.
  destruct (Hstep b2 _ Hlen2 Hs2 Ht2 Hfit1) as (Hlen3 & Hs3 & Ht3).
  set (b3 := sprintf (strlen b2 + 1) _ b2) in *.
  destruct (Hstep b3 _ Hlen3 Hs3 Ht3 Hfit2) as (Hlen4 & Hs4 & Ht4).
  set (b4 := sprintf (strlen b3 + 1) _ b3) in *.
  destruct (Hstep b4 _ Hlen4 Hs4 Ht4 Hfit3) as (Hlen5 & Hs5 & Ht5).
  set (b5 := sprintf (strlen b4 + 1) _ b4) in *.
  destruct (Hstep b5 _ Hlen5 Hs5 Ht5 Hfit4) as (Hlen6 & Hs6 & Ht6).
  set (b6 := sprintf (strlen b5 + 1) _ b5) in *.
  rewrite Hs6. fold announce.
  destruct (Hstep b6 announce Hlen6 Hs6 Ht6 Hfit5) as (Hlen7 & Hs7 & Ht7).
  rewrite Hs6 in Hlen7, Hs7, Ht7.
  split.
  - unfold control_sent. rewrite Ht7. reflexivity.
  - unfold announcement. rewrite Hs7.
    apply sprintf_there; [exact Ha | lia].
Qed.

Lemma control_file_is_host_line_witness :
  control_sent (control_file PjlFacts.small_options "pc"
                  (repeat "x"%char 64))
  = ("Hpc" ++ LF ++ String "000" EmptyString)%string.
Proof.
  apply (control_file_is_host_line PjlFacts.small_options "pc"
           (repeat "x"%char 64)).
  - reflexivity.
  - reflexivity.
  - repeat constructor; cbn; lia.
Defined.

End ControlFacts.
